(** * schmoji-emoji: the Flattener (scripts/rename_files.py) and the
      Selector (scripts/copy_schmoji.py)

    Both scripts are directory walks over [pathlib.Path] objects with
    [shutil.copy2], [Path.unlink] and [Path.mkdir].  The embedding keeps
    that shape:

    - a file system is a finite map from absolute paths (lists of path
      components) to nodes, a node being a regular file with its bytes
      or a directory;
    - a script is a computation in a small state-and-exception monad
      over a [world]: the file system and the list of lines printed so
      far.  An uncaught Python exception ends the computation with
      [Raise]; [sys.exit n] is the exception [SystemExit n];
    - [print] calls append a structured message (one constructor per
      f-string of the source) instead of formatted text.

    Scope of the model.  File names are byte strings; [str.strip] and
    [str.lower] act on the ASCII range.  A string joined onto a path
    with [/] is taken as one component, and a code interpolated into a
    glob pattern is taken literally: theorems that depend on either say
    so with [code_ok] (no glob metacharacter, no separator, no dot).
    Symbolic links, permissions and timestamps are not modelled;
    [PurePath.suffix] is the one of Python 3.10 to 3.13. *)

From stdpp Require Import gmap strings list fin_maps fin_sets sorting.
From Stdlib Require Import Ascii.


(** ** Strings *)

Module Str.

Fixpoint lits (s : string) : list ascii :=
  match s with
  | EmptyString => []
  | String c s' => c :: lits s'
  end.

Fixpoint drop (n : nat) (s : string) : string :=
  match n, s with
  | S n', String _ s' => drop n' s'
  | _, _ => s
  end.

(** [name.rfind('.')] *)
Fixpoint rfind_dot (s : string) : option nat :=
  match s with
  | EmptyString => None
  | String c s' =>
      match rfind_dot s' with
      | Some i => Some (S i)
      | None => if Ascii.eqb c "."%char then Some 0 else None
      end
  end.

(** [str.startswith] *)
Fixpoint startswith (s p : string) : bool :=
  match p, s with
  | EmptyString, _ => true
  | String c p', String d s' => Ascii.eqb c d && startswith s' p'
  | String _ _, EmptyString => false
  end.

(** The characters [str.isspace] accepts in the ASCII range. *)
Definition is_space (c : ascii) : bool :=
  let n := nat_of_ascii c in
  (Nat.leb 9 n && Nat.leb n 13) || (Nat.leb 28 n && Nat.leb n 32).

Fixpoint lstrip (s : string) : string :=
  match s with
  | String c s' => if is_space c then lstrip s' else s
  | EmptyString => EmptyString
  end.

Fixpoint rstrip (s : string) : string :=
  match s with
  | EmptyString => EmptyString
  | String c s' =>
      match rstrip s' with
      | EmptyString => if is_space c then EmptyString else String c EmptyString
      | r => String c r
      end
  end.

(** [str.strip()] *)
Definition strip (s : string) : string := rstrip (lstrip s).

Definition lower_char (c : ascii) : ascii :=
  let n := nat_of_ascii c in
  if Nat.leb 65 n && Nat.leb n 90 then ascii_of_nat (n + 32) else c.

(** [str.lower()] *)
Fixpoint lower (s : string) : string :=
  match s with
  | EmptyString => EmptyString
  | String c s' => String (lower_char c) (lower s')
  end.

(** [s.split(",")]: never empty, one more piece than there are commas. *)
Fixpoint split_comma (s : string) : list string :=
  match s with
  | EmptyString => [EmptyString]
  | String c s' =>
      if Ascii.eqb c ","%char then EmptyString :: split_comma s'
      else match split_comma s' with
           | p :: ps => String c p :: ps
           | [] => [String c EmptyString]
           end
  end.

(** Python's truth value of a string. *)
Definition truthy (s : string) : bool :=
  match s with EmptyString => false | _ => true end.

End Str.

(** ** Paths *)

Abbreviation path := (list string).

(** [PurePath.suffix]:
    [i = name.rfind('.'); name[i:] if 0 < i < len(name) - 1 else ''] *)
Definition suffix (name : string) : string :=
  match Str.rfind_dot name with
  | Some i =>
      if Nat.ltb 0 i && Nat.ltb i (String.length name - 1)
      then Str.drop i name else ""
  | None => ""
  end.

(** [p.name]; the root has the empty name. *)
Definition name_of (p : path) : string := List.last p "".

(** [p.parent]; the root is its own parent. *)
Definition parent (p : path) : path := removelast p.

(** ** Glob patterns

    [Path.glob] compiles each pattern component with [fnmatch]; the
    patterns of the Selector are a literal followed by [*], a dot and
    [*].  [Star] is fnmatch's [*]: any run of characters, dots and
    leading dots included. *)

Inductive tok := Lit (c : ascii) | Star.

Fixpoint fnmatch (pat : list tok) (s : string) : bool :=
  match pat with
  | [] => match s with EmptyString => true | _ => false end
  | Lit c :: pat' =>
      match s with
      | String d s' => Ascii.eqb c d && fnmatch pat' s'
      | EmptyString => false
      end
  | Star :: pat' =>
      (fix skip (s : string) : bool :=
         fnmatch pat' s ||
         match s with
         | String _ s' => skip s'
         | EmptyString => false
         end) s
  end.

(** f"{code}*.*" *)
Definition pat_any (code : string) : list tok :=
  (Lit <$> Str.lits code) ++ [Star; Lit "."%char; Star].
(** f"{code}.*" *)
Definition pat_exact (code : string) : list tok :=
  (Lit <$> Str.lits code) ++ [Lit "."%char; Star].
(** f"{code} fe0f.*" *)
Definition pat_fe0f (code : string) : list tok :=
  (Lit <$> Str.lits (code +:+ " fe0f")) ++ [Lit "."%char; Star].

(** ** File systems *)

Inductive node := File (data : string) | Dir.

Global Instance node_eq_dec : EqDecision node.
Proof. solve_decision. Defined.

Abbreviation fs :=
  (@gmap (list string) (@list_eq_dec string String.eq_dec)
         (@list_countable string String.eq_dec String.countable) node).

Definition exists_ (f : fs) (p : path) : bool :=
  match f !! p with Some _ => true | None => false end.

Definition is_dir (f : fs) (p : path) : bool :=
  match f !! p with Some Dir => true | _ => false end.

Definition is_file (f : fs) (p : path) : bool :=
  match f !! p with Some (File _) => true | _ => false end.

(** [child_name d p = Some n] exactly when [p] is the entry [n] of [d]. *)
Fixpoint child_name (d p : path) : option string :=
  match d, p with
  | [], [n] => Some n
  | x :: d', y :: p' => if decide (x = y) then child_name d' p' else None
  | _, _ => None
  end.

(** [os.scandir(d)]: the entries of [d], in no particular order. *)
Definition scandir (f : fs) (d : path) : list string :=
  elements (set_omap (D:=gset string) (child_name d) (dom f)).

(** [d.iterdir()], as names; a path that is not a directory has none. *)
Definition iterdir (f : fs) (d : path) : list string :=
  if is_dir f d then scandir f d else [].

(** [d.glob(pat)] for a one-component pattern, as names. *)
Definition glob (f : fs) (d : path) (pat : list tok) : list string :=
  filter (λ n, fnmatch pat n = true) (iterdir f d).

(** [sorted(...)] on paths of one directory: by name, in code-point
    order. *)
Definition sorted (l : list string) : list string :=
  merge_sort String.le l.

(** [Path.mkdir(parents=True, exist_ok=True)]: every missing ancestor and
    the path itself are created; a regular file in the way is an
    error. *)
Fixpoint mkdir_from (pre : path) (rest : list string) (f : fs) : option fs :=
  match f !! pre with
  | Some (File _) => None
  | _ =>
      let f' := <[pre := Dir]> f in
      match rest with
      | [] => Some f'
      | n :: rest' => mkdir_from (pre ++ [n]) rest' f'
      end
  end.

Definition mkdir_parents (f : fs) (p : path) : option fs := mkdir_from [] p f.

(** [shutil.copy2(src, dst)]: a directory as [dst] receives the file
    under the source's name; the source must be a regular file, the
    final target must not be a directory nor the source itself, and its
    parent must be a directory. *)
Definition copy2_target (f : fs) (src dst : path) : path :=
  if is_dir f dst then dst ++ [name_of src] else dst.

Definition copy2_fs (f : fs) (src dst : path) : option fs :=
  let tgt := copy2_target f src dst in
  match f !! src with
  | Some (File data) =>
      if decide (src = tgt) then None
      else if is_dir f tgt then None
      else if is_dir f (parent tgt) then Some (<[tgt := File data]> f)
      else None
  | _ => None
  end.

(** [Path.unlink()]: only a regular file can be removed. *)
Definition unlink_fs (f : fs) (p : path) : option fs :=
  if is_file f p then Some (delete p f) else None.

(** ** Worlds and the script monad *)

(** One constructor per line the scripts print. *)
Inductive msg :=
  (* copy_schmoji.py *)
  | MissingStyleFolder (src_style_dir : path)
  | NotFound (src_style_dir : path) (code : string)
  | DryRunRemove (old : path)
  | DryRunCopy (preferred dst : path)
  | CouldNotRemove (old : path)
  | Copied (preferred dst : path)
  | SomeAssetsMissing
  | UnicodeRootNotFound (unicode_root : path)
  | UsingUnicodeRoot (unicode_root : path)
  | WritingTo (out_root : path)
  | Styles (styles : list string)
  | Codes (n : nat)
  (* both *)
  | PathNotFound (root : path)
  (* rename_files.py *)
  | DryRunCopyOverwrite (src target : path)
  | CopyDone (src target : path)
  | MissingUnicode (meta_path : path)
  | FailedToRead (meta_path : path)
  | WouldWriteUnder (out_root : path)
  | WroteUnder (out_root : path).

Global Instance msg_eq_dec : EqDecision msg.
Proof. solve_decision. Defined.

Record world := World { w_fs : fs; w_out : list msg }.

Inductive exn :=
  | SystemExit (status : Z)     (* sys.exit(status) *)
  | OSError.                    (* any exception of a file operation *)

Inductive result (A : Type) :=
  | Return (a : A) (w : world)
  | Raise (e : exn) (w : world).
Arguments Return {A} a w.
Arguments Raise {A} e w.

Definition M (A : Type) : Type := world → result A.

Definition ret {A} (a : A) : M A := λ w, Return a w.

Definition bind {A B} (m : M A) (k : A → M B) : M B :=
  λ w, match m w with
       | Return a w' => k a w'
       | Raise e w' => Raise e w'
       end.

Declare Scope script_scope.
Delimit Scope script_scope with script.
Notation "x <- m ;; k" := (bind m (λ x, k))
  (at level 100, m at next level, k at level 200, right associativity)
  : script_scope.
Notation "m ;; k" := (bind m (λ _, k))
  (at level 100, k at level 200, right associativity) : script_scope.
Local Open Scope script_scope.

(** A [for] loop that threads the local variables [acc] through its
    body. *)
Fixpoint for_each {A S} (l : list A) (body : S → A → M S) (acc : S) : M S :=
  match l with
  | [] => ret acc
  | x :: l' => acc' <- body acc x ;; for_each l' body acc'
  end.

Definition print (m : msg) : M unit :=
  λ w, Return () (World (w_fs w) (w_out w ++ [m])).

Definition get_fs : M fs := λ w, Return (w_fs w) w.

Definition raise {A} (e : exn) : M A := λ w, Raise e w.

(** A file operation: it updates the file system or raises. *)
Definition fs_op (op : fs → option fs) : M unit :=
  λ w, match op (w_fs w) with
       | Some f' => Return () (World f' (w_out w))
       | None => Raise OSError w
       end.

Definition mkdir (p : path) : M unit := fs_op (λ f, mkdir_parents f p).
Definition copy2 (src dst : path) : M unit := fs_op (λ f, copy2_fs f src dst).
Definition unlink (p : path) : M unit := fs_op (λ f, unlink_fs f p).

(** [try: m except Exception: h].  [SystemExit] is not an [Exception]. *)
Definition try_except {A} (m : M A) (h : M A) : M A :=
  λ w, match m w with
       | Raise OSError w' => h w'
       | r => r
       end.

(** The exit status of the interpreter. *)
Definition exit_status {A} (r : result A) : Z :=
  match r with
  | Return _ _ => 0
  | Raise (SystemExit n) _ => n
  | Raise OSError _ => 1
  end.

Definition final_world {A} (r : result A) : world :=
  match r with Return _ w => w | Raise _ w => w end.

(** ** scripts/copy_schmoji.py: the Selector *)

Module copy_schmoji.

Definition _SWIFT_CODES : list string :=
  [ "1F40B"; "1F456"; "1F48E"; "1F699"; "1F6F8"; "1F976"; "1F9CA"; "1F41F"; "1FA72"; "26F8";
    "1F954";
    "1F340"; "1F36C"; "1F40D"; "1F422"; "1F438"; "1F966"; "1F96C"; "1F996"; "1F432"; "1F951";
    "1F34A"; "1F357"; "1F415"; "1F431"; "1F436"; "1F439"; "1F955"; "1F981"; "1F9F6"; "1F621";
    "1F338"; "1F351"; "1F437"; "1F498"; "1F9A9"; "1F9C1"; "1F9E0"; "1F9FC"; "1FA79"; "1FA81";
    "1F346"; "1F347"; "1F45A"; "1F45B"; "1F47E"; "1F52E"; "1F9AA"; "1FA71"; "1F97C"; "1F43C";
    "1F336"; "1F34E"; "1F353"; "1F3B8"; "1F444"; "1F479"; "1F680"; "1F681"; "1F969"; "1F980";
    "1F34C"; "1F355"; "1F44C"; "1F4A1"; "1F4AA"; "1F603"; "1F60E"; "1F618"; "1F602"; "1F92F" ].

Definition DEFAULT_STYLES : list string := ["Color"; "3D"].

Definition parse_styles (arg : option string) : list string :=
  match arg with
  | None => DEFAULT_STYLES
  | Some a =>
      if negb (Str.truthy a) then DEFAULT_STYLES
      else
        let parts :=
          Str.strip <$> filter (λ p, Str.truthy (Str.strip p) = true)
                               (Str.split_comma a) in
        match parts with
        | [] => DEFAULT_STYLES
        | _ => parts
        end
  end.

Fixpoint normalize_loop (codes : list string) (seen out : list string)
  : list string :=
  match codes with
  | [] => out
  | c :: rest =>
      let cc := Str.lower (Str.strip c) in
      if negb (Str.truthy cc) then normalize_loop rest seen out
      else if bool_decide (cc ∈ seen) then normalize_loop rest seen out
      else normalize_loop rest (cc :: seen) (out ++ [cc])
  end.

Definition normalize_codes (codes : list string) : list string :=
  normalize_loop codes [] [].

(** Lines 75-82: exact match, then the FE0F variant, then the first
    candidate. *)
Fixpoint first_found (f : fs) (src_style_dir : path)
    (pats : list (list tok)) : option string :=
  match pats with
  | [] => None
  | pat :: rest =>
      match sorted (glob f src_style_dir pat) with
      | found0 :: _ => Some found0
      | [] => first_found f src_style_dir rest
      end
  end.

Definition pick_preferred (f : fs) (src_style_dir : path) (code : string)
    (candidates0 : string) : string :=
  match first_found f src_style_dir [pat_exact code; pat_fe0f code] with
  | Some p => p
  | None => candidates0
  end.

(** The file the Selector would copy for [code], if any. *)
Definition chosen (f : fs) (src_style_dir : path) (code : string)
  : option string :=
  match sorted (glob f src_style_dir (pat_any code)) with
  | [] => None
  | c0 :: _ => Some (pick_preferred f src_style_dir code c0)
  end.

(** Lines 94-98. *)
Definition remove_old (dst_style_dir : path) (olds : list string) : M unit :=
  for_each olds
    (λ _ old, try_except (unlink (dst_style_dir ++ [old]))
                         (print (CouldNotRemove (dst_style_dir ++ [old]))))
    ().

(** Lines 89-90. *)
Definition show_old (dst_style_dir : path) (olds : list string) : M unit :=
  for_each olds (λ _ old, print (DryRunRemove (dst_style_dir ++ [old]))) ().

(** The body of the loop over codes, lines 67-100. *)
Definition code_body (src_style_dir dst_style_dir : path) (dry_run : bool)
    (any_missing : bool) (code : string) : M bool :=
  f <- get_fs ;;
  match sorted (glob f src_style_dir (pat_any code)) with
  | [] => print (NotFound src_style_dir code) ;; ret true
  | c0 :: _ =>
      let preferred := src_style_dir ++ [pick_preferred f src_style_dir code c0] in
      let dst := dst_style_dir ++ [code +:+ suffix (name_of preferred)] in
      if dry_run then
        show_old dst_style_dir (sorted (glob f dst_style_dir (pat_any code))) ;;
        print (DryRunCopy preferred dst) ;;
        ret any_missing
      else
        remove_old dst_style_dir (sorted (glob f dst_style_dir (pat_any code))) ;;
        copy2 preferred dst ;;
        print (Copied preferred dst) ;;
        ret any_missing
  end.

(** The body of the loop over styles, lines 58-100. *)
Definition style_body (unicode_root out_root : path) (codes : list string)
    (dry_run : bool) (any_missing : bool) (style : string) : M bool :=
  let src_style_dir := unicode_root ++ [style] in
  f <- get_fs ;;
  if negb (exists_ f src_style_dir) then
    print (MissingStyleFolder src_style_dir) ;; ret true
  else
    let dst_style_dir := out_root ++ [style] in
    (if negb dry_run then mkdir dst_style_dir else ret ()) ;;
    for_each codes (code_body src_style_dir dst_style_dir dry_run) any_missing.

Definition copy_matches (unicode_root out_root : path)
    (styles codes : list string) (dry_run : bool) : M unit :=
  any_missing <- for_each styles
                  (style_body unicode_root out_root codes dry_run) false ;;
  if any_missing : bool then print SomeAssetsMissing else ret ().

(** The parsed command line; paths are already resolved, and an option
    that is absent or empty is [None]. *)
Record args := Args {
  a_root : path;
  a_unicode_root : option path;
  a_out : option path;
  a_styles : option string;
  a_codes : option string;
  a_dry_run : bool
}.

(** Lines 154-157: climb until a directory with an [assets] entry, or
    the root.  The path is held reversed. *)
Fixpoint climb (f : fs) (rr_rev : list string) : path :=
  match rr_rev with
  | [] => []
  | _ :: up =>
      if exists_ f (rev rr_rev ++ ["assets"]) then rev rr_rev
      else climb f up
  end.

Definition repo_root_of (f : fs) (root : path) : path :=
  if exists_ f (root ++ ["assets"]) then root
  else if bool_decide (name_of root = "assets") && exists_ f (parent root)
       then parent root
       else climb f (rev root).

(** Line 159. *)
Definition unicode_root_of (f : fs) (a : args) : path :=
  match a_unicode_root a with
  | Some u => u
  | None => repo_root_of f (a_root a) ++ ["unicode"]
  end.

(** Line 160. *)
Definition out_root_of (f : fs) (a : args) : path :=
  match a_out a with
  | Some o => o
  | None => repo_root_of f (a_root a) ++ ["schmoji"]
  end.

(** Lines 164-167. *)
Definition codes_of (a : args) : list string :=
  match a_codes a with
  | Some c => if Str.truthy c then normalize_codes (Str.split_comma c)
              else normalize_codes _SWIFT_CODES
  | None => normalize_codes _SWIFT_CODES
  end.

Definition main (a : args) : M unit :=
  let root := a_root a in
  f <- get_fs ;;
  if negb (exists_ f root) then
    print (PathNotFound root) ;; raise (SystemExit 1)
  else
    let unicode_root := unicode_root_of f a in
    let out_root := out_root_of f a in
    let styles := parse_styles (a_styles a) in
    let codes := codes_of a in
    if negb (exists_ f unicode_root) then
      print (UnicodeRootNotFound unicode_root) ;; raise (SystemExit 1)
    else
      print (UsingUnicodeRoot unicode_root) ;;
      print (WritingTo out_root) ;;
      print (Styles styles) ;;
      print (Codes (length codes)) ;;
      copy_matches unicode_root out_root styles codes (a_dry_run a).

End copy_schmoji.

(** ** scripts/rename_files.py: the Flattener *)

(** What [json.load] hands back, as far as the script looks at it: a
    dict, whose values are strings or something else (kept with the
    text [str()] makes of it), or a value that is not a dict. *)
Inductive pyvalue := PyStr (s : string) | PyOther (as_str : string).
Inductive loaded := LoadDict (items : list (string * pyvalue)) | LoadOther.

Module rename_files.
Section with_json.

(** [json.load] on the bytes of a file; [None] when it raises. *)
Variable json_load : string → option loaded.

Definition STYLE_DIRS : list string := ["Color"; "Flat"; "High Contrast"; "3D"].
Definition IGNORE_FILES : list string := [".DS_Store"].

(** [str(v)] *)
Definition py_str (v : pyvalue) : string :=
  match v with PyStr s => s | PyOther s => s end.

(** [meta.get(key, default)] *)
Fixpoint dict_get (items : list (string * pyvalue)) (key : string)
    (default : pyvalue) : pyvalue :=
  match items with
  | [] => default
  | (k, v) :: rest => if decide (k = key) then v else dict_get rest key default
  end.

(** The filter of lines 22-23. *)
Definition wanted (f : fs) (style_dir : path) (name : string) : bool :=
  is_file f (style_dir ++ [name])
  && negb (bool_decide (name ∈ IGNORE_FILES))
  && negb (Str.startswith name ".").

(** The body of the loop of lines 32-39. *)
Definition copy_one (style_dir out_dir : path) (unicode_code : string)
    (dry_run : bool) (_ : unit) (name : string) : M unit :=
  let src := style_dir ++ [name] in
  let ext := suffix name in
  let target := out_dir ++ [unicode_code +:+ ext] in
  if dry_run then print (DryRunCopyOverwrite src target)
  else copy2 src target ;; print (CopyDone src target).

Definition copy_in_style_dir (style_dir : path) (unicode_code : string)
    (out_root : path) (dry_run : bool) : M unit :=
  f <- get_fs ;;
  if negb (is_dir f style_dir) then ret ()
  else
    let files := filter (λ n, wanted f style_dir n = true)
                        (sorted (iterdir f style_dir)) in
    match files with
    | [] => ret ()
    | _ =>
        let out_dir := out_root ++ [name_of style_dir] in
        (if negb dry_run then mkdir out_dir else ret ()) ;;
        for_each files (copy_one style_dir out_dir unicode_code dry_run) ()
    end.

(** Lines 48-57; [inl] is the code, [inr] the warning to print. *)
Definition read_code (f : fs) (meta_path : path) : string + msg :=
  match f !! meta_path with
  | Some (File data) =>
      match json_load data with
      | Some (LoadDict items) =>
          let unicode_code :=
            Str.lower (Str.strip (py_str (dict_get items "unicode" (PyStr "")))) in
          if negb (Str.truthy unicode_code) then inr (MissingUnicode meta_path)
          else inl unicode_code
      | _ => inr (FailedToRead meta_path)
      end
  | _ => inr (FailedToRead meta_path)
  end.

(** The body of the loop of lines 61-63. *)
Definition style_step (emoji_dir : path) (unicode_code : string)
    (out_root : path) (dry_run : bool) (_ : unit) (style : string) : M unit :=
  let default_variant := emoji_dir ++ ["Default"] in
  f <- get_fs ;;
  let src_dir := if is_dir f default_variant
                 then default_variant ++ [style]
                 else emoji_dir ++ [style] in
  copy_in_style_dir src_dir unicode_code out_root dry_run.

Definition process_emoji_dir (emoji_dir out_root : path) (dry_run : bool)
    : M unit :=
  let meta_path := emoji_dir ++ ["metadata.json"] in
  f <- get_fs ;;
  if negb (exists_ f meta_path) then ret ()
  else
    match read_code f meta_path with
    | inr warning => print warning
    | inl unicode_code =>
        for_each STYLE_DIRS
          (style_step emoji_dir unicode_code out_root dry_run) ()
    end.

(** The path [p] is held reversed. *)
Fixpoint find_up (f : fs) (start : path) (p_rev : list string) : path :=
  if is_dir f (rev p_rev ++ ["assets"]) then rev p_rev
  else match p_rev with
       | [] => start
       | _ :: up => find_up f start up
       end.

Definition find_repo_root (f : fs) (start : path) : path :=
  find_up f start (rev start).

Definition resolve_out_root (f : fs) (root : path) (out : option path) : path :=
  match out with
  | Some o => o
  | None =>
      let repo_root :=
        if exists_ f (root ++ ["metadata.json"])
        then find_repo_root f (parent root)
        else find_repo_root f root in
      repo_root ++ ["unicode"]
  end.

Record args := Args {
  a_root : path;
  a_out : option path;
  a_dry_run : bool
}.

(** The body of the loop of lines 148-150. *)
Definition process_child (assets_root out_root : path) (dry_run : bool)
    (_ : unit) (child : string) : M unit :=
  f <- get_fs ;;
  if is_dir f (assets_root ++ [child])
  then process_emoji_dir (assets_root ++ [child]) out_root dry_run
  else ret ().

(** [assets_root.iterdir()] raises when [assets_root] is not a
    directory. *)
Definition main (a : args) : M unit :=
  let root := a_root a in
  f <- get_fs ;;
  if negb (exists_ f root) then print (PathNotFound root)
  else
    let assets_root := if is_dir f (root ++ ["assets"])
                       then root ++ ["assets"] else root in
    let out_root := resolve_out_root f root (a_out a) in
    (if negb (a_dry_run a) then
       mkdir out_root ;;
       for_each STYLE_DIRS (λ _ _style, mkdir (out_root ++ [_style])) ()
     else ret ()) ;;
    f1 <- get_fs ;;
    (if exists_ f1 (assets_root ++ ["metadata.json"]) then
       process_emoji_dir assets_root out_root (a_dry_run a)
     else if is_dir f1 assets_root then
       for_each (sorted (iterdir f1 assets_root))
         (process_child assets_root out_root (a_dry_run a)) ()
     else raise OSError) ;;
    if a_dry_run a then print (WouldWriteUnder out_root)
    else print (WroteUnder out_root).

End with_json.
End rename_files.

(** ** Specification vocabulary *)

(** A code that can stand in a file name and in a glob pattern as it is:
    not empty, and free of glob metacharacters, separators and dots. *)
Definition code_char_ok (c : ascii) : bool :=
  negb (Ascii.eqb c "*"%char || Ascii.eqb c "?"%char || Ascii.eqb c "["%char
        || Ascii.eqb c "/"%char || Ascii.eqb c "."%char).

Definition code_ok (code : string) : Prop :=
  code ≠ "" ∧ Forall (λ c, code_char_ok c = true) (Str.lits code).

(** [is_prefix p s]: the string [s] starts with [p]. *)
Definition is_prefix (p s : string) : Prop := ∃ r, s = p +:+ r.

(** Two file systems that hold the same thing at and below [d]. *)
Definition agree_under (d : path) (f g : fs) : Prop :=
  ∀ p, d `prefix_of` p → f !! p = g !! p.

(** An effect on a file system: for each path, the node it is set to
    ([Some None] removes it), or [None] when the path is left alone. *)
Definition effect := path → option (option node).

Definition applies (eff : effect) (f f' : fs) : Prop :=
  ∀ p, f' !! p = match eff p with Some v => v | None => f !! p end.

(** [f'] and [g'] come from [f] and [g] by steps that, at each path,
    either wrote the same thing in both or touched neither. *)
Definition coupled (f g f' g' : fs) : Prop :=
  ∀ p, f' !! p = g' !! p ∨ (f' !! p = f !! p ∧ g' !! p = g !! p).

Definition eff_id : effect := λ _, None.

Definition eff_seq (e1 e2 : effect) : effect :=
  λ p, match e2 p with Some v => Some v | None => e1 p end.

(** The effects of a list of steps, in order. *)
Fixpoint eff_list (effs : list effect) : effect :=
  match effs with
  | [] => eff_id
  | e :: es => eff_seq e (eff_list es)
  end.

(** [mkdir(parents=True)] on [d] makes a directory of every prefix of
    [d]. *)
Definition mkdir_effect (d : path) : effect :=
  λ p, if bool_decide (p `prefix_of` d) then Some (Some Dir) else None.

(** *** The Selector, as a function of the source tree

    [f0] is the file system the run starts from; the source tree is read
    from it.  [U] is [unicode_root] and [O] is [out_root]. *)

(** One code in one style: every destination entry matching
    [<code>*.*] goes, and [<code><suffix>] holds the chosen file. *)
Definition sel_code_effect (f0 : fs) (U O : path) (s code : string) : effect :=
  λ p, match copy_schmoji.chosen f0 (U ++ [s]) code with
       | None => None
       | Some pref =>
           if decide (p = O ++ [s; code +:+ suffix pref])
           then Some (f0 !! (U ++ [s; pref]))
           else match child_name (O ++ [s]) p with
                | Some n => if fnmatch (pat_any code) n then Some None else None
                | None => None
                end
       end.

Definition sel_codes_effect (f0 : fs) (U O : path) (s : string)
    (codes : list string) : effect :=
  eff_list (sel_code_effect f0 U O s <$> codes).

Definition sel_style_effect (f0 : fs) (U O : path) (codes : list string)
    (s : string) : effect :=
  if exists_ f0 (U ++ [s])
  then eff_seq (mkdir_effect (O ++ [s])) (sel_codes_effect f0 U O s codes)
  else eff_id.

Definition sel_run_effect (f0 : fs) (U O : path) (styles codes : list string)
    : effect :=
  eff_list (sel_style_effect f0 U O codes <$> styles).

(** The line a real run prints for one code in one style. *)
Definition sel_code_msg (f0 : fs) (U O : path) (s code : string) : msg :=
  match copy_schmoji.chosen f0 (U ++ [s]) code with
  | None => NotFound (U ++ [s]) code
  | Some pref => Copied (U ++ [s; pref]) (O ++ [s; code +:+ suffix pref])
  end.

Definition sel_code_missing (f0 : fs) (U : path) (s code : string) : bool :=
  match copy_schmoji.chosen f0 (U ++ [s]) code with
  | None => true
  | Some _ => false
  end.

Definition sel_style_log (f0 : fs) (U O : path) (codes : list string)
    (s : string) : list msg :=
  if exists_ f0 (U ++ [s]) then sel_code_msg f0 U O s <$> codes
  else [MissingStyleFolder (U ++ [s])].

Definition sel_style_missing (f0 : fs) (U : path) (codes : list string)
    (s : string) : bool :=
  negb (exists_ f0 (U ++ [s])) || existsb (sel_code_missing f0 U s) codes.

Definition sel_run_log (f0 : fs) (U O : path) (styles codes : list string)
    : list msg :=
  concat (sel_style_log f0 U O codes <$> styles)
  ++ (if existsb (sel_style_missing f0 U codes) styles
      then [SomeAssetsMissing] else []).

(** The states a run goes through: the source tree is the one of [f0],
    nothing on the way to a destination style directory is a regular
    file, and the destination style directories hold no directory. *)
Record tree_inv (U O : path) (styles : list string) (f0 f : fs) : Prop := {
  inv_src : agree_under U f f0;
  inv_anc : ∀ q, q `prefix_of` O → is_file f q = false;
  inv_style : ∀ s, s ∈ styles → is_file f (O ++ [s]) = false;
  inv_flat : ∀ s n, s ∈ styles → is_dir f (O ++ [s; n]) = false
}.

(** Neither tree lies inside the other. *)
Record apart (U O : path) : Prop := {
  apart_UO : ¬ U `prefix_of` O;
  apart_OU : ¬ O `prefix_of` U
}.

(** The source and the destination are apart, and the source style
    directories hold no directory. *)
Record sel_pre (U O : path) (styles : list string) (f0 : fs) : Prop := {
  pre_apart : apart U O;
  pre_flat : ∀ s n, s ∈ styles → is_dir f0 (U ++ [s; n]) = false
}.

(** The file system a real run may start from. *)
Definition sel_ready (U O : path) (styles : list string) (f : fs) : Prop :=
  sel_pre U O styles f ∧ tree_inv U O styles f f.

(** [sel_ready], decided on the entries of the file system. *)
Definition sel_ready_entry (U O : path) (styles : list string)
    (e : path * node) : bool :=
  match e.2 with
  | Dir =>
      forallb (λ s, match child_name (U ++ [s]) e.1, child_name (O ++ [s]) e.1 with
                    | None, None => true
                    | _, _ => false
                    end) styles
  | File _ =>
      negb (bool_decide (e.1 `prefix_of` O))
      && forallb (λ s, negb (bool_decide (e.1 = O ++ [s]))) styles
  end.

Definition sel_ready_b (U O : path) (styles : list string) (f : fs) : bool :=
  negb (bool_decide (U `prefix_of` O))
  && negb (bool_decide (O `prefix_of` U))
  && forallb (sel_ready_entry U O styles) (map_to_list f).

(** Strings without a dot, and strings that are empty or start with
    one: the shapes of a code and of a [suffix]. *)
Definition dotfree (s : string) : Prop :=
  Forall (λ c, c ≠ "."%char) (Str.lits s).

Definition dotinit (s : string) : Prop :=
  s = "" ∨ ∃ r, s = String "."%char r.

(** What a dry run prints for one code in one style, for the whole
    style and for the run. *)
Definition sel_code_dry_log (f : fs) (U O : path) (s code : string) : list msg :=
  match copy_schmoji.chosen f (U ++ [s]) code with
  | None => [NotFound (U ++ [s]) code]
  | Some pref =>
      ((λ old, DryRunRemove (O ++ [s; old]))
         <$> sorted (glob f (O ++ [s]) (pat_any code)))
      ++ [DryRunCopy (U ++ [s; pref]) (O ++ [s; code +:+ suffix pref])]
  end.

Definition sel_style_dry_log (f : fs) (U O : path) (codes : list string)
    (s : string) : list msg :=
  if exists_ f (U ++ [s]) then concat (sel_code_dry_log f U O s <$> codes)
  else [MissingStyleFolder (U ++ [s])].

Definition sel_run_dry_log (f : fs) (U O : path) (styles codes : list string)
    : list msg :=
  concat (sel_style_dry_log f U O codes <$> styles)
  ++ (if existsb (sel_style_missing f U codes) styles
      then [SomeAssetsMissing] else []).

(** *** A small tree for worked examples *)

Definition ex_unicode : path := ["repo"; "unicode"].
Definition ex_out : path := ["repo"; "schmoji"].

Definition ex_fs : fs :=
  list_to_map
    [ ([], Dir); (["repo"], Dir); (["repo"; "assets"], Dir);
      (["repo"; "unicode"], Dir);
      (["repo"; "unicode"; "Color"], Dir);
      (["repo"; "unicode"; "Color"; "26f8.svg"], File "svg of 26f8");
      (["repo"; "unicode"; "Color"; "26f8 fe0f.png"], File "png of 26f8 fe0f");
      (["repo"; "unicode"; "Color"; "1f40b.png"], File "png of 1f40b");
      (["repo"; "unicode"; "Color"; "1f954.svg"], File "svg of 1f954");
      (["repo"; "schmoji"], Dir); (["repo"; "schmoji"; "Color"], Dir);
      (["repo"; "schmoji"; "Color"; "1f954.png"], File "stale png of 1f954");
      (["repo"; "schmoji"; "Color"; "1f40b.png"], File "png of 1f40b") ].

(** The same tree with a file of the code [1f40], a prefix of [1f40b],
    and the tree after a first run for both codes and a change of the
    source file of [1f40b] from [.png] to [.svg]. *)
Definition ex_fs_prefix : fs :=
  <[ ["repo"; "unicode"; "Color"; "1f40.svg"] := File "svg of 1f40" ]> ex_fs.

Definition ex_fs_changed : fs :=
  <[ ["repo"; "unicode"; "Color"; "1f40b.svg"] := File "svg of 1f40b" ]>
    (delete ["repo"; "unicode"; "Color"; "1f40b.png"]
       (w_fs (final_world
                (copy_schmoji.copy_matches ex_unicode ex_out ["Color"]
                   ["1f40b"; "1f40"] false (World ex_fs_prefix []))))).

(** The same history with the two codes requested in the other order,
    [1f40] first: the first run leaves [1f40b.png] in the destination. *)
Definition ex_fs_reordered : fs :=
  <[ ["repo"; "unicode"; "Color"; "1f40b.svg"] := File "svg of 1f40b" ]>
    (delete ["repo"; "unicode"; "Color"; "1f40b.png"]
       (w_fs (final_world
                (copy_schmoji.copy_matches ex_unicode ex_out ["Color"]
                   ["1f40"; "1f40b"] false (World ex_fs_prefix []))))).

(** *** The Flattener, as a function of the source tree

    [f0] is the file system the run starts from, [E] an emoji directory
    and [O] the output root. *)

(** The files of a style directory that are copied, in copy order. *)
Definition flat_files (f0 : fs) (style_dir : path) : list string :=
  filter (λ n, rename_files.wanted f0 style_dir n = true)
         (sorted (iterdir f0 style_dir)).

Definition flat_copy_effect (f0 : fs) (style_dir O : path) (code n : string)
    : effect :=
  λ p, if decide (p = O ++ [name_of style_dir; code +:+ suffix n])
       then Some (f0 !! (style_dir ++ [n])) else None.

Definition flat_style_effect (f0 : fs) (style_dir O : path) (code : string)
    : effect :=
  if is_dir f0 style_dir then
    match flat_files f0 style_dir with
    | [] => eff_id
    | files =>
        eff_seq (mkdir_effect (O ++ [name_of style_dir]))
                (eff_list (flat_copy_effect f0 style_dir O code <$> files))
    end
  else eff_id.

Definition flat_copy_msg (dry_run : bool) (style_dir O : path) (code n : string)
    : msg :=
  (if dry_run then DryRunCopyOverwrite else CopyDone)
    (style_dir ++ [n]) (O ++ [name_of style_dir; code +:+ suffix n]).

Definition flat_style_log (dry_run : bool) (f0 : fs) (style_dir O : path)
    (code : string) : list msg :=
  if is_dir f0 style_dir
  then flat_copy_msg dry_run style_dir O code <$> flat_files f0 style_dir
  else [].

(** Skin-tone resolution: the directory whose style subdirectories are
    read. *)
Definition flat_base (f0 : fs) (E : path) : path :=
  if is_dir f0 (E ++ ["Default"]) then E ++ ["Default"] else E.

Definition flat_emoji_effect (f0 : fs) (E O : path) (code : string) : effect :=
  eff_list ((λ style, flat_style_effect f0 (flat_base f0 E ++ [style]) O code)
              <$> rename_files.STYLE_DIRS).

Definition flat_emoji_log (dry_run : bool) (f0 : fs) (E O : path)
    (code : string) : list msg :=
  concat ((λ style, flat_style_log dry_run f0 (flat_base f0 E ++ [style]) O code)
            <$> rename_files.STYLE_DIRS).

(** The file system a real run of the Flattener on [E] may start from:
    [E] and [O] are apart, nothing on the way to a destination style
    directory is a regular file, and these directories hold no
    directory. *)
Definition flat_ready (E O : path) (f : fs) : Prop :=
  apart E O ∧ tree_inv E O rename_files.STYLE_DIRS f f.

Definition flat_ready_b (E O : path) (f : fs) : bool :=
  negb (bool_decide (E `prefix_of` O))
  && negb (bool_decide (O `prefix_of` E))
  && forallb (λ e : path * node,
                match e.2 with
                | Dir => forallb (λ s, match child_name (O ++ [s]) e.1 with
                                       | None => true
                                       | Some _ => false
                                       end) rename_files.STYLE_DIRS
                | File _ =>
                    negb (bool_decide (e.1 `prefix_of` O))
                    && forallb (λ s, negb (bool_decide (e.1 = O ++ [s])))
                               rename_files.STYLE_DIRS
                end) (map_to_list f).

(** A stand-in for [json.load] in the worked examples: the bytes
    [U:<text>] load as the dict with [unicode] set to the text, [{}] as
    the empty dict, [[]] as a list; anything else does not parse. *)
Definition ex_json_load (data : string) : option loaded :=
  match data with
  | String "U" (String ":" text) => Some (LoadDict [("unicode", PyStr text)])
  | "{}" => Some (LoadDict [])
  | "[]" => Some LoadOther
  | _ => None
  end.

(** Potato has a [Default] skin-tone variant next to a [Dark] one and a
    hidden file; Broken has metadata that does not parse; Notes has
    none. *)
Definition ex_assets : fs :=
  list_to_map
    [ ([], Dir); (["repo"], Dir); (["repo"; "assets"], Dir);
      (["repo"; "assets"; "Potato"], Dir);
      (["repo"; "assets"; "Potato"; "metadata.json"], File "U: 1F954 ");
      (["repo"; "assets"; "Potato"; "Default"], Dir);
      (["repo"; "assets"; "Potato"; "Default"; "Color"], Dir);
      (["repo"; "assets"; "Potato"; "Default"; "Color"; "potato_color.svg"],
         File "default svg");
      (["repo"; "assets"; "Potato"; "Default"; "Color"; "potato_color.png"],
         File "default png");
      (["repo"; "assets"; "Potato"; "Default"; "Color"; "potato_old.png"],
         File "older default png");
      (["repo"; "assets"; "Potato"; "Default"; "Color"; ".DS_Store"],
         File "finder");
      (["repo"; "assets"; "Potato"; "Dark"], Dir);
      (["repo"; "assets"; "Potato"; "Dark"; "Color"], Dir);
      (["repo"; "assets"; "Potato"; "Dark"; "Color"; "potato_dark.svg"],
         File "dark svg");
      (["repo"; "assets"; "Broken"], Dir);
      (["repo"; "assets"; "Broken"; "metadata.json"], File "not json");
      (["repo"; "assets"; "Notes"], Dir);
      (["repo"; "assets"; "Notes"; "readme.txt"], File "notes") ].

Definition ex_potato : path := ["repo"; "assets"; "Potato"].

(** A computation that leaves the file system as it found it, whether
    it returns or raises. *)
Definition keeps_fs {A} (m : M A) : Prop :=
  ∀ w, w_fs (final_world (m w)) = w_fs w.

(** *** Vocabulary for the properties beyond the claims *)

(** A string that starts, or ends, with a character that is not white
    space; the empty string counts. *)
Definition head_ok (s : string) : Prop :=
  match s with
  | String c _ => Str.is_space c = false
  | EmptyString => True
  end.

Definition is_upper (c : ascii) : bool :=
  let n := nat_of_ascii c in Nat.leb 65 n && Nat.leb n 90.

(** What a real run prints where a dry run prints [m]: a planned copy
    becomes a copy; a planned removal has no line of its own. *)
Definition realize (m : msg) : option msg :=
  match m with
  | DryRunRemove _ => None
  | DryRunCopy preferred dst => Some (Copied preferred dst)
  | DryRunCopyOverwrite src target => Some (CopyDone src target)
  | _ => Some m
  end.

(** [f'] has every entry of [f], of the same kind. *)
Definition grows (f f' : fs) : Prop :=
  ∀ p, (is_dir f p = true → is_dir f' p = true) ∧
       (is_file f p = true → is_file f' p = true).

(** A computation that never removes an entry nor changes its kind,
    whether it returns or raises. *)
Definition only_grows {A} (m : M A) : Prop :=
  ∀ w, grows (w_fs w) (w_fs (final_world (m w))).

(** * Proofs *)

(** ** Strings and patterns *)

Lemma app_empty_r (s : string) : s +:+ "" = s.
Proof. induction s as [|c s IH]; simpl; [done|]. unfold String.app in *. simpl. by rewrite IH. Qed.

Lemma app_assoc_str (a b c : string) : (a +:+ b) +:+ c = a +:+ (b +:+ c).
Proof. induction a as [|x a IH]; [done|]. unfold String.app in *. simpl. by rewrite IH. Qed.

Lemma app_cons (c : ascii) (a b : string) : String c a +:+ b = String c (a +:+ b).
Proof. done. Qed.

Lemma app_nil_l (b : string) : "" +:+ b = b.
Proof. done. Qed.

Lemma fnmatch_star_unfold pat s :
  fnmatch (Star :: pat) s =
  fnmatch pat s || match s with
                   | String _ s' => fnmatch (Star :: pat) s'
                   | EmptyString => false
                   end.
Proof. by destruct s. Qed.

Lemma fnmatch_star pat s :
  fnmatch (Star :: pat) s = true ↔ ∃ a r, s = a +:+ r ∧ fnmatch pat r = true.
Proof.
  split.
  - induction s as [|c s IH]; rewrite fnmatch_star_unfold; intros H.
    + exists "", "". split; [done|]. by rewrite orb_false_r in H.
    + apply orb_true_iff in H as [H|H].
      * by exists "", (String c s).
      * destruct (IH H) as (a & r & -> & Hr). by exists (String c a), r.
  - intros (a & r & -> & Hr). induction a as [|c a IH].
    + rewrite app_nil_l, fnmatch_star_unfold, Hr. done.
    + rewrite app_cons, fnmatch_star_unfold, IH. apply orb_true_r.
Qed.

Lemma fnmatch_only_star s : fnmatch [Star] s = true.
Proof. apply fnmatch_star. exists s, "". by rewrite app_empty_r. Qed.

Lemma fnmatch_lits code pat s :
  fnmatch ((Lit <$> Str.lits code) ++ pat) s = true ↔
  ∃ r, s = code +:+ r ∧ fnmatch pat r = true.
Proof.
  revert s. induction code as [|c code IH]; intros s; simpl.
  - split; [by exists s|]. by intros (r & -> & ?).
  - destruct s as [|d s].
    + split; [done|]. by intros (r & ? & ?).
    + rewrite andb_true_iff, IH. split.
      * intros [Hc (r & -> & Hr)]. apply Ascii.eqb_eq in Hc as ->. by exists r.
      * intros (r & Hs & Hr). rewrite app_cons in Hs. simplify_eq.
        split; [apply Ascii.eqb_refl|]. by exists r.
Qed.

Lemma fnmatch_lit_unfold c pat s :
  fnmatch (Lit c :: pat) s =
  match s with
  | String d s' => Ascii.eqb c d && fnmatch pat s'
  | EmptyString => false
  end.
Proof. done. Qed.

Lemma fnmatch_dot_star s :
  fnmatch [Lit "."%char; Star] s = true ↔ ∃ b, s = "." +:+ b.
Proof.
  rewrite fnmatch_lit_unfold. destruct s as [|d s].
  - split; [done|]. by intros [b ?].
  - rewrite fnmatch_only_star, andb_true_r. split.
    + intros ->%Ascii.eqb_eq. by exists s.
    + intros [b Hb]. rewrite app_cons in Hb. simplify_eq. apply Ascii.eqb_refl.
Qed.

Lemma fnmatch_pat_exact code s :
  fnmatch (pat_exact code) s = true ↔ ∃ b, s = code +:+ "." +:+ b.
Proof.
  unfold pat_exact. rewrite fnmatch_lits. split.
  - intros (r & -> & [b ->]%fnmatch_dot_star). by exists b.
  - intros [b ->]. exists ("." +:+ b). split; [done|]. apply fnmatch_dot_star. by exists b.
Qed.

Lemma fnmatch_pat_fe0f code s :
  fnmatch (pat_fe0f code) s = true ↔ ∃ b, s = code +:+ " fe0f." +:+ b.
Proof.
  unfold pat_fe0f. rewrite fnmatch_lits. split.
  - intros (r & -> & [b ->]%fnmatch_dot_star). exists b. by rewrite app_assoc_str.
  - intros [b ->]. exists ("." +:+ b). split; [by rewrite app_assoc_str|].
    apply fnmatch_dot_star. by exists b.
Qed.

Lemma fnmatch_pat_any code s :
  fnmatch (pat_any code) s = true ↔ ∃ a b, s = code +:+ a +:+ "." +:+ b.
Proof.
  unfold pat_any. rewrite fnmatch_lits. split.
  - intros (r & -> & (a & r' & -> & [b ->]%fnmatch_dot_star)%fnmatch_star).
    by exists a, b.
  - intros (a & b & ->). exists (a +:+ "." +:+ b). split; [done|].
    apply fnmatch_star. exists a, ("." +:+ b). split; [done|].
    apply fnmatch_dot_star. by exists b.
Qed.

(** What matches the exact or the FE0F pattern is a candidate. *)
Lemma fnmatch_exact_any code s :
  fnmatch (pat_exact code) s = true → fnmatch (pat_any code) s = true.
Proof.
  rewrite fnmatch_pat_exact, fnmatch_pat_any. intros [b ->]. by exists "", b.
Qed.

Lemma fnmatch_fe0f_any code s :
  fnmatch (pat_fe0f code) s = true → fnmatch (pat_any code) s = true.
Proof.
  rewrite fnmatch_pat_fe0f, fnmatch_pat_any. intros [b ->]. by exists " fe0f", b.
Qed.

(** ** Suffixes and codes *)

Lemma rfind_dot_drop (s : string) (i : nat) :
  Str.rfind_dot s = Some i → ∃ r, Str.drop i s = String "."%char r.
Proof.
  revert i. induction s as [|c s IH]; intros i; simpl; [done|].
  destruct (Str.rfind_dot s) as [j|].
  - intros [= <-]. simpl. by apply IH.
  - destruct (Ascii.eqb c ".") eqn:Hc; [|done].
    intros [= <-]. apply Ascii.eqb_eq in Hc as ->. by exists s.
Qed.

(** A suffix is empty or starts with a dot. *)
Lemma suffix_dotinit (name : string) : dotinit (suffix name).
Proof.
  unfold suffix. destruct (Str.rfind_dot name) as [i|] eqn:Hi; [|by left].
  destruct (_ && _); [|by left].
  right. by apply rfind_dot_drop.
Qed.

Lemma code_ok_dotfree (code : string) : code_ok code → dotfree code.
Proof.
  intros [_ H]. unfold dotfree. eapply Forall_impl; [exact H|].
  intros c Hc ->. by vm_compute in Hc.
Qed.

Lemma dotfree_cons (c : ascii) (s : string) :
  dotfree (String c s) ↔ c ≠ "."%char ∧ dotfree s.
Proof. unfold dotfree. simpl. apply (Forall_cons (λ c : ascii, c ≠ "."%char)). Qed.

Lemma dotfree_app (a b : string) : dotfree (a +:+ b) ↔ dotfree a ∧ dotfree b.
Proof.
  induction a as [|c a IH].
  - rewrite app_nil_l. unfold dotfree at 2. simpl. naive_solver.
  - rewrite app_cons, !dotfree_cons, IH. naive_solver.
Qed.

Lemma dotinit_cons (c : ascii) (s : string) :
  dotinit (String c s) → c = "."%char.
Proof. intros [?|[r ?]]; congruence. Qed.

(** Two file names made of a dot-free stem and a suffix have the same
    stem. *)
Lemma stem_inj (a b x y : string) :
  dotfree a → dotfree b → dotinit x → dotinit y →
  a +:+ x = b +:+ y → a = b.
Proof.
  revert b. induction a as [|c a IH]; intros [|d b] Ha Hb Hx Hy.
  - done.
  - rewrite app_nil_l, app_cons. intros ->.
    apply dotinit_cons in Hx. apply dotfree_cons in Hb as [? _]. done.
  - rewrite app_nil_l, app_cons. intros <-.
    apply dotinit_cons in Hy. apply dotfree_cons in Ha as [? _]. done.
  - rewrite !app_cons. intros [= -> Heq].
    apply dotfree_cons in Ha as [_ Ha]. apply dotfree_cons in Hb as [_ Hb].
    f_equal. by eapply IH.
Qed.

(** A dot-free prefix of a stem followed by a suffix is a prefix of the
    stem. *)
Lemma prefix_of_stem (c C e : string) :
  dotfree c → dotinit e → is_prefix c (C +:+ e) → is_prefix c C.
Proof.
  revert C. induction c as [|h c IH]; intros C Hc He [r Hr].
  - by exists C.
  - rewrite app_cons in Hr. apply dotfree_cons in Hc as [Hh Hc].
    destruct C as [|h' C].
    + rewrite app_nil_l in Hr. subst e. by apply dotinit_cons in He.
    + rewrite app_cons in Hr. injection Hr as -> Hr.
      destruct (IH C Hc He) as [r' ->]; [by exists r|].
      exists r'. by rewrite app_cons.
Qed.

Lemma is_prefix_refl (s : string) : is_prefix s s.
Proof. exists "". by rewrite app_empty_r. Qed.

Lemma str_app_inv_head (a x y : string) : a +:+ x = a +:+ y → x = y.
Proof. apply (inj (String.app a)). Qed.

(** ** Directory listings *)

Lemma child_name_Some d p n : child_name d p = Some n ↔ p = d ++ [n].
Proof.
  revert p. induction d as [|x d IH]; intros [|y p]; simpl.
  - done.
  - destruct p; naive_solver.
  - split; [done|]. by destruct d.
  - case_decide as Hxy; [subst; rewrite IH|]; naive_solver.
Qed.

Lemma child_name_app d n : child_name d (d ++ [n]) = Some n.
Proof. by apply child_name_Some. Qed.

Lemma elem_of_scandir (f : fs) d n :
  n ∈ scandir f d ↔ is_Some (f !! (d ++ [n])).
Proof.
  unfold scandir. rewrite elem_of_elements, elem_of_set_omap. split.
  - intros (p & Hp & ->%child_name_Some). by apply elem_of_dom.
  - intros H. exists (d ++ [n]). split; [by apply elem_of_dom|apply child_name_app].
Qed.

Lemma NoDup_scandir (f : fs) d : NoDup (scandir f d).
Proof. apply NoDup_elements. Qed.

Lemma elem_of_iterdir (f : fs) d n :
  n ∈ iterdir f d ↔ is_dir f d = true ∧ is_Some (f !! (d ++ [n])).
Proof.
  unfold iterdir. destruct (is_dir f d).
  - rewrite elem_of_scandir. naive_solver.
  - rewrite elem_of_nil. naive_solver.
Qed.

Lemma NoDup_iterdir (f : fs) d : NoDup (iterdir f d).
Proof. unfold iterdir. destruct (is_dir f d); [apply NoDup_scandir|constructor]. Qed.

Lemma elem_of_glob (f : fs) d pat n :
  n ∈ glob f d pat ↔
  is_dir f d = true ∧ is_Some (f !! (d ++ [n])) ∧ fnmatch pat n = true.
Proof. unfold glob. rewrite list_elem_of_filter, elem_of_iterdir. naive_solver. Qed.

Lemma NoDup_glob (f : fs) d pat : NoDup (glob f d pat).
Proof. apply NoDup_filter, NoDup_iterdir. Qed.

(** ** [sorted] *)

Lemma sorted_perm l : sorted l ≡ₚ l.
Proof. apply merge_sort_Permutation. Qed.

Lemma elem_of_sorted l x : x ∈ sorted l ↔ x ∈ l.
Proof. by rewrite sorted_perm. Qed.

Lemma NoDup_sorted l : NoDup l → NoDup (sorted l).
Proof. by rewrite sorted_perm. Qed.

Lemma sorted_Sorted l : Sorted String.le (sorted l).
Proof. apply (Sorted_merge_sort String.le). Qed.

Lemma sorted_nil l : sorted l = [] ↔ l = [].
Proof.
  split; [|by intros ->].
  intros H. apply Permutation_nil_r. by rewrite <-H, sorted_perm.
Qed.

(** A sorted listing depends on the set of names only. *)
Lemma sorted_ext l k :
  NoDup l → NoDup k → (∀ x, x ∈ l ↔ x ∈ k) → sorted l = sorted k.
Proof.
  intros Hl Hk Hlk. apply (Sorted_unique String.le); try apply sorted_Sorted.
  rewrite !sorted_perm. by apply NoDup_Permutation.
Qed.

(** [sorted(...)[0]] is a least element. *)
Lemma sorted_head l x rest :
  sorted l = x :: rest → x ∈ l ∧ ∀ y, y ∈ l → String.le x y.
Proof.
  intros H. split.
  - apply elem_of_sorted. rewrite H. left.
  - intros y Hy%elem_of_sorted. rewrite H in Hy.
    pose proof (sorted_Sorted l) as HS. rewrite H in HS.
    apply (Sorted_StronglySorted String.le) in HS.
    apply StronglySorted_inv in HS as [_ Hall].
    apply elem_of_cons in Hy as [->|Hy]; [done|].
    by eapply Forall_forall in Hall.
Qed.

Lemma sorted_glob_nil (f : fs) d pat :
  sorted (glob f d pat) = [] ↔ ∀ n, n ∉ glob f d pat.
Proof.
  rewrite sorted_nil. split; [intros -> n; apply not_elem_of_nil|].
  intros H. destruct (glob f d pat) as [|n l]; [done|]. destruct (H n). left.
Qed.

Lemma agree_under_is_dir (d : path) (f g : fs) :
  agree_under d f g → is_dir f d = is_dir g d.
Proof. intros H. unfold is_dir. by rewrite (H d). Qed.

Lemma agree_under_child (d : path) (n : string) (f g : fs) :
  agree_under d f g → f !! (d ++ [n]) = g !! (d ++ [n]).
Proof. intros H. apply H. by apply prefix_app_r. Qed.

Lemma agree_under_exists (d : path) (f g : fs) :
  agree_under d f g → exists_ f d = exists_ g d.
Proof. intros H. unfold exists_. by rewrite (H d). Qed.

Lemma sorted_glob_agree (d : path) (f g : fs) pat :
  agree_under d f g → sorted (glob f d pat) = sorted (glob g d pat).
Proof.
  intros H. apply sorted_ext; try apply NoDup_glob.
  intros n. rewrite !elem_of_glob.
  by rewrite (agree_under_is_dir _ _ _ H), (agree_under_child _ n _ _ H).
Qed.

Lemma sorted_iterdir_agree (d : path) (f g : fs) :
  agree_under d f g → sorted (iterdir f d) = sorted (iterdir g d).
Proof.
  intros H. apply sorted_ext; try apply NoDup_iterdir.
  intros n. rewrite !elem_of_iterdir.
  by rewrite (agree_under_is_dir _ _ _ H), (agree_under_child _ n _ _ H).
Qed.

(** ** Effects *)

Lemma applies_id (f : fs) : applies eff_id f f.
Proof. by intros p. Qed.

Lemma applies_seq e1 e2 (f f1 f2 : fs) :
  applies e1 f f1 → applies e2 f1 f2 → applies (eff_seq e1 e2) f f2.
Proof.
  intros H1 H2 p. unfold eff_seq. rewrite (H2 p).
  destruct (e2 p); [done|apply H1].
Qed.

(** Applying an effect twice is applying it once. *)
Lemma applies_idem eff (f f1 f2 : fs) :
  applies eff f f1 → applies eff f1 f2 → f2 = f1.
Proof.
  intros H1 H2. apply map_eq. intros p. rewrite (H2 p), (H1 p).
  by destruct (eff p).
Qed.

Lemma applies_untouched eff (f f' : fs) p :
  applies eff f f' → eff p = None → f' !! p = f !! p.
Proof. intros H Hp. by rewrite (H p), Hp. Qed.

Lemma eff_list_Some_inv (effs : list effect) (p : path) v :
  eff_list effs p = Some v → ∃ e, e ∈ effs ∧ e p = Some v.
Proof.
  induction effs as [|e effs IH]; simpl; [done|]. unfold eff_seq.
  destruct (eff_list effs p) as [v'|] eqn:Hl.
  - intros [= ->]. destruct IH as (e' & ? & ?); [done|]. exists e'. split; [by right|done].
  - intros He. exists e. split; [left|done].
Qed.

Lemma eff_list_None_inv (effs : list effect) (p : path) :
  eff_list effs p = None → ∀ e, e ∈ effs → e p = None.
Proof.
  induction effs as [|e effs IH]; simpl; [by intros _ e' ?%elem_of_nil|].
  unfold eff_seq. destruct (eff_list effs p) as [v'|] eqn:Hl; [done|].
  intros He e' [->|Hin]%elem_of_cons; [done|by apply IH].
Qed.

(** When every step that touches [p] sets it to [v], and one does, the
    sequence sets it to [v]. *)
Lemma eff_list_last (effs : list effect) (p : path) v :
  (∀ e, e ∈ effs → e p = None ∨ e p = Some v) →
  (∃ e, e ∈ effs ∧ e p = Some v) →
  eff_list effs p = Some v.
Proof.
  intros Hall (e & Hin & He).
  destruct (eff_list effs p) as [v'|] eqn:Hl.
  - apply eff_list_Some_inv in Hl as (e' & Hin' & He').
    destruct (Hall e' Hin'); congruence.
  - apply eff_list_None_inv with (e:=e) in Hl; [congruence|done].
Qed.

Lemma eff_list_none (effs : list effect) (p : path) :
  (∀ e, e ∈ effs → e p = None) → eff_list effs p = None.
Proof.
  intros Hall. destruct (eff_list effs p) as [v|] eqn:Hl; [|done].
  apply eff_list_Some_inv in Hl as (e & Hin & He). rewrite (Hall e Hin) in He. done.
Qed.

(** The steps of [l2] come after those of [l1] and win. *)
Lemma eff_list_app (l1 l2 : list effect) (p : path) :
  eff_list (l1 ++ l2) p =
  match eff_list l2 p with Some v => Some v | None => eff_list l1 p end.
Proof.
  induction l1 as [|e l1 IH]; simpl.
  - by destruct (eff_list l2 p).
  - unfold eff_seq. rewrite IH. by destruct (eff_list l2 p).
Qed.

(** ** Loops *)

(** The invariant [P] speaks of the elements already processed. *)
Lemma for_each_rule {A S} (P : list A → S → world → Prop)
    (l : list A) (body : S → A → M S) (acc : S) (w : world) :
  P [] acc w →
  (∀ done x todo acc w,
      l = done ++ x :: todo → P done acc w →
      ∃ acc' w', body acc x w = Return acc' w' ∧ P (done ++ [x]) acc' w') →
  ∃ acc' w', for_each l body acc w = Return acc' w' ∧ P l acc' w'.
Proof.
  intros H0 Hstep.
  cut (∀ todo done acc w, l = done ++ todo → P done acc w →
         ∃ acc' w', for_each todo body acc w = Return acc' w' ∧ P l acc' w').
  { intros Hgen. by apply (Hgen l []). }
  clear acc w H0. induction todo as [|x todo IH]; intros done acc w Hl HP.
  - rewrite app_nil_r in Hl. subst done. by exists acc, w.
  - destruct (Hstep done x todo acc w Hl HP) as (acc' & w' & Hb & HP').
    destruct (IH (done ++ [x]) acc' w') as (acc'' & w'' & Hf & HP'');
      [by rewrite <-app_assoc|done|].
    exists acc'', w''. split; [|done].
    simpl. unfold bind. by rewrite Hb.
Qed.

Lemma for_each_cons {A S} (x : A) (l : list A) (body : S → A → M S) (acc : S) :
  for_each (x :: l) body acc =
  bind (body acc x) (λ acc', for_each l body acc').
Proof. done. Qed.

Lemma bind_Return {A B} (m : M A) (k : A → M B) w a w' :
  m w = Return a w' → bind m k w = k a w'.
Proof. intros H. unfold bind. by rewrite H. Qed.

(** ** File operations *)

Lemma parent_snoc (d : path) (n : string) : parent (d ++ [n]) = d.
Proof. apply removelast_last. Qed.

Lemma name_of_snoc (d : path) (n : string) : name_of (d ++ [n]) = n.
Proof. apply last_last. Qed.

Lemma snoc2 (d : path) (a b : string) : d ++ [a; b] = (d ++ [a]) ++ [b].
Proof. by rewrite <-app_assoc. Qed.

Lemma mkdir_from_spec (rest : list string) (pre : path) (f : fs) :
  (∀ q, pre `prefix_of` q → q `prefix_of` pre ++ rest → is_file f q = false) →
  ∃ f', mkdir_from pre rest f = Some f' ∧
        ∀ q, f' !! q =
             if bool_decide (pre `prefix_of` q ∧ q `prefix_of` pre ++ rest)
             then Some Dir else f !! q.
Proof.
  revert pre f. induction rest as [|n rest IH]; intros pre f Hf; simpl.
  - assert (is_file f pre = false) as Hpre.
    { apply Hf; [done|]. by rewrite app_nil_r. }
    unfold is_file in Hpre.
    exists (<[pre := Dir]> f). split.
    { destruct (f !! pre) as [[]|]; done. }
    intros q. rewrite app_nil_r. case_bool_decide as Hq.
    + destruct Hq as [H1 H2]. assert (q = pre) as -> by by apply (anti_symm prefix).
      by rewrite lookup_insert_eq.
    + rewrite lookup_insert_ne; [done|]. intros <-. by apply Hq.
  - assert (is_file f pre = false) as Hpre.
    { apply Hf; [done|]. by apply prefix_app_r. }
    unfold is_file in Hpre.
    destruct (IH (pre ++ [n]) (<[pre := Dir]> f)) as (f' & Hmk & Hf').
    { intros q H1 H2. rewrite <-app_assoc in H2. simpl in H2.
      unfold is_file. rewrite lookup_insert_ne.
      - apply Hf; [|done]. by eapply prefix_app_l.
      - intros <-. by apply prefix_snoc_not in H1. }
    exists f'. split.
    { destruct (f !! pre) as [[]|]; done. }
    intros q. rewrite Hf'. rewrite <-app_assoc. simpl.
    destruct (decide (q = pre)) as [->|Hne].
    + rewrite bool_decide_false; [|intros [H1%prefix_snoc_not _]; done].
      rewrite lookup_insert_eq, bool_decide_true; [done|].
      split; [done|by apply prefix_app_r].
    + rewrite lookup_insert_ne by done.
      erewrite (bool_decide_ext _ (pre `prefix_of` q ∧ q `prefix_of` pre ++ n :: rest));
        [done|].
      split.
      * intros [H1 H2]. split; [|done]. by eapply prefix_app_l.
      * intros [[k ->] H2]. split; [|done].
        destruct k as [|m k]; [by rewrite app_nil_r in Hne|].
        apply prefix_app_inv in H2. apply prefix_cons_inv_1 in H2 as ->.
        exists k. by rewrite <-app_assoc.
Qed.

Lemma mkdir_spec (d : path) (w : world) :
  (∀ q, q `prefix_of` d → is_file (w_fs w) q = false) →
  ∃ f', mkdir d w = Return () (World f' (w_out w)) ∧
        applies (mkdir_effect d) (w_fs w) f'.
Proof.
  intros Hd. destruct (mkdir_from_spec d [] (w_fs w)) as (f' & Hmk & Hf').
  { intros q _ Hq. by apply Hd. }
  exists f'. split.
  - unfold mkdir, fs_op, mkdir_parents. by rewrite Hmk.
  - intros q. rewrite Hf'. unfold mkdir_effect. simpl.
    erewrite (bool_decide_ext _ (q `prefix_of` d)); [by case_bool_decide|].
    split; [by intros [_ ?]|]. intros ?. split; [apply prefix_nil|done].
Qed.

Lemma unlink_file (p : path) (w : world) :
  is_file (w_fs w) p = true →
  unlink p w = Return () (World (delete p (w_fs w)) (w_out w)).
Proof. intros H. unfold unlink, fs_op, unlink_fs. by rewrite H. Qed.

(** Removing entries that are all regular files: they go, nothing is
    printed. *)
Lemma remove_old_spec (d : path) (olds : list string) (w : world) :
  NoDup olds →
  (∀ n, n ∈ olds → is_file (w_fs w) (d ++ [n]) = true) →
  ∃ f', copy_schmoji.remove_old d olds w = Return () (World f' (w_out w)) ∧
        ∀ p, f' !! p =
             match child_name d p with
             | Some n => if bool_decide (n ∈ olds) then None else w_fs w !! p
             | None => w_fs w !! p
             end.
Proof.
  unfold copy_schmoji.remove_old.
  revert w. induction olds as [|old olds IH]; intros [f out] Hnd Hfiles; simpl.
  - exists f. split; [done|]. intros p. by destruct (child_name d p).
  - apply NoDup_cons in Hnd as [Hnotin Hnd].
    destruct (IH (World (delete (d ++ [old]) f) out)) as (f' & Hrun & Hf');
      [done| |].
    { intros n Hn. simpl. unfold is_file. rewrite lookup_delete_ne.
      - apply (Hfiles n). by right.
      - intros [_ Heq]%app_inj_tail. subst. contradiction. }
    exists f'. split.
    + unfold bind at 1, try_except.
      rewrite unlink_file by (apply Hfiles; left). exact Hrun.
    + intros p. rewrite Hf'. simpl.
      destruct (child_name d p) as [n|] eqn:Hc.
      2:{ rewrite lookup_delete_ne; [done|]. intros <-.
          by rewrite child_name_app in Hc. }
      apply child_name_Some in Hc as ->.
      destruct (decide (n = old)) as [->|Hne].
      * rewrite (bool_decide_true (old ∈ old :: olds)) by left.
        rewrite lookup_delete_eq. by case_bool_decide.
      * rewrite lookup_delete_ne by (intros [_ ?]%app_inj_tail; done).
        erewrite (bool_decide_ext (n ∈ old :: olds)); [done|].
        rewrite elem_of_cons. naive_solver.
Qed.

Lemma copy2_spec (src dst : path) (data : string) (w : world) :
  w_fs w !! src = Some (File data) →
  src ≠ dst →
  is_dir (w_fs w) dst = false →
  is_dir (w_fs w) (parent dst) = true →
  copy2 src dst w = Return () (World (<[dst := File data]> (w_fs w)) (w_out w)).
Proof.
  intros Hsrc Hne Hdst Hpar.
  unfold copy2, fs_op, copy2_fs, copy2_target.
  rewrite Hdst, Hsrc. rewrite decide_False by done. by rewrite Hdst, Hpar.
Qed.

(** ** Paths *)

Lemma prefix_snoc_inv (q l : path) (x : string) :
  q `prefix_of` l ++ [x] → q `prefix_of` l ∨ q = l ++ [x].
Proof.
  intros [k Hk]. destruct (decide (k = [])) as [->|Hne].
  - right. by rewrite app_nil_r in Hk.
  - left. destruct (exists_last Hne) as (k' & y & ->).
    rewrite app_assoc in Hk. apply app_inj_tail in Hk as [-> _]. by exists k'.
Qed.

Lemma prefix_app_cases (U O l : path) :
  U `prefix_of` O ++ l → U `prefix_of` O ∨ O `prefix_of` U.
Proof.
  intros H. eapply prefix_weak_total; [exact H|]. by apply prefix_app_r.
Qed.

Lemma snoc_inj (d d' : path) (n n' : string) :
  d ++ [n] = d' ++ [n'] → d = d' ∧ n = n'.
Proof. apply app_inj_tail. Qed.

Lemma child_name_self (d : path) : child_name d d = None.
Proof.
  destruct (child_name d d) as [n|] eqn:H; [|done].
  apply child_name_Some in H. apply (f_equal length) in H.
  rewrite length_app in H. simpl in H. lia.
Qed.

(** ** The Selector: which file is chosen *)

Lemma first_found_agree (d : path) (f g : fs) pats :
  agree_under d f g →
  copy_schmoji.first_found f d pats = copy_schmoji.first_found g d pats.
Proof.
  intros H. induction pats as [|pat pats IH]; simpl; [done|].
  by rewrite (sorted_glob_agree d f g pat H), IH.
Qed.

Lemma chosen_agree (d : path) (f g : fs) code :
  agree_under d f g → copy_schmoji.chosen f d code = copy_schmoji.chosen g d code.
Proof.
  intros H. unfold copy_schmoji.chosen, copy_schmoji.pick_preferred.
  by rewrite (sorted_glob_agree d f g _ H), (first_found_agree d f g _ H).
Qed.

(** The three cases of the selection, each with the least name of its
    class. *)
Lemma chosen_cases (f : fs) (d : path) (code : string) :
  match copy_schmoji.chosen f d code with
  | None => ∀ n, n ∉ glob f d (pat_any code)
  | Some pref =>
      match sorted (glob f d (pat_exact code)),
            sorted (glob f d (pat_fe0f code)),
            sorted (glob f d (pat_any code)) with
      | x :: _, _, _ => pref = x
      | [], y :: _, _ => pref = y
      | [], [], z :: _ => pref = z
      | [], [], [] => False
      end
  end.
Proof.
  unfold copy_schmoji.chosen, copy_schmoji.pick_preferred. simpl.
  destruct (sorted (glob f d (pat_any code))) as [|z ?] eqn:Hany.
  - by apply sorted_glob_nil.
  - destruct (sorted (glob f d (pat_exact code))) as [|x ?]; [|done].
    by destruct (sorted (glob f d (pat_fe0f code))) as [|y ?].
Qed.

Lemma glob_exact_any (f : fs) d code n :
  n ∈ glob f d (pat_exact code) → n ∈ glob f d (pat_any code).
Proof. rewrite !elem_of_glob. naive_solver eauto using fnmatch_exact_any. Qed.

Lemma glob_fe0f_any (f : fs) d code n :
  n ∈ glob f d (pat_fe0f code) → n ∈ glob f d (pat_any code).
Proof. rewrite !elem_of_glob. naive_solver eauto using fnmatch_fe0f_any. Qed.

Lemma chosen_is_candidate (f : fs) (d : path) (code pref : string) :
  copy_schmoji.chosen f d code = Some pref → pref ∈ glob f d (pat_any code).
Proof.
  intros H. pose proof (chosen_cases f d code) as Hc. rewrite H in Hc.
  destruct (sorted (glob f d (pat_exact code))) as [|x ?] eqn:Hx.
  - destruct (sorted (glob f d (pat_fe0f code))) as [|y ?] eqn:Hy.
    + destruct (sorted (glob f d (pat_any code))) as [|z ?] eqn:Hz; [done|].
      subst. by apply sorted_head in Hz as [? _].
    + subst. apply sorted_head in Hy as [? _]. by apply glob_fe0f_any.
  - subst. apply sorted_head in Hx as [? _]. by apply glob_exact_any.
Qed.

Lemma chosen_None (f : fs) (d : path) (code : string) :
  copy_schmoji.chosen f d code = None ↔ sorted (glob f d (pat_any code)) = [].
Proof.
  unfold copy_schmoji.chosen.
  by destruct (sorted (glob f d (pat_any code))).
Qed.

Lemma chosen_Some_candidates (f : fs) (d : path) (code : string) :
  (∃ n, n ∈ glob f d (pat_any code)) →
  ∃ pref, copy_schmoji.chosen f d code = Some pref.
Proof.
  intros [n Hn]. destruct (copy_schmoji.chosen f d code) as [pref|] eqn:H; [by eexists|].
  apply chosen_None in H. rewrite sorted_glob_nil in H. by destruct (H n).
Qed.

(** The body of the loop agrees with [chosen]. *)
Lemma code_body_dry (src dst : path) acc code (w : world) :
  copy_schmoji.code_body src dst true acc code w =
  match copy_schmoji.chosen (w_fs w) src code with
  | None => Return true (World (w_fs w) (w_out w ++ [NotFound src code]))
  | Some pref =>
      Return acc
        (World (w_fs w)
           (w_out w
            ++ ((λ old, DryRunRemove (dst ++ [old]))
                  <$> sorted (glob (w_fs w) dst (pat_any code)))
            ++ [DryRunCopy (src ++ [pref]) (dst ++ [code +:+ suffix pref])]))
  end.
Proof.
  unfold copy_schmoji.code_body, copy_schmoji.chosen.
  unfold bind at 1, get_fs.
  destruct (sorted (glob (w_fs w) src (pat_any code))) as [|c0 cs]; [done|].
  rewrite name_of_snoc.
  set (pref := copy_schmoji.pick_preferred _ _ _ _).
  set (olds := sorted (glob (w_fs w) dst (pat_any code))).
  assert (∀ out, copy_schmoji.show_old dst olds (World (w_fs w) out) =
                 Return () (World (w_fs w)
                   (out ++ ((λ old, DryRunRemove (dst ++ [old])) <$> olds)))) as Hshow.
  { unfold copy_schmoji.show_old. clear. induction olds as [|o olds IH]; intros out; simpl.
    - by rewrite app_nil_r.
    - unfold bind at 1, print. simpl. rewrite IH. by rewrite <-app_assoc. }
  destruct w as [f out]. simpl in *.
  unfold bind at 1. rewrite Hshow. unfold bind, print, ret. simpl.
  by rewrite <-app_assoc.
Qed.

(** ** Source and destination apart *)

Section dst_inv.
Context (U O : path) (styles : list string) (f0 : fs).
Hypothesis Hap : apart U O.

Lemma src_not_under_dst (l : path) (p : path) :
  U `prefix_of` p → p ≠ O ++ l.
Proof.
  intros HU ->. destruct Hap as [H1 H2].
  by destruct (prefix_app_cases U O l HU).
Qed.

Lemma agree_style (f : fs) (s : string) :
  agree_under U f f0 → agree_under (U ++ [s]) f f0.
Proof. intros H p Hp. apply H. by eapply prefix_app_l. Qed.

Lemma tree_inv_mkdir (s : string) (f f' : fs) :
  s ∈ styles →
  tree_inv U O styles f0 f →
  applies (mkdir_effect (O ++ [s])) f f' →
  tree_inv U O styles f0 f' ∧ is_dir f' (O ++ [s]) = true.
Proof.
  intros Hs [Hsrc Hanc Hsty Hflat] Happ.
  assert (∀ p, f' !! p = Some Dir ∨ (¬ p `prefix_of` O ++ [s] ∧ f' !! p = f !! p))
    as Hcases.
  { intros p. rewrite (Happ p). unfold mkdir_effect. case_bool_decide; auto. }
  split; [split|].
  - intros p Hp. destruct (Hcases p) as [_|[_ ->]]; [|by apply Hsrc].
    rewrite (Happ p). unfold mkdir_effect. case_bool_decide as Hq; [|by apply Hsrc].
    destruct Hap as [H1 H2].
    assert (U `prefix_of` O ++ [s]) as HU by by etrans.
    by destruct (prefix_app_cases _ _ _ HU).
  - intros q Hq. unfold is_file.
    destruct (Hcases q) as [->|[_ ->]]; [done|by apply Hanc].
  - intros s' Hs'. unfold is_file.
    destruct (Hcases (O ++ [s'])) as [->|[_ ->]]; [done|by apply Hsty].
  - intros s' n Hs'. unfold is_dir. rewrite (Happ (O ++ [s'; n])).
    unfold mkdir_effect. rewrite bool_decide_false; [by apply Hflat|].
    intros Hl%prefix_length. rewrite !length_app in Hl. simpl in Hl. lia.
  - unfold is_dir. rewrite (Happ (O ++ [s])). unfold mkdir_effect.
    by rewrite bool_decide_true.
Qed.

End dst_inv.

(** ** The Selector: one real step *)

Section selector_run.
Context (U O : path) (styles : list string) (f0 : fs).
Hypothesis Hpre : sel_pre U O styles f0.

Let Hap : apart U O := pre_apart _ _ _ _ Hpre.

Lemma sel_code_effect_shape (s code : string) (p : path) v :
  sel_code_effect f0 U O s code p = Some v →
  ∃ n pref, p = O ++ [s; n] ∧
    copy_schmoji.chosen f0 (U ++ [s]) code = Some pref ∧
    (v = None ∨ v = f0 !! (U ++ [s; pref])).
Proof.
  unfold sel_code_effect.
  destruct (copy_schmoji.chosen f0 (U ++ [s]) code) as [pref|]; [|done].
  case_decide as Hp.
  - intros [= <-]. exists (code +:+ suffix pref), pref. auto.
  - destruct (child_name (O ++ [s]) p) as [n|] eqn:Hc; [|done].
    apply child_name_Some in Hc. rewrite <-snoc2 in Hc.
    destruct (fnmatch (pat_any code) n); [|done].
    intros [= <-]. exists n, pref. auto.
Qed.

Lemma chosen_is_file (s code pref : string) :
  s ∈ styles →
  copy_schmoji.chosen f0 (U ++ [s]) code = Some pref →
  ∃ data, f0 !! (U ++ [s; pref]) = Some (File data).
Proof.
  intros Hs Hc. apply chosen_is_candidate, elem_of_glob in Hc as (_ & [nd Hnd] & _).
  rewrite <-snoc2 in Hnd. pose proof (pre_flat _ _ _ _ Hpre s pref Hs) as Hflat.
  unfold is_dir in Hflat. rewrite Hnd in Hflat. destruct nd as [data|]; [|done].
  by exists data.
Qed.

(** A step keeps the invariant, and the style directory stays. *)
Lemma tree_inv_code_effect (s code : string) (f f' : fs) :
  s ∈ styles →
  tree_inv U O styles f0 f →
  applies (sel_code_effect f0 U O s code) f f' →
  tree_inv U O styles f0 f' ∧ f' !! (O ++ [s]) = f !! (O ++ [s]).
Proof.
  intros Hs [Hsrc Hanc Hsty Hflat] Happ.
  assert (∀ p, (∀ n, p ≠ O ++ [s; n]) → f' !! p = f !! p) as Hframe.
  { intros p Hp. apply (applies_untouched _ _ _ _ Happ).
    destruct (sel_code_effect f0 U O s code p) as [v|] eqn:He; [|done].
    apply sel_code_effect_shape in He as (n & _ & -> & _). by destruct (Hp n). }
  assert (∀ (l : path) (a b : string), l `prefix_of` O → l ≠ O ++ [a; b]) as Hlen1.
  { intros l a b Hl%prefix_length ->. rewrite length_app in Hl. simpl in Hl. lia. }
  assert (∀ (a b c : string), O ++ [a] ≠ O ++ [b; c]) as Hlen2.
  { intros a b c Heq%(f_equal length). rewrite !length_app in Heq. simpl in Heq. lia. }
  split; [split|].
  - intros p Hp. rewrite Hframe; [by apply Hsrc|].
    intros n. by apply (src_not_under_dst U O Hap).
  - intros q Hq. unfold is_file. rewrite Hframe; [by apply Hanc|].
    intros n. by apply Hlen1.
  - intros s' Hs'. unfold is_file. rewrite Hframe; [by apply Hsty|].
    intros n. apply Hlen2.
  - intros s' n Hs'. unfold is_dir. rewrite (Happ (O ++ [s'; n])).
    destruct (sel_code_effect f0 U O s code (O ++ [s'; n])) as [v|] eqn:He;
      [|by apply Hflat].
    apply sel_code_effect_shape in He as (n' & pref & Heq & Hch & [->| ->]); [done|].
    destruct (chosen_is_file s code pref Hs Hch) as [data ->]. done.
  - apply Hframe. intros n. apply Hlen2.
Qed.

Lemma code_body_real (s code : string) (acc : bool) (w : world) :
  s ∈ styles →
  tree_inv U O styles f0 (w_fs w) →
  is_dir (w_fs w) (O ++ [s]) = true →
  ∃ f',
    copy_schmoji.code_body (U ++ [s]) (O ++ [s]) false acc code w =
      Return (if sel_code_missing f0 U s code then true else acc)
             (World f' (w_out w ++ [sel_code_msg f0 U O s code])) ∧
    applies (sel_code_effect f0 U O s code) (w_fs w) f'.
Proof.
  intros Hs Hinv Hdir. destruct w as [f out]. simpl in *.
  pose proof (chosen_agree (U ++ [s]) f f0 code
                (agree_style U f0 f s (inv_src _ _ _ _ _ Hinv))) as Hch.
  unfold sel_code_missing, sel_code_msg, sel_code_effect.
  destruct (copy_schmoji.chosen f0 (U ++ [s]) code) as [pref|] eqn:Hch0.
  2:{ exists f. split; [|by intros p].
      apply chosen_None in Hch.
      unfold copy_schmoji.code_body. unfold bind at 1, get_fs. simpl.
      by rewrite Hch. }
  pose proof Hch as Hcand. apply chosen_is_candidate in Hcand.
  unfold copy_schmoji.chosen in Hch.
  unfold copy_schmoji.code_body. unfold bind at 1, get_fs. simpl.
  destruct (sorted (glob f (U ++ [s]) (pat_any code))) as [|c0 cs]; [done|].
  injection Hch as Hpick. rewrite Hpick, name_of_snoc.
  destruct (chosen_is_file s code pref Hs Hch0) as [data Hdata].
  set (olds := sorted (glob f (O ++ [s]) (pat_any code))).
  destruct (remove_old_spec (O ++ [s]) olds (World f out)) as (f1 & Hrm & Hf1).
  { apply NoDup_sorted, NoDup_glob. }
  { intros n Hn%elem_of_sorted%elem_of_glob. destruct Hn as (_ & [nd Hnd] & _).
    simpl. pose proof (inv_flat _ _ _ _ _ Hinv s n Hs) as Hfl.
    rewrite snoc2 in Hfl. unfold is_dir in Hfl. unfold is_file.
    rewrite Hnd in *. by destruct nd. }
  simpl in Hrm, Hf1.
  set (src := (U ++ [s]) ++ [pref]).
  set (dst := (O ++ [s]) ++ [code +:+ suffix pref]).
  assert (∀ l, src ≠ O ++ l) as Hsrc_out.
  { intros l. apply (src_not_under_dst U O Hap). unfold src. rewrite <-app_assoc.
    by apply prefix_app_r. }
  assert (f1 !! src = Some (File data)) as Hsrc1.
  { rewrite Hf1. destruct (child_name (O ++ [s]) src) as [n|] eqn:Hc.
    - apply child_name_Some in Hc. rewrite <-app_assoc in Hc. by destruct (Hsrc_out _ Hc).
    - rewrite (inv_src _ _ _ _ _ Hinv); [by unfold src; rewrite <-snoc2|].
      unfold src. rewrite <-app_assoc. by apply prefix_app_r. }
  assert (f1 !! (O ++ [s]) = f !! (O ++ [s])) as Hdir1.
  { by rewrite Hf1, child_name_self. }
  assert (is_dir f1 dst = false) as Hdst1.
  { unfold is_dir. rewrite Hf1. unfold dst. rewrite child_name_app.
    case_bool_decide; [done|].
    pose proof (inv_flat _ _ _ _ _ Hinv s (code +:+ suffix pref) Hs) as Hfl.
    by rewrite snoc2 in Hfl. }
  exists (<[dst := File data]> f1). split.
  - unfold bind at 1. rewrite Hrm.
    unfold bind at 1.
    rewrite (copy2_spec src dst data (World f1 out)); simpl.
    + unfold bind, print, ret, src, dst. simpl. by rewrite <-!snoc2.
    + done.
    + unfold dst. rewrite <-app_assoc. apply Hsrc_out.
    + done.
    + unfold dst. rewrite parent_snoc. unfold is_dir in *. by rewrite Hdir1.
  - intros p. rewrite (snoc2 O s (code +:+ suffix pref)). fold dst.
    case_decide as Hp.
    + subst p. rewrite lookup_insert_eq. by rewrite <-Hdata.
    + rewrite lookup_insert_ne by done. rewrite Hf1.
      destruct (child_name (O ++ [s]) p) as [n|] eqn:Hc; [|done].
      apply child_name_Some in Hc as ->.
      destruct (fnmatch (pat_any code) n) eqn:Hm.
      * case_bool_decide as Hin; [done|].
        destruct (f !! ((O ++ [s]) ++ [n])) as [nd|] eqn:Hn; [|done].
        destruct Hin. apply elem_of_sorted, elem_of_glob. eauto.
      * case_bool_decide as Hin; [|done].
        apply elem_of_sorted, elem_of_glob in Hin as (_ & _ & Hm').
        congruence.
Qed.

Lemma codes_loop_real (s : string) (codes : list string) (acc : bool) (w : world) :
  s ∈ styles →
  tree_inv U O styles f0 (w_fs w) →
  is_dir (w_fs w) (O ++ [s]) = true →
  ∃ f',
    for_each codes (copy_schmoji.code_body (U ++ [s]) (O ++ [s]) false) acc w =
      Return (acc || existsb (sel_code_missing f0 U s) codes)
             (World f' (w_out w ++ (sel_code_msg f0 U O s <$> codes))) ∧
    applies (sel_codes_effect f0 U O s codes) (w_fs w) f' ∧
    tree_inv U O styles f0 f' ∧ is_dir f' (O ++ [s]) = true.
Proof.
  intros Hs. revert acc w.
  induction codes as [|code codes IH]; intros acc [f out] Hinv Hdir; simpl in *.
  - exists f. rewrite orb_false_r, app_nil_r.
    split; [done|]. split; [apply applies_id|done].
  - destruct (code_body_real s code acc (World f out) Hs Hinv Hdir)
      as (f1 & Hrun1 & Happ1).
    destruct (tree_inv_code_effect s code f f1 Hs Hinv Happ1) as [Hinv1 Hdir1].
    destruct (IH (if sel_code_missing f0 U s code then true else acc)
                (World f1 (out ++ [sel_code_msg f0 U O s code])))
      as (f2 & Hrun2 & Happ2 & Hinv2 & Hdir2); [done| |].
    { simpl. unfold is_dir in *. by rewrite Hdir1. }
    exists f2. split_and!; [|by eapply applies_seq|done|done].
    unfold bind. simpl in Hrun1. rewrite Hrun1, Hrun2. simpl.
    rewrite <-app_assoc. simpl. f_equal.
    destruct (sel_code_missing f0 U s code), acc; done.
Qed.

Lemma style_body_real (codes : list string) (s : string) (acc : bool) (w : world) :
  s ∈ styles →
  tree_inv U O styles f0 (w_fs w) →
  ∃ f',
    copy_schmoji.style_body U O codes false acc s w =
      Return (acc || sel_style_missing f0 U codes s)
             (World f' (w_out w ++ sel_style_log f0 U O codes s)) ∧
    applies (sel_style_effect f0 U O codes s) (w_fs w) f' ∧
    tree_inv U O styles f0 f'.
Proof.
  intros Hs Hinv. destruct w as [f out]. simpl in *.
  unfold copy_schmoji.style_body, sel_style_missing, sel_style_log, sel_style_effect.
  unfold bind at 1, get_fs. simpl.
  rewrite (agree_under_exists _ _ _ (agree_style U f0 f s (inv_src _ _ _ _ _ Hinv))).
  destruct (exists_ f0 (U ++ [s])); simpl.
  2:{ exists f. rewrite orb_true_r. split_and!; [done|apply applies_id|done]. }
  destruct (mkdir_spec (O ++ [s]) (World f out)) as (f1 & Hmk & Happ1).
  { intros q [Hq| ->]%prefix_snoc_inv; simpl.
    - by apply (inv_anc _ _ _ _ _ Hinv).
    - by apply (inv_style _ _ _ _ _ Hinv). }
  destruct (tree_inv_mkdir U O styles f0 Hap s f f1 Hs Hinv Happ1) as [Hinv1 Hdir1].
  destruct (codes_loop_real s codes acc (World f1 out) Hs Hinv1 Hdir1)
    as (f2 & Hrun & Happ2 & Hinv2 & _).
  exists f2. split_and!; [|by eapply applies_seq|done].
  unfold bind at 1. simpl in Hmk. by rewrite Hmk.
Qed.

Lemma styles_loop_real (codes : list string) (ss : list string) (acc : bool)
    (w : world) :
  ss ⊆ styles →
  tree_inv U O styles f0 (w_fs w) →
  ∃ f',
    for_each ss (copy_schmoji.style_body U O codes false) acc w =
      Return (acc || existsb (sel_style_missing f0 U codes) ss)
             (World f' (w_out w ++ concat (sel_style_log f0 U O codes <$> ss))) ∧
    applies (eff_list (sel_style_effect f0 U O codes <$> ss)) (w_fs w) f' ∧
    tree_inv U O styles f0 f'.
Proof.
  revert acc w.
  induction ss as [|s ss IH]; intros acc [f out] Hsub Hinv; simpl in *.
  - exists f. rewrite orb_false_r, app_nil_r.
    split; [done|]. split; [apply applies_id|done].
  - destruct (style_body_real codes s acc (World f out)) as (f1 & Hrun1 & Happ1 & Hinv1);
      [apply Hsub; left|done|].
    destruct (IH (acc || sel_style_missing f0 U codes s)
                (World f1 (out ++ sel_style_log f0 U O codes s)))
      as (f2 & Hrun2 & Happ2 & Hinv2); [|done|].
    { intros x Hx. apply Hsub. by right. }
    exists f2. split_and!; [|by eapply applies_seq|done].
    unfold bind. simpl in Hrun1. rewrite Hrun1, Hrun2. simpl.
    by rewrite <-app_assoc, orb_assoc.
Qed.

(** A real run, from a state that satisfies the invariant: it returns,
    prints [sel_run_log] and applies [sel_run_effect]. *)
Lemma copy_matches_real (codes : list string) (w : world) :
  tree_inv U O styles f0 (w_fs w) →
  ∃ f',
    copy_schmoji.copy_matches U O styles codes false w =
      Return () (World f' (w_out w ++ sel_run_log f0 U O styles codes)) ∧
    applies (sel_run_effect f0 U O styles codes) (w_fs w) f' ∧
    tree_inv U O styles f0 f'.
Proof.
  intros Hinv.
  destruct (styles_loop_real codes styles false w) as (f' & Hrun & Happ & Hinv');
    [done..|].
  exists f'. split_and!; [|done..].
  unfold copy_schmoji.copy_matches, bind. rewrite Hrun. simpl.
  unfold sel_run_log.
  destruct (existsb (sel_style_missing f0 U codes) styles); unfold print, ret; simpl.
  - by rewrite <-app_assoc.
  - by rewrite app_nil_r.
Qed.

End selector_run.

(** ** Checking [sel_ready] *)

Lemma sel_ready_sound (U O : path) (styles : list string) (f : fs) :
  sel_ready_b U O styles f = true → sel_ready U O styles f.
Proof.
  unfold sel_ready_b. rewrite !andb_true_iff, !negb_true_iff, !bool_decide_eq_false.
  intros [[HUO HOU] Hall].
  assert (∀ p nd, f !! p = Some nd → sel_ready_entry U O styles (p, nd) = true) as Hent.
  { intros p nd Hp. rewrite forallb_forall in Hall. apply Hall.
    apply list_elem_of_In, elem_of_map_to_list. exact Hp. }
  assert (∀ (d : path) s n, s ∈ styles → (d = U ∨ d = O) → is_dir f (d ++ [s; n]) = false)
    as Hflat.
  { intros d s n Hs Hd. unfold is_dir.
    destruct (f !! (d ++ [s; n])) as [[|]|] eqn:Hp; [done| |done].
    apply Hent in Hp. unfold sel_ready_entry in Hp. simpl in Hp.
    rewrite forallb_forall in Hp. specialize (Hp s).
    rewrite <-list_elem_of_In in Hp. specialize (Hp Hs).
    rewrite snoc2 in Hp. destruct Hd as [-> | ->].
    - by rewrite child_name_app in Hp.
    - rewrite (child_name_app (O ++ [s])) in Hp.
      by destruct (child_name (U ++ [s]) ((O ++ [s]) ++ [n])). }
  assert (∀ p, is_file f p = true →
            ¬ p `prefix_of` O ∧ ∀ s, s ∈ styles → p ≠ O ++ [s]) as Hfile.
  { intros p Hp. unfold is_file in Hp.
    destruct (f !! p) as [[data|]|] eqn:Hl; [|done..].
    apply Hent in Hl. unfold sel_ready_entry in Hl. simpl in Hl.
    apply andb_true_iff in Hl as [H1 H2].
    apply negb_true_iff, bool_decide_eq_false in H1. split; [done|].
    intros s Hs. rewrite forallb_forall in H2. specialize (H2 s).
    rewrite <-list_elem_of_In in H2.
    by apply H2, negb_true_iff, bool_decide_eq_false in Hs. }
  split; [split; [split|]|split]; try done.
  - intros s n Hs. apply Hflat; auto.
  - intros q Hq. destruct (is_file f q) eqn:Hf; [|done].
    by apply Hfile in Hf as [? _].
  - intros s Hs. destruct (is_file f (O ++ [s])) eqn:Hf; [|done].
    apply Hfile in Hf as [_ Hf]. by destruct (Hf s Hs).
  - intros s n Hs. apply Hflat; auto.
Qed.

(** ** The Selector: a dry run *)

Lemma code_body_dry_log (U O : path) (s code : string) (acc : bool) (w : world) :
  copy_schmoji.code_body (U ++ [s]) (O ++ [s]) true acc code w =
  Return (acc || sel_code_missing (w_fs w) U s code)
         (World (w_fs w) (w_out w ++ sel_code_dry_log (w_fs w) U O s code)).
Proof.
  rewrite code_body_dry. unfold sel_code_missing, sel_code_dry_log.
  destruct (copy_schmoji.chosen (w_fs w) (U ++ [s]) code) as [pref|].
  - rewrite orb_false_r. do 4 f_equal.
    + apply list_fmap_ext. intros _ old _. by rewrite snoc2.
    + by rewrite <-!snoc2.
  - by rewrite orb_true_r.
Qed.

Lemma codes_loop_dry (U O : path) (s : string) (codes : list string)
    (acc : bool) (w : world) :
  for_each codes (copy_schmoji.code_body (U ++ [s]) (O ++ [s]) true) acc w =
  Return (acc || existsb (sel_code_missing (w_fs w) U s) codes)
         (World (w_fs w)
            (w_out w ++ concat (sel_code_dry_log (w_fs w) U O s <$> codes))).
Proof.
  revert acc w. induction codes as [|code codes IH]; intros acc [f out]; simpl.
  - by rewrite orb_false_r, app_nil_r.
  - unfold bind. rewrite code_body_dry_log. simpl. rewrite IH. simpl.
    by rewrite <-(app_assoc out), orb_assoc.
Qed.

Lemma style_body_dry (U O : path) (codes : list string) (s : string)
    (acc : bool) (w : world) :
  copy_schmoji.style_body U O codes true acc s w =
  Return (acc || sel_style_missing (w_fs w) U codes s)
         (World (w_fs w) (w_out w ++ sel_style_dry_log (w_fs w) U O codes s)).
Proof.
  destruct w as [f out].
  unfold copy_schmoji.style_body, sel_style_missing, sel_style_dry_log.
  unfold bind at 1, get_fs. simpl.
  destruct (exists_ f (U ++ [s])); simpl.
  - unfold bind, ret. by rewrite codes_loop_dry.
  - by rewrite orb_true_r.
Qed.

Lemma styles_loop_dry (U O : path) (codes styles : list string)
    (acc : bool) (w : world) :
  for_each styles (copy_schmoji.style_body U O codes true) acc w =
  Return (acc || existsb (sel_style_missing (w_fs w) U codes) styles)
         (World (w_fs w)
            (w_out w ++ concat (sel_style_dry_log (w_fs w) U O codes <$> styles))).
Proof.
  revert acc w. induction styles as [|s styles IH]; intros acc [f out]; simpl.
  - by rewrite orb_false_r, app_nil_r.
  - unfold bind. rewrite style_body_dry. simpl. rewrite IH. simpl.
    by rewrite <-(app_assoc out), orb_assoc.
Qed.

(** A dry run returns, leaves the file system alone and prints
    [sel_run_dry_log]. *)
Lemma copy_matches_dry (U O : path) (styles codes : list string) (w : world) :
  copy_schmoji.copy_matches U O styles codes true w =
  Return () (World (w_fs w)
               (w_out w ++ sel_run_dry_log (w_fs w) U O styles codes)).
Proof.
  unfold copy_schmoji.copy_matches, bind. rewrite styles_loop_dry. simpl.
  unfold sel_run_dry_log.
  destruct (existsb (sel_style_missing (w_fs w) U codes) styles); unfold print, ret; simpl.
  - by rewrite <-app_assoc.
  - by rewrite app_nil_r.
Qed.

(** ** The Selector: what a run does to one destination entry *)

Section effect_at.
Context (U O : path) (f : fs).

Lemma style_effect_other (codes : list string) (s S n : string) :
  s ≠ S → sel_style_effect f U O codes s (O ++ [S; n]) = None.
Proof.
  intros Hne. unfold sel_style_effect.
  destruct (exists_ f (U ++ [s])); [|done].
  unfold eff_seq.
  assert (sel_codes_effect f U O s codes (O ++ [S; n]) = None) as ->.
  { apply eff_list_none. intros e (c & -> & _)%list_elem_of_fmap.
    unfold sel_code_effect.
    destruct (copy_schmoji.chosen f (U ++ [s]) c) as [pref|]; [|done].
    rewrite decide_False.
    2:{ rewrite !snoc2. intros [[_ ?]%snoc_inj _]%snoc_inj. done. }
    destruct (child_name (O ++ [s]) (O ++ [S; n])) as [n'|] eqn:Hc; [|done].
    apply child_name_Some in Hc. rewrite snoc2 in Hc.
    apply snoc_inj in Hc as [[_ ?]%snoc_inj _]. congruence. }
  unfold mkdir_effect. rewrite bool_decide_false; [done|].
  intros Hl%prefix_length. rewrite !length_app in Hl. simpl in Hl. lia.
Qed.

Lemma style_effect_same (codes : list string) (S n : string) :
  exists_ f (U ++ [S]) = true →
  sel_style_effect f U O codes S (O ++ [S; n]) =
  sel_codes_effect f U O S codes (O ++ [S; n]).
Proof.
  intros Hex. unfold sel_style_effect. rewrite Hex. unfold eff_seq.
  destruct (sel_codes_effect f U O S codes (O ++ [S; n])); [done|].
  unfold mkdir_effect. rewrite bool_decide_false; [done|].
  intros Hl%prefix_length. rewrite !length_app in Hl. simpl in Hl. lia.
Qed.

(** If every requested code that touches the entry [n] of style [S]
    sets it to [v], and the code [C] does, the run sets it to [v]. *)
Lemma sel_run_effect_at (styles codes : list string) (S C n : string) v :
  S ∈ styles → C ∈ codes →
  exists_ f (U ++ [S]) = true →
  (∀ c, c ∈ codes →
        sel_code_effect f U O S c (O ++ [S; n]) = None ∨
        sel_code_effect f U O S c (O ++ [S; n]) = Some v) →
  sel_code_effect f U O S C (O ++ [S; n]) = Some v →
  sel_run_effect f U O styles codes (O ++ [S; n]) = Some v.
Proof.
  intros HS HC Hex Hall HCv.
  assert (sel_codes_effect f U O S codes (O ++ [S; n]) = Some v) as Hcodes.
  { apply eff_list_last.
    - intros e (c & -> & Hc)%list_elem_of_fmap. by apply Hall.
    - exists (sel_code_effect f U O S C). split; [|done].
      apply list_elem_of_fmap. by exists C. }
  apply eff_list_last.
  - intros e (s & -> & Hs)%list_elem_of_fmap.
    destruct (decide (s = S)) as [->|Hne].
    + right. by rewrite style_effect_same.
    + left. by apply style_effect_other.
  - exists (sel_style_effect f U O codes S). split.
    + apply list_elem_of_fmap. by exists S.
    + by rewrite style_effect_same.
Qed.

Lemma chosen_exists (S C pref : string) :
  copy_schmoji.chosen f (U ++ [S]) C = Some pref → exists_ f (U ++ [S]) = true.
Proof.
  intros (Hd & _ & _)%chosen_is_candidate%elem_of_glob.
  unfold is_dir in Hd. unfold exists_. by destruct (f !! (U ++ [S])).
Qed.

(** The step of [C] on an entry [C ++ e]. *)
Lemma code_effect_own (S C pref e : string) :
  copy_schmoji.chosen f (U ++ [S]) C = Some pref →
  is_prefix "." e →
  sel_code_effect f U O S C (O ++ [S; C +:+ e]) =
  Some (if decide (e = suffix pref) then f !! (U ++ [S; pref]) else None).
Proof.
  intros Hch [b ->]. unfold sel_code_effect. rewrite Hch.
  case_decide as Hp.
  - rewrite !snoc2 in Hp. apply snoc_inj in Hp as [_ Hp].
    apply str_app_inv_head in Hp. by rewrite decide_True.
  - rewrite decide_False; [|intros Heq; apply Hp; by rewrite Heq].
    rewrite snoc2, child_name_app.
    assert (fnmatch (pat_any C) (C +:+ "." +:+ b) = true) as ->; [|done].
    apply fnmatch_pat_any. by exists "", b.
Qed.

(** The step of another code on that entry: none, unless that code is
    a prefix of [C]. *)
Lemma code_effect_foreign (S C c e : string) :
  dotfree c → dotfree C → dotinit e → ¬ is_prefix c C →
  sel_code_effect f U O S c (O ++ [S; C +:+ e]) = None.
Proof.
  intros Hc HC He Hnp. unfold sel_code_effect.
  destruct (copy_schmoji.chosen f (U ++ [S]) c) as [pref|]; [|done].
  rewrite decide_False.
  2:{ rewrite !snoc2. intros [_ Heq]%snoc_inj.
      apply stem_inj in Heq; [|done|done|done|apply suffix_dotinit].
      subst c. apply Hnp, is_prefix_refl. }
  rewrite snoc2, child_name_app.
  destruct (fnmatch (pat_any c) (C +:+ e)) eqn:Hm; [|done].
  apply fnmatch_pat_any in Hm as (a & b & Hm). destruct Hnp.
  apply (prefix_of_stem c C e); [done..|]. by exists (a +:+ "." +:+ b).
Qed.

(** The codes are processed in order: on an entry [C ++ e] the step of
    [C] stands when no code processed after it is a proper prefix of
    [C], whatever the codes processed before it. *)
Lemma sel_run_effect_ordered (styles before after : list string)
    (S C e : string) v :
  S ∈ styles →
  exists_ f (U ++ [S]) = true →
  dotfree C → Forall dotfree after → dotinit e →
  (∀ c, c ∈ after → is_prefix c C → c = C) →
  sel_code_effect f U O S C (O ++ [S; C +:+ e]) = Some v →
  sel_run_effect f U O styles (before ++ C :: after) (O ++ [S; C +:+ e]) = Some v.
Proof.
  intros HS Hex HC Hafter He Hnopre HCv.
  assert (sel_codes_effect f U O S (before ++ C :: after) (O ++ [S; C +:+ e]) = Some v)
    as Hcodes.
  { unfold sel_codes_effect. rewrite fmap_app, eff_list_app, fmap_cons.
    assert (eff_list (sel_code_effect f U O S C :: (sel_code_effect f U O S <$> after))
              (O ++ [S; C +:+ e]) = Some v) as ->; [|done].
    apply eff_list_last.
    - intros e0 [->|(c & -> & Hc)%list_elem_of_fmap]%elem_of_cons; [by right|].
      destruct (decide (c = C)) as [->|Hne]; [by right|left].
      apply code_effect_foreign; try done.
      + by eapply Forall_forall in Hafter.
      + intros Hp. by apply Hne, Hnopre.
    - exists (sel_code_effect f U O S C). split; [left|done]. }
  apply eff_list_last.
  - intros e0 (s & -> & Hs)%list_elem_of_fmap.
    destruct (decide (s = S)) as [->|Hne].
    + right. by rewrite style_effect_same.
    + left. by apply style_effect_other.
  - exists (sel_style_effect f U O (before ++ C :: after) S). split.
    + apply list_elem_of_fmap. by exists S.
    + by rewrite style_effect_same.
Qed.

(** What a run leaves at the entries [C ++ e] of a style: the chosen
    file at the chosen extension, nothing at any other. *)
Lemma sel_run_effect_own (styles before after : list string)
    (S C pref : string) :
  S ∈ styles →
  dotfree C → Forall dotfree after →
  (∀ c, c ∈ after → is_prefix c C → c = C) →
  copy_schmoji.chosen f (U ++ [S]) C = Some pref →
  sel_run_effect f U O styles (before ++ C :: after)
    (O ++ [S; C +:+ suffix pref]) = Some (f !! (U ++ [S; pref])) ∧
  ∀ ext1, is_prefix "." ext1 → ext1 ≠ suffix pref →
    sel_run_effect f U O styles (before ++ C :: after)
      (O ++ [S; C +:+ ext1]) = Some None.
Proof.
  intros HS HC Hafter Hnopre Hch.
  pose proof (chosen_exists S C pref Hch) as Hex.
  split.
  - apply sel_run_effect_ordered; try done; [apply suffix_dotinit|].
    unfold sel_code_effect. by rewrite Hch, decide_True.
  - intros ext1 Hdot Hne.
    apply sel_run_effect_ordered; try done.
    + destruct Hdot as [b ->]. right. by exists b.
    + rewrite (code_effect_own S C pref ext1 Hch Hdot). by rewrite decide_False.
Qed.

End effect_at.

(** ** The Selector: the claims *)

(** C5.  Running the Selector a second time with the same source tree,
    styles and codes leaves the file system exactly as the first run
    left it: the same paths, the same contents, nothing added.  The
    codes are plain file-name stems ([code_ok]: no glob metacharacter,
    no separator, no dot), as the model takes a code literally in a
    pattern and as one path component.  In a dry run neither run
    writes; a real run is taken from a tree in which source and
    destination are apart and the style directories hold regular files
    only, and then both runs return. *)
Theorem selector_idempotent (U O : path) (styles codes : list string)
    (dry_run : bool) (w : world) :
  Forall code_ok codes →
  dry_run = true ∨ sel_ready U O styles (w_fs w) →
  ∃ w1 w2,
    copy_schmoji.copy_matches U O styles codes dry_run w = Return () w1 ∧
    copy_schmoji.copy_matches U O styles codes dry_run w1 = Return () w2 ∧
    w_fs w2 = w_fs w1.
Proof.
  intros _ H. destruct dry_run.
  { eexists _, _. by rewrite !copy_matches_dry. }
  destruct H as [?|[Hpre Hinv]]; [done|].
  - destruct (copy_matches_real U O styles (w_fs w) Hpre codes w Hinv)
      as (f1 & Hrun1 & Happ1 & Hinv1).
    destruct (copy_matches_real U O styles (w_fs w) Hpre codes
                (World f1 (w_out w ++ sel_run_log (w_fs w) U O styles codes)) Hinv1)
      as (f2 & Hrun2 & Happ2 & _).
    eexists _, _. split_and!; [exact Hrun1|exact Hrun2|]. simpl.
    by eapply applies_idem.
Qed.

Lemma selector_idempotent_witness :
  ∃ w1 w2,
    copy_schmoji.copy_matches ex_unicode ex_out ["Color"; "3D"]
      ["1f954"; "26f8"; "ffffff"] false (World ex_fs []) = Return () w1 ∧
    copy_schmoji.copy_matches ex_unicode ex_out ["Color"; "3D"]
      ["1f954"; "26f8"; "ffffff"] false w1 = Return () w2 ∧
    w_fs w2 = w_fs w1.
Proof.
  apply (selector_idempotent ex_unicode ex_out ["Color"; "3D"]
           ["1f954"; "26f8"; "ffffff"] false (World ex_fs [])).
  - repeat first [done | constructor].
  - right. apply sel_ready_sound. vm_compute. reflexivity.
Defined.

(** C1.  Let [code] be a plain file-name stem ([code_ok]).  When at
    least one file of the style directory matches [<code>*.*], the
    Selector chooses exactly one source file [pref]: the first, in sorted
    order, of the files matching [<code>.*] when there is one; else the
    first of those matching [<code> fe0f.*] when there is one; else the
    first of all the candidates.  It is the file the loop body works on:
    in a dry run it reports the copy of [pref] to [<code><suffix>]; in a
    real run, from a tree a run may start from and with the destination
    style directory made, it returns, reports that copy, and the
    destination [<code><suffix>] holds the contents of [pref].  In
    particular, with [26f8.svg] and [26f8 fe0f.png] as the files of code
    [26f8] under [Color], the chosen file is [26f8.svg]. *)
Theorem selector_preference :
  (∀ (f : fs) (d : path) (code : string),
     code_ok code →
     (∃ n, n ∈ glob f d (pat_any code)) →
     ∃ pref,
       copy_schmoji.chosen f d code = Some pref ∧
       pref ∈ glob f d (pat_any code) ∧
       ((∃ n, n ∈ glob f d (pat_exact code)) →
        pref ∈ glob f d (pat_exact code) ∧
        ∀ n, n ∈ glob f d (pat_exact code) → String.le pref n) ∧
       ((∀ n, n ∉ glob f d (pat_exact code)) →
        (∃ n, n ∈ glob f d (pat_fe0f code)) →
        pref ∈ glob f d (pat_fe0f code) ∧
        ∀ n, n ∈ glob f d (pat_fe0f code) → String.le pref n) ∧
       ((∀ n, n ∉ glob f d (pat_exact code)) →
        (∀ n, n ∉ glob f d (pat_fe0f code)) →
        ∀ n, n ∈ glob f d (pat_any code) → String.le pref n) ∧
       (∀ (dst : path) (acc : bool) (w : world),
          w_fs w = f →
          ∃ w', copy_schmoji.code_body d dst true acc code w = Return acc w' ∧
                last (w_out w') =
                  Some (DryRunCopy (d ++ [pref]) (dst ++ [code +:+ suffix pref]))) ∧
       (∀ (U O : path) (s : string) (acc : bool) (w : world),
          d = U ++ [s] → w_fs w = f →
          sel_ready U O [s] f →
          is_dir f (O ++ [s]) = true →
          ∃ w' data,
            copy_schmoji.code_body d (O ++ [s]) false acc code w = Return acc w' ∧
            last (w_out w') =
              Some (Copied (d ++ [pref]) (O ++ [s; code +:+ suffix pref])) ∧
            f !! (d ++ [pref]) = Some (File data) ∧
            w_fs w' !! (O ++ [s; code +:+ suffix pref]) = Some (File data))) ∧
  (∀ (f : fs) (U : path),
     is_dir f (U ++ ["Color"]) = true →
     is_Some (f !! (U ++ ["Color"; "26f8.svg"])) →
     is_Some (f !! (U ++ ["Color"; "26f8 fe0f.png"])) →
     (∀ n, is_Some (f !! (U ++ ["Color"; n])) →
           fnmatch (pat_any "26f8") n = true →
           n = "26f8.svg" ∨ n = "26f8 fe0f.png") →
     copy_schmoji.chosen f (U ++ ["Color"]) "26f8" = Some "26f8.svg").
Proof.
  assert (∀ (f : fs) (d : path) (code : string),
     (∃ n, n ∈ glob f d (pat_any code)) →
     ∃ pref,
       copy_schmoji.chosen f d code = Some pref ∧
       pref ∈ glob f d (pat_any code) ∧
       ((∃ n, n ∈ glob f d (pat_exact code)) →
        pref ∈ glob f d (pat_exact code) ∧
        ∀ n, n ∈ glob f d (pat_exact code) → String.le pref n) ∧
       ((∀ n, n ∉ glob f d (pat_exact code)) →
        (∃ n, n ∈ glob f d (pat_fe0f code)) →
        pref ∈ glob f d (pat_fe0f code) ∧
        ∀ n, n ∈ glob f d (pat_fe0f code) → String.le pref n) ∧
       ((∀ n, n ∉ glob f d (pat_exact code)) →
        (∀ n, n ∉ glob f d (pat_fe0f code)) →
        ∀ n, n ∈ glob f d (pat_any code) → String.le pref n)) as Hgen.
  { intros f d code Hex.
    destruct (chosen_Some_candidates f d code Hex) as [pref Hch].
    exists pref. split; [done|]. split; [by apply chosen_is_candidate|].
    pose proof (chosen_cases f d code) as Hc. rewrite Hch in Hc.
    destruct (sorted (glob f d (pat_exact code))) as [|x xs] eqn:Hx.
    - rewrite sorted_glob_nil in Hx.
      destruct (sorted (glob f d (pat_fe0f code))) as [|y ys] eqn:Hy.
      + rewrite sorted_glob_nil in Hy.
        destruct (sorted (glob f d (pat_any code))) as [|z zs] eqn:Hz; [done|].
        subst z. apply sorted_head in Hz as [_ Hmin].
        split_and!; [by intros [n ?%Hx]|by intros _ [n ?%Hy]|done].
      + subst y. apply sorted_head in Hy as [Hin Hmin].
        split_and!; [by intros [n ?%Hx]|done|].
        intros _ Hno. by destruct (Hno pref).
    - subst x. apply sorted_head in Hx as [Hin Hmin].
      split_and!; [done|intros Hno; by destruct (Hno pref)..]. }
  split.
  - intros f d code _ Hex.
    destruct (Hgen f d code Hex) as (pref & Hch & H1 & H2 & H3 & H4).
    exists pref. split_and!; try done.
    + intros dst acc w <-. rewrite code_body_dry, Hch. eexists. split; [done|].
      simpl. by rewrite !app_assoc, last_snoc.
    + intros U O s acc w -> <- [Hpre Hinv] Hdir.
      assert (s ∈ [s]) as Hs by left.
      destruct (code_body_real U O [s] (w_fs w) Hpre s code acc w Hs Hinv Hdir)
        as (f' & Hrun & Happ).
      destruct (chosen_is_file U O [s] (w_fs w) Hpre s code pref Hs Hch)
        as [data Hdata].
      unfold sel_code_missing, sel_code_msg in Hrun. rewrite Hch in Hrun.
      exists (World f' (w_out w ++
                [Copied (U ++ [s; pref]) (O ++ [s; code +:+ suffix pref])])), data.
      split_and!.
      * exact Hrun.
      * simpl. by rewrite last_snoc, <-snoc2.
      * by rewrite <-snoc2.
      * simpl. rewrite (Happ _). unfold sel_code_effect.
        by rewrite Hch, decide_True.
  - intros f U Hdir Hsvg Hpng Honly.
    assert ("26f8.svg" ∈ glob f (U ++ ["Color"]) (pat_exact "26f8")) as Hin.
    { apply elem_of_glob. rewrite <-snoc2. done. }
    destruct (Hgen f (U ++ ["Color"]) "26f8") as (pref & Hch & _ & [Hp _] & _).
    { exists "26f8.svg". by apply glob_exact_any. }
    { by exists "26f8.svg". }
    rewrite Hch. f_equal.
    pose proof Hp as Hp'. apply glob_exact_any in Hp'.
    apply elem_of_glob in Hp as (_ & _ & Hm). apply elem_of_glob in Hp' as (_ & Hs & Hm').
    rewrite <-snoc2 in Hs. destruct (Honly pref Hs Hm') as [->| ->]; [done|].
    by vm_compute in Hm.
Qed.

Lemma selector_preference_witness :
  ∃ pref w' data,
    copy_schmoji.chosen ex_fs (ex_unicode ++ ["Color"]) "26f8" = Some pref ∧
    pref ∈ glob ex_fs (ex_unicode ++ ["Color"]) (pat_exact "26f8") ∧
    copy_schmoji.code_body (ex_unicode ++ ["Color"]) (ex_out ++ ["Color"]) false
      false "26f8" (World ex_fs []) = Return false w' ∧
    ex_fs !! ((ex_unicode ++ ["Color"]) ++ [pref]) = Some (File data) ∧
    w_fs w' !! (ex_out ++ ["Color"; "26f8" +:+ suffix pref]) = Some (File data).
Proof.
  destruct selector_preference as [Hgen _].
  destruct (Hgen ex_fs (ex_unicode ++ ["Color"]) "26f8")
    as (pref & Hch & _ & Hexact & _ & _ & _ & Hreal).
  { split; [discriminate|]. repeat constructor. }
  { exists "26f8.svg". apply elem_of_glob. vm_compute. eauto. }
  destruct (Hreal ex_unicode ex_out "Color" false (World ex_fs []) eq_refl eq_refl)
    as (w' & data & Hrun & _ & Hsrc & Hdst).
  { apply sel_ready_sound. vm_compute. reflexivity. }
  { vm_compute. reflexivity. }
  exists pref, w', data. split; [exact Hch|]. split.
  - apply Hexact. exists "26f8.svg". apply elem_of_glob. vm_compute. eauto.
  - split; [exact Hrun|]. split; [exact Hsrc|exact Hdst].
Defined.

(** C4, as stated, fails when a code requested after the code is a
    prefix of it: with the codes [1f40b] and [1f40], in this order, the
    source file of [1f40b] changes from [1f40b.png] to [1f40b.svg]
    between two runs, and after the second run there is no file at
    [Color/1f40b.svg]: the later step of [1f40] removed it, as a match
    of [1f40*.*]. *)
Lemma selector_extension_change_counterexample :
  copy_schmoji.chosen ex_fs_prefix (ex_unicode ++ ["Color"]) "1f40b"
    = Some "1f40b.png" ∧
  copy_schmoji.chosen ex_fs_changed (ex_unicode ++ ["Color"]) "1f40b"
    = Some "1f40b.svg" ∧
  ∃ w2,
    copy_schmoji.copy_matches ex_unicode ex_out ["Color"] ["1f40b"; "1f40"]
      false (World ex_fs_changed []) = Return () w2 ∧
    w_fs w2 !! (ex_out ++ ["Color"; "1f40b.svg"]) = None ∧
    w_fs w2 !! (ex_out ++ ["Color"; "1f40b.png"]) = None.
Proof.
  split; [by vm_compute|]. split; [by vm_compute|].
  eexists. split; [by vm_compute|]. split; by vm_compute.
Qed.

(** C4, amended.  Let the codes be free of dots, separators and glob
    metacharacters, and let no code requested after [C] be a proper
    prefix of [C]; the codes requested before [C] are arbitrary.
    Whatever an earlier run left in the destination, if the file now
    chosen for [C] in style [S] is [pref], with extension [suffix pref],
    a run returns and leaves the chosen file's contents at
    [<S>/<C><suffix pref>] and no file at [<S>/<C><ext1>] for any other
    extension [ext1]. *)
Theorem selector_extension_change (U O : path) (styles before after : list string)
    (S C pref : string) (w : world) :
  sel_ready U O styles (w_fs w) →
  S ∈ styles →
  Forall code_ok (before ++ C :: after) →
  (∀ c, c ∈ after → is_prefix c C → c = C) →
  copy_schmoji.chosen (w_fs w) (U ++ [S]) C = Some pref →
  ∃ w',
    copy_schmoji.copy_matches U O styles (before ++ C :: after) false w
      = Return () w' ∧
    (∃ data, w_fs w !! (U ++ [S; pref]) = Some (File data) ∧
             w_fs w' !! (O ++ [S; C +:+ suffix pref]) = Some (File data)) ∧
    (∀ ext1, is_prefix "." ext1 → ext1 ≠ suffix pref →
             w_fs w' !! (O ++ [S; C +:+ ext1]) = None).
Proof.
  intros [Hpre Hinv] HS Hok Hnopre Hch.
  destruct (copy_matches_real U O styles (w_fs w) Hpre (before ++ C :: after) w Hinv)
    as (f' & Hrun & Happ & _).
  apply Forall_app in Hok as [_ Hok].
  inversion Hok as [|? ? HC Hafter]; subst.
  destruct (sel_run_effect_own U O (w_fs w) styles before after S C pref HS)
    as [Hown Hother]; [by apply code_ok_dotfree| |done..|].
  { eapply Forall_impl; [exact Hafter|]. intros c. apply code_ok_dotfree. }
  eexists. split; [exact Hrun|]. simpl. split.
  - destruct (chosen_is_file U O styles (w_fs w) Hpre S C pref HS Hch) as [data Hdata].
    exists data. split; [done|]. by rewrite (Happ _), Hown.
  - intros ext1 Hdot Hne. by rewrite (Happ _), (Hother ext1 Hdot Hne).
Qed.

Lemma selector_extension_change_witness :
  ex_fs_reordered !! (ex_out ++ ["Color"; "1f40b.png"]) = Some (File "png of 1f40b") ∧
  ∃ w',
    copy_schmoji.copy_matches ex_unicode ex_out ["Color"] (["1f40"] ++ "1f40b" :: [])
      false (World ex_fs_reordered []) = Return () w' ∧
    (∃ data, ex_fs_reordered !! (ex_unicode ++ ["Color"; "1f40b.svg"])
               = Some (File data) ∧
             w_fs w' !! (ex_out ++ ["Color"; "1f40b" +:+ suffix "1f40b.svg"])
               = Some (File data)) ∧
    (∀ ext1, is_prefix "." ext1 → ext1 ≠ suffix "1f40b.svg" →
             w_fs w' !! (ex_out ++ ["Color"; "1f40b" +:+ ext1]) = None).
Proof.
  split; [vm_compute; reflexivity|].
  apply (selector_extension_change ex_unicode ex_out ["Color"] ["1f40"] []
           "Color" "1f40b" "1f40b.svg" (World ex_fs_reordered [])).
  - apply sel_ready_sound. vm_compute. reflexivity.
  - left.
  - repeat first [done | constructor].
  - intros c Hc. by apply elem_of_nil in Hc.
  - vm_compute. reflexivity.
Defined.

(** C10.  Let [C] be a proper prefix of the code [C'].  A file
    [C'.<ext>] matches the pattern [<C>*.*] of [C]; so in the source
    style directory it is among the candidates of [C], and a run for
    [C] removes a destination file [C'.<ext>] it finds, a file that
    belongs to [C'].  In the example tree, requesting [1f40b] and then
    [1f40] leaves no [1f40b.png] in the destination (deleted) and puts
    the picture of [1f40b] at [1f40.png] (shadowed). *)
Theorem selector_prefix_codes :
  (∀ (C C' ext : string),
     is_prefix C C' → fnmatch (pat_any C) (C' +:+ "." +:+ ext) = true) ∧
  (∀ (f : fs) (d : path) (C C' ext : string),
     is_prefix C C' → is_dir f d = true →
     is_Some (f !! (d ++ [C' +:+ "." +:+ ext])) →
     C' +:+ "." +:+ ext ∈ sorted (glob f d (pat_any C))) ∧
  (∀ (U O : path) (styles : list string) (S C C' ext pref : string) (w : world),
     sel_ready U O styles (w_fs w) →
     S ∈ styles → code_ok C' → is_prefix C C' → C ≠ C' →
     copy_schmoji.chosen (w_fs w) (U ++ [S]) C = Some pref →
     ∃ w', copy_schmoji.copy_matches U O styles [C] false w = Return () w' ∧
           w_fs w' !! (O ++ [S; C' +:+ "." +:+ ext]) = None) ∧
  (∃ w', copy_schmoji.copy_matches ex_unicode ex_out ["Color"] ["1f40b"; "1f40"]
           false (World ex_fs []) = Return () w' ∧
         ex_fs !! (ex_out ++ ["Color"; "1f40b.png"]) = Some (File "png of 1f40b") ∧
         w_fs w' !! (ex_out ++ ["Color"; "1f40b.png"]) = None ∧
         w_fs w' !! (ex_out ++ ["Color"; "1f40.png"]) = Some (File "png of 1f40b")).
Proof.
  assert (∀ (C C' ext : string),
     is_prefix C C' → fnmatch (pat_any C) (C' +:+ "." +:+ ext) = true) as Hmatch.
  { intros C C' ext [r ->]. apply fnmatch_pat_any. exists r, ext.
    by rewrite app_assoc_str. }
  split_and!.
  - exact Hmatch.
  - intros f d C C' ext Hp Hd Hex. apply elem_of_sorted, elem_of_glob. auto.
  - intros U O styles S C C' ext pref w [Hpre Hinv] HS Hok [r ->] Hne Hch.
    destruct (copy_matches_real U O styles (w_fs w) Hpre [C] w Hinv)
      as (f' & Hrun & Happ & _).
    eexists. split; [exact Hrun|]. simpl.
    assert (sel_code_effect (w_fs w) U O S C (O ++ [S; (C +:+ r) +:+ "." +:+ ext])
            = Some None) as Heff.
    { unfold sel_code_effect. rewrite Hch.
      rewrite decide_False.
      - by rewrite snoc2, child_name_app, Hmatch by (by exists r).
      - rewrite !snoc2. intros [_ Heq]%snoc_inj.
        rewrite app_assoc_str in Heq. apply str_app_inv_head in Heq.
        destruct r as [|h r]; [by rewrite app_empty_r in Hne|].
        apply code_ok_dotfree, dotfree_app in Hok as [_ [Hh _]%dotfree_cons].
        pose proof (suffix_dotinit pref) as Hs. rewrite <-Heq, app_cons in Hs.
        by apply dotinit_cons in Hs. }
    rewrite (Happ _).
    rewrite (sel_run_effect_at U O (w_fs w) styles [C] S C _ None); try done.
    + left.
    + by eapply chosen_exists.
    + intros c ->%list_elem_of_singleton. by right.
  - eexists. split; [by vm_compute|]. split_and!; by vm_compute.
Qed.

Lemma selector_prefix_codes_witness :
  ∃ w', copy_schmoji.copy_matches ex_unicode ex_out ["Color"] ["1f40"] false
          (World ex_fs []) = Return () w' ∧
        w_fs w' !! (ex_out ++ ["Color"; "1f40b" +:+ "." +:+ "png"]) = None.
Proof.
  destruct selector_prefix_codes as (_ & _ & Hrun & _).
  apply (Hrun ex_unicode ex_out ["Color"] "Color" "1f40" "1f40b" "png"
           "1f40b.png" (World ex_fs [])).
  - apply sel_ready_sound. vm_compute. reflexivity.
  - left.
  - split; [discriminate|]. repeat constructor.
  - exists "b". reflexivity.
  - discriminate.
  - vm_compute. reflexivity.
Defined.

(** ** The Selector: [main] *)

Lemma selector_main_no_root (a : copy_schmoji.args) (w : world) :
  exists_ (w_fs w) (copy_schmoji.a_root a) = false →
  copy_schmoji.main a w =
  Raise (SystemExit 1)
        (World (w_fs w) (w_out w ++ [PathNotFound (copy_schmoji.a_root a)])).
Proof.
  intros H. unfold copy_schmoji.main. unfold bind at 1, get_fs. by rewrite H.
Qed.

Lemma selector_main_no_unicode (a : copy_schmoji.args) (w : world) :
  exists_ (w_fs w) (copy_schmoji.a_root a) = true →
  exists_ (w_fs w) (copy_schmoji.unicode_root_of (w_fs w) a) = false →
  copy_schmoji.main a w =
  Raise (SystemExit 1)
        (World (w_fs w)
           (w_out w ++
            [UnicodeRootNotFound (copy_schmoji.unicode_root_of (w_fs w) a)])).
Proof.
  intros H1 H2. unfold copy_schmoji.main. unfold bind at 1, get_fs.
  by rewrite H1, H2.
Qed.

Lemma selector_main_run (a : copy_schmoji.args) (w : world) :
  exists_ (w_fs w) (copy_schmoji.a_root a) = true →
  exists_ (w_fs w) (copy_schmoji.unicode_root_of (w_fs w) a) = true →
  copy_schmoji.main a w =
  copy_schmoji.copy_matches
    (copy_schmoji.unicode_root_of (w_fs w) a)
    (copy_schmoji.out_root_of (w_fs w) a)
    (copy_schmoji.parse_styles (copy_schmoji.a_styles a))
    (copy_schmoji.codes_of a)
    (copy_schmoji.a_dry_run a)
    (World (w_fs w)
       (w_out w ++
        [UsingUnicodeRoot (copy_schmoji.unicode_root_of (w_fs w) a);
         WritingTo (copy_schmoji.out_root_of (w_fs w) a);
         Styles (copy_schmoji.parse_styles (copy_schmoji.a_styles a));
         Codes (length (copy_schmoji.codes_of a))])).
Proof.
  intros H1 H2. unfold copy_schmoji.main. unfold bind at 1, get_fs.
  rewrite H1, H2. simpl. unfold bind, print. simpl.
  by rewrite <-!app_assoc.
Qed.

(** ** The Selector: what the logs hold *)

Lemma existsb_elem {A} (P : A → bool) (l : list A) (x : A) :
  x ∈ l → P x = true → existsb P l = true.
Proof.
  intros Hx HP. apply existsb_exists. exists x. split; [|done].
  by apply list_elem_of_In.
Qed.

Lemma style_missing_code (f : fs) (U : path) (codes : list string) (s code : string) :
  code ∈ codes → copy_schmoji.chosen f (U ++ [s]) code = None →
  sel_style_missing f U codes s = true.
Proof.
  intros Hc Hch. unfold sel_style_missing. apply orb_true_iff. right.
  apply (existsb_elem _ _ code Hc). unfold sel_code_missing. by rewrite Hch.
Qed.

Lemma elem_of_concat_fmap {A B} (g : A → list B) (l : list A) (x : A) (y : B) :
  x ∈ l → y ∈ g x → y ∈ concat (g <$> l).
Proof.
  intros Hx Hy. induction l as [|a l IH]; simpl.
  - by apply elem_of_nil in Hx.
  - apply elem_of_app. apply elem_of_cons in Hx as [->|Hx]; auto.
Qed.

Lemma sel_run_log_code (f : fs) (U O : path) (styles codes : list string)
    (s code : string) :
  s ∈ styles → code ∈ codes → exists_ f (U ++ [s]) = true →
  sel_code_msg f U O s code ∈ sel_run_log f U O styles codes.
Proof.
  intros Hs Hc Hex. unfold sel_run_log. apply elem_of_app. left.
  apply (elem_of_concat_fmap _ _ s); [done|].
  unfold sel_style_log. rewrite Hex. apply list_elem_of_fmap. by exists code.
Qed.

Lemma sel_run_dry_log_code (f : fs) (U O : path) (styles codes : list string)
    (s code : string) (m : msg) :
  s ∈ styles → code ∈ codes → exists_ f (U ++ [s]) = true →
  m ∈ sel_code_dry_log f U O s code →
  m ∈ sel_run_dry_log f U O styles codes.
Proof.
  intros Hs Hc Hex Hm. unfold sel_run_dry_log. apply elem_of_app. left.
  apply (elem_of_concat_fmap _ _ s); [done|].
  unfold sel_style_dry_log. rewrite Hex.
  by apply (elem_of_concat_fmap _ _ code).
Qed.

Lemma sel_run_log_last (f : fs) (U O : path) (styles codes : list string)
    (s : string) (out : list msg) :
  s ∈ styles → sel_style_missing f U codes s = true →
  last (out ++ sel_run_log f U O styles codes) = Some SomeAssetsMissing ∧
  last (out ++ sel_run_dry_log f U O styles codes) = Some SomeAssetsMissing.
Proof.
  intros Hs Hm. unfold sel_run_log, sel_run_dry_log.
  rewrite (existsb_elem _ _ s Hs Hm). by rewrite !app_assoc, !last_snoc.
Qed.

(** C9.  A Selector run whose roots exist and whose codes are plain
    file-name stems ([code_ok]), dry or real (a real one from a tree in
    which source and destination are apart and the style directories
    hold regular files only), returns: the exit status is 0.  For every
    requested code without a matching file in an existing style
    directory the warning [NotFound] is printed and the run ends with
    the summary warning.  Every requested code that has a match is still
    processed: its copy line is printed, and in a real run its chosen
    file is copied, so that the destination [<style>/<code><suffix>]
    holds the file's contents at the end of the run, unless a code
    requested later is a proper prefix of the code (the step of such a
    code removes the file again). *)
Theorem selector_missing_assets (a : copy_schmoji.args) (w : world)
    (U O : path) (styles codes : list string) :
  copy_schmoji.unicode_root_of (w_fs w) a = U →
  copy_schmoji.out_root_of (w_fs w) a = O →
  copy_schmoji.parse_styles (copy_schmoji.a_styles a) = styles →
  copy_schmoji.codes_of a = codes →
  Forall code_ok codes →
  exists_ (w_fs w) (copy_schmoji.a_root a) = true →
  exists_ (w_fs w) U = true →
  copy_schmoji.a_dry_run a = true ∨ sel_ready U O styles (w_fs w) →
  ∃ w',
    copy_schmoji.main a w = Return () w' ∧
    exit_status (copy_schmoji.main a w) = 0%Z ∧
    (∀ s code,
       s ∈ styles → code ∈ codes →
       exists_ (w_fs w) (U ++ [s]) = true →
       copy_schmoji.chosen (w_fs w) (U ++ [s]) code = None →
       NotFound (U ++ [s]) code ∈ w_out w' ∧
       last (w_out w') = Some SomeAssetsMissing) ∧
    (∀ s code pref,
       s ∈ styles → code ∈ codes →
       copy_schmoji.chosen (w_fs w) (U ++ [s]) code = Some pref →
       (if copy_schmoji.a_dry_run a
        then DryRunCopy (U ++ [s; pref]) (O ++ [s; code +:+ suffix pref])
        else Copied (U ++ [s; pref]) (O ++ [s; code +:+ suffix pref]))
       ∈ w_out w') ∧
    (copy_schmoji.a_dry_run a = false →
     ∀ s before code after pref,
       s ∈ styles → codes = before ++ code :: after →
       (∀ c, c ∈ after → is_prefix c code → c = code) →
       copy_schmoji.chosen (w_fs w) (U ++ [s]) code = Some pref →
       ∃ data,
         w_fs w !! (U ++ [s; pref]) = Some (File data) ∧
         w_fs w' !! (O ++ [s; code +:+ suffix pref]) = Some (File data)).
Proof.
  intros HU HO Hst Hco Hok Hroot Huni Hmode.
  rewrite selector_main_run by (by rewrite ?HU).
  rewrite HU, HO, Hst, Hco.
  set (out := w_out w ++ _).
  destruct (copy_schmoji.a_dry_run a) eqn:Hdry.
  - rewrite copy_matches_dry. simpl. eexists. split; [done|]. split; [done|].
    simpl. split_and!; [| |done].
    + intros s code Hs Hc Hex Hch. split.
      * apply elem_of_app. right.
        apply (sel_run_dry_log_code _ _ _ _ _ s code); try done.
        unfold sel_code_dry_log. rewrite Hch. left.
      * eapply sel_run_log_last; [done|]. by eapply style_missing_code.
    + intros s code pref Hs Hc Hch. apply elem_of_app. right.
      apply (sel_run_dry_log_code _ _ _ _ _ s code); try done.
      * by eapply chosen_exists.
      * unfold sel_code_dry_log. rewrite Hch. apply elem_of_app. right. left.
  - destruct Hmode as [?|[Hpre Hinv]]; [done|].
    destruct (copy_matches_real U O styles (w_fs w) Hpre codes
                (World (w_fs w) out) Hinv) as (f' & Hrun & Happ & _).
    rewrite Hrun. eexists. split; [done|]. split; [done|]. simpl. split_and!.
    + intros s code Hs Hc Hex Hch. split.
      * apply elem_of_app. right.
        pose proof (sel_run_log_code (w_fs w) U O styles codes s code Hs Hc Hex) as Hin.
        unfold sel_code_msg in Hin. by rewrite Hch in Hin.
      * eapply sel_run_log_last; [done|]. by eapply style_missing_code.
    + intros s code pref Hs Hc Hch. apply elem_of_app. right.
      pose proof (sel_run_log_code (w_fs w) U O styles codes s code Hs Hc
                    (chosen_exists U (w_fs w) s code pref Hch)) as Hin.
      unfold sel_code_msg in Hin. by rewrite Hch in Hin.
    + intros _ s before code after pref Hs Hcodes Hnopre Hch.
      rewrite Hcodes in Hok, Happ.
      apply Forall_app in Hok as [_ Hok].
      apply Forall_cons_1 in Hok as [HC Hafter].
      destruct (sel_run_effect_own U O (w_fs w) styles before after s code pref Hs)
        as [Hown _]; [by apply code_ok_dotfree| |done..|].
      { eapply Forall_impl; [exact Hafter|]. intros c. apply code_ok_dotfree. }
      destruct (chosen_is_file U O styles (w_fs w) Hpre s code pref Hs Hch)
        as [data Hdata].
      exists data. split; [done|]. simpl in Happ. by rewrite (Happ _), Hown.
Qed.

Lemma selector_missing_assets_witness :
  ∃ w',
    copy_schmoji.main
      (copy_schmoji.Args ["repo"] None None (Some "Color") (Some "1F954,ffffff") false)
      (World ex_fs []) = Return () w' ∧
    NotFound (ex_unicode ++ ["Color"]) "ffffff" ∈ w_out w' ∧
    last (w_out w') = Some SomeAssetsMissing ∧
    Copied (ex_unicode ++ ["Color"; "1f954.svg"])
           (ex_out ++ ["Color"; "1f954" +:+ suffix "1f954.svg"]) ∈ w_out w' ∧
    ∃ data,
      ex_fs !! (ex_unicode ++ ["Color"; "1f954.svg"]) = Some (File data) ∧
      w_fs w' !! (ex_out ++ ["Color"; "1f954" +:+ suffix "1f954.svg"])
        = Some (File data).
Proof.
  destruct (selector_missing_assets
              (copy_schmoji.Args ["repo"] None None (Some "Color")
                 (Some "1F954,ffffff") false)
              (World ex_fs []) ex_unicode ex_out ["Color"] ["1f954"; "ffffff"])
    as (w' & Hrun & _ & Hmiss & Hcopy & Hfile).
  - vm_compute. reflexivity.
  - vm_compute. reflexivity.
  - vm_compute. reflexivity.
  - vm_compute. reflexivity.
  - repeat first [done | constructor].
  - vm_compute. reflexivity.
  - vm_compute. reflexivity.
  - right. apply sel_ready_sound. vm_compute. reflexivity.
  - exists w'. split; [exact Hrun|].
    destruct (Hmiss "Color" "ffffff") as [H1 H2].
    + left.
    + right. left.
    + vm_compute. reflexivity.
    + vm_compute. reflexivity.
    + split; [exact H1|]. split; [exact H2|]. split.
      * apply (Hcopy "Color" "1f954" "1f954.svg").
        -- left.
        -- left.
        -- vm_compute. reflexivity.
      * apply (Hfile eq_refl "Color" [] "1f954" ["ffffff"] "1f954.svg").
        -- left.
        -- reflexivity.
        -- intros c Hc Hp. apply list_elem_of_singleton in Hc as ->.
           destruct Hp as [r Hr]. vm_compute in Hr. congruence.
        -- vm_compute. reflexivity.
Defined.

(** ** The Flattener *)

Lemma flat_ready_sound (E O : path) (f : fs) :
  flat_ready_b E O f = true → flat_ready E O f.
Proof.
  unfold flat_ready_b. rewrite !andb_true_iff, !negb_true_iff, !bool_decide_eq_false.
  intros [[HEO HOE] Hall].
  assert (∀ p nd, f !! p = Some nd →
            match nd with
            | Dir => ∀ s, s ∈ rename_files.STYLE_DIRS → child_name (O ++ [s]) p = None
            | File _ => ¬ p `prefix_of` O ∧
                        ∀ s, s ∈ rename_files.STYLE_DIRS → p ≠ O ++ [s]
            end) as Hent.
  { intros p nd Hp. rewrite forallb_forall in Hall.
    specialize (Hall (p, nd)). rewrite <-list_elem_of_In, elem_of_map_to_list in Hall.
    specialize (Hall Hp). cbn [fst snd] in Hall. destruct nd as [data|].
    - apply andb_true_iff in Hall as [H1 H2].
      apply negb_true_iff, bool_decide_eq_false in H1. split; [done|].
      intros s Hs. rewrite forallb_forall in H2. specialize (H2 s).
      rewrite <-list_elem_of_In in H2.
      by apply H2, negb_true_iff, bool_decide_eq_false in Hs.
    - intros s Hs. rewrite forallb_forall in Hall. specialize (Hall s).
      rewrite <-list_elem_of_In in Hall. specialize (Hall Hs).
      by destruct (child_name (O ++ [s]) p). }
  split; [by split|]. split.
  - done.
  - intros q Hq. unfold is_file. destruct (f !! q) as [[data|]|] eqn:Hl; [|done..].
    by destruct (Hent _ _ Hl) as [? _].
  - intros s Hs. unfold is_file.
    destruct (f !! (O ++ [s])) as [[data|]|] eqn:Hl; [|done..].
    destruct (Hent _ _ Hl) as [_ H]. by destruct (H s Hs).
  - intros s n Hs. unfold is_dir.
    destruct (f !! (O ++ [s; n])) as [[data|]|] eqn:Hl; [done| |done].
    pose proof (Hent _ _ Hl s Hs) as H. by rewrite snoc2, child_name_app in H.
Qed.

Section flattener_run.
Context (E O : path) (styles : list string) (f0 : fs).
Hypothesis Hap : apart E O.

(** Writing a regular file into a destination style directory keeps
    the invariant. *)
Lemma tree_inv_write_file (s x data : string) (f : fs) :
  s ∈ styles →
  tree_inv E O styles f0 f →
  tree_inv E O styles f0 (<[O ++ [s; x] := File data]> f).
Proof.
  intros Hs [Hsrc Hanc Hsty Hflat]. split.
  - intros p Hp. rewrite lookup_insert_ne; [by apply Hsrc|].
    intros <-. by eapply (src_not_under_dst E O Hap).
  - intros q Hq. unfold is_file. rewrite lookup_insert_ne; [by apply Hanc|].
    intros <-. apply prefix_length in Hq. rewrite length_app in Hq. simpl in Hq. lia.
  - intros s' Hs'. unfold is_file. rewrite lookup_insert_ne; [by apply Hsty|].
    intros Heq%(f_equal length). rewrite !length_app in Heq. simpl in Heq. lia.
  - intros s' n Hs'. unfold is_dir.
    destruct (decide (O ++ [s; x] = O ++ [s'; n])) as [->|Hne].
    + by rewrite lookup_insert_eq.
    + rewrite lookup_insert_ne by done. by apply Hflat.
Qed.

Lemma flat_files_agree (d : path) (f : fs) :
  agree_under d f f0 →
  filter (λ n, rename_files.wanted f d n = true) (sorted (iterdir f d)) =
  flat_files f0 d.
Proof.
  intros H. unfold flat_files. rewrite (sorted_iterdir_agree d f f0 H).
  apply list_filter_iff. intros n.
  unfold rename_files.wanted, is_file. by rewrite (agree_under_child d n f f0 H).
Qed.

Lemma flat_files_wanted (d : path) (n : string) :
  n ∈ flat_files f0 d →
  is_dir f0 d = true ∧ is_file f0 (d ++ [n]) = true ∧
  (n ∉ rename_files.IGNORE_FILES) ∧ Str.startswith n "." = false.
Proof.
  unfold flat_files. rewrite list_elem_of_filter, elem_of_sorted, elem_of_iterdir.
  unfold rename_files.wanted. rewrite !andb_true_iff, !negb_true_iff.
  intros [[[Hf Hi] Hh] [Hd _]]. apply bool_decide_eq_false in Hi. done.
Qed.

Lemma copy_one_real (d : path) (style code n : string) (w : world) :
  style ∈ styles → E `prefix_of` d →
  is_file f0 (d ++ [style; n]) = true →
  tree_inv E O styles f0 (w_fs w) →
  is_dir (w_fs w) (O ++ [style]) = true →
  ∃ f',
    rename_files.copy_one (d ++ [style]) (O ++ [style]) code false () n w =
      Return () (World f' (w_out w ++ [flat_copy_msg false (d ++ [style]) O code n])) ∧
    applies (flat_copy_effect f0 (d ++ [style]) O code n) (w_fs w) f' ∧
    tree_inv E O styles f0 f' ∧ is_dir f' (O ++ [style]) = true.
Proof.
  intros Hs HE Hfile Hinv Hdir. destruct w as [f out]. simpl in *.
  unfold is_file in Hfile.
  destruct (f0 !! (d ++ [style; n])) as [[data|]|] eqn:Hdata; [|done..].
  assert (E `prefix_of` d ++ [style; n]) as HEsrc by by apply prefix_app_r.
  assert (f !! ((d ++ [style]) ++ [n]) = Some (File data)) as Hsrc.
  { rewrite <-snoc2, <-Hdata. by apply (inv_src _ _ _ _ _ Hinv). }
  exists (<[O ++ [style; code +:+ suffix n] := File data]> f).
  unfold flat_copy_msg, flat_copy_effect. rewrite name_of_snoc.
  split_and!.
  - unfold rename_files.copy_one, bind.
    rewrite (copy2_spec _ _ data); simpl.
    + unfold print. simpl. by rewrite <-!snoc2.
    + done.
    + rewrite <-!snoc2. by apply (src_not_under_dst E O Hap).
    + rewrite <-snoc2. by apply (inv_flat _ _ _ _ _ Hinv).
    + by rewrite parent_snoc.
  - intros p. case_decide as Hp.
    + subst p. by rewrite lookup_insert_eq, <-snoc2.
    + by rewrite lookup_insert_ne.
  - by apply tree_inv_write_file.
  - unfold is_dir. rewrite lookup_insert_ne; [done|].
    intros Heq%(f_equal length). rewrite !length_app in Heq. simpl in Heq. lia.
Qed.

Lemma copy_loop_real (d : path) (style code : string) (names : list string)
    (w : world) :
  style ∈ styles → E `prefix_of` d →
  (∀ n, n ∈ names → is_file f0 (d ++ [style; n]) = true) →
  tree_inv E O styles f0 (w_fs w) →
  is_dir (w_fs w) (O ++ [style]) = true →
  ∃ f',
    for_each names (rename_files.copy_one (d ++ [style]) (O ++ [style]) code false)
      () w =
      Return () (World f' (w_out w ++
                   (flat_copy_msg false (d ++ [style]) O code <$> names))) ∧
    applies (eff_list (flat_copy_effect f0 (d ++ [style]) O code <$> names))
            (w_fs w) f' ∧
    tree_inv E O styles f0 f'.
Proof.
  intros Hs HE. revert w.
  induction names as [|n names IH]; intros [f out] Hfiles Hinv Hdir.
  - exists f. simpl. rewrite app_nil_r. split_and!; [done|apply applies_id|done].
  - destruct (copy_one_real d style code n (World f out))
      as (f1 & Hrun1 & Happ1 & Hinv1 & Hdir1); try done.
    { apply Hfiles. left. }
    destruct (IH (World f1 (out ++ [flat_copy_msg false (d ++ [style]) O code n])))
      as (f2 & Hrun2 & Happ2 & Hinv2); try done.
    { intros n' Hn'. apply Hfiles. by right. }
    exists f2. split_and!; [|by eapply applies_seq|done].
    cbn [w_out w_fs] in *.
    rewrite for_each_cons, (bind_Return _ _ _ _ _ Hrun1). cbv beta.
    rewrite Hrun2. simpl. by rewrite <-app_assoc.
Qed.

Lemma copy_in_style_dir_real (d : path) (style code : string) (w : world) :
  style ∈ styles → E `prefix_of` d →
  tree_inv E O styles f0 (w_fs w) →
  ∃ f',
    rename_files.copy_in_style_dir (d ++ [style]) code O false w =
      Return () (World f' (w_out w ++ flat_style_log false f0 (d ++ [style]) O code)) ∧
    applies (flat_style_effect f0 (d ++ [style]) O code) (w_fs w) f' ∧
    tree_inv E O styles f0 f'.
Proof.
  intros Hs HE Hinv. destruct w as [f out]. simpl in *.
  assert (agree_under (d ++ [style]) f f0) as Hagree.
  { intros p Hp. apply (inv_src _ _ _ _ _ Hinv). etrans; [exact HE|].
    by eapply prefix_app_l. }
  unfold rename_files.copy_in_style_dir, flat_style_log, flat_style_effect.
  unfold bind at 1, get_fs. simpl.
  rewrite (agree_under_is_dir _ _ _ Hagree), (flat_files_agree _ _ Hagree).
  destruct (is_dir f0 (d ++ [style])) eqn:Hd0; simpl.
  2:{ exists f. rewrite app_nil_r. split_and!; [done|apply applies_id|done]. }
  destruct (flat_files f0 (d ++ [style])) as [|n0 names] eqn:Hfiles.
  { exists f. rewrite app_nil_r. split_and!; [done|apply applies_id|done]. }
  rewrite name_of_snoc.
  destruct (mkdir_spec (O ++ [style]) (World f out)) as (f1 & Hmk & Happ1).
  { intros q [Hq| ->]%prefix_snoc_inv; simpl.
    - by apply (inv_anc _ _ _ _ _ Hinv).
    - by apply (inv_style _ _ _ _ _ Hinv). }
  destruct (tree_inv_mkdir E O styles f0 Hap style f f1 Hs Hinv Happ1) as [Hinv1 Hdir1].
  destruct (copy_loop_real d style code (n0 :: names) (World f1 out))
    as (f2 & Hrun & Happ2 & Hinv2); try done.
  { intros n Hn. rewrite <-Hfiles in Hn. apply flat_files_wanted in Hn.
    rewrite snoc2. tauto. }
  exists f2. split_and!; [|by eapply applies_seq|done].
  unfold bind at 1. simpl in Hmk. by rewrite Hmk.
Qed.

Lemma flat_base_prefix : E `prefix_of` flat_base f0 E.
Proof. unfold flat_base. destruct (is_dir _ _); [by apply prefix_app_r|done]. Qed.

Lemma style_step_real (style code : string) (w : world) :
  style ∈ styles →
  tree_inv E O styles f0 (w_fs w) →
  ∃ f',
    rename_files.style_step E code O false () style w =
      Return () (World f' (w_out w ++
                   flat_style_log false f0 (flat_base f0 E ++ [style]) O code)) ∧
    applies (flat_style_effect f0 (flat_base f0 E ++ [style]) O code) (w_fs w) f' ∧
    tree_inv E O styles f0 f'.
Proof.
  intros Hs Hinv.
  unfold rename_files.style_step. unfold bind at 1, get_fs.
  assert (is_dir (w_fs w) (E ++ ["Default"]) = is_dir f0 (E ++ ["Default"])) as ->.
  { unfold is_dir. rewrite (inv_src _ _ _ _ _ Hinv); [done|]. by apply prefix_app_r. }
  replace (if is_dir f0 (E ++ ["Default"])
           then (E ++ ["Default"]) ++ [style] else E ++ [style])
    with (flat_base f0 E ++ [style])
    by (unfold flat_base; by destruct (is_dir f0 (E ++ ["Default"]))).
  apply copy_in_style_dir_real; [done|apply flat_base_prefix|done].
Qed.

Lemma styles_loop_flat_real (code : string) (ss : list string) (w : world) :
  ss ⊆ styles →
  tree_inv E O styles f0 (w_fs w) →
  ∃ f',
    for_each ss (rename_files.style_step E code O false) () w =
      Return () (World f' (w_out w ++
        concat ((λ style, flat_style_log false f0 (flat_base f0 E ++ [style]) O code)
                  <$> ss))) ∧
    applies (eff_list ((λ style, flat_style_effect f0 (flat_base f0 E ++ [style]) O code)
                         <$> ss)) (w_fs w) f' ∧
    tree_inv E O styles f0 f'.
Proof.
  revert w. induction ss as [|s ss IH]; intros [f out] Hsub Hinv.
  - exists f. simpl. rewrite app_nil_r. split_and!; [done|apply applies_id|done].
  - destruct (style_step_real s code (World f out)) as (f1 & Hrun1 & Happ1 & Hinv1);
      [apply Hsub; left|done|].
    destruct (IH (World f1 (out ++ flat_style_log false f0 (flat_base f0 E ++ [s]) O code)))
      as (f2 & Hrun2 & Happ2 & Hinv2); [|done|].
    { intros x Hx. apply Hsub. by right. }
    exists f2. split_and!; [|by eapply applies_seq|done].
    cbn [w_out w_fs] in *.
    rewrite for_each_cons, (bind_Return _ _ _ _ _ Hrun1). cbv beta.
    rewrite Hrun2. simpl. by rewrite <-app_assoc.
Qed.

End flattener_run.

(** ** Computations that do not write *)

Lemma keeps_ret {A} (a : A) : keeps_fs (ret a).
Proof. by intros w. Qed.

Lemma keeps_print (m : msg) : keeps_fs (print m).
Proof. by intros w. Qed.

Lemma keeps_raise {A} (e : exn) : keeps_fs (raise (A:=A) e).
Proof. by intros w. Qed.

Lemma keeps_get_fs : keeps_fs get_fs.
Proof. by intros w. Qed.

Lemma keeps_bind {A B} (m : M A) (k : A → M B) :
  keeps_fs m → (∀ a, keeps_fs (k a)) → keeps_fs (bind m k).
Proof.
  intros Hm Hk w. unfold bind. specialize (Hm w).
  destruct (m w) as [a w'|e w']; simpl in *; [|done].
  by rewrite (Hk a w').
Qed.

Lemma keeps_for_each {A S} (l : list A) (body : S → A → M S) (acc : S) :
  (∀ acc x, keeps_fs (body acc x)) → keeps_fs (for_each l body acc).
Proof.
  intros Hbody. revert acc. induction l as [|x l IH]; intros acc; simpl.
  - apply keeps_ret.
  - apply keeps_bind; [apply Hbody|apply IH].
Qed.

(** ** The Flattener: a dry run *)

Lemma copy_loop_dry (style_dir O : path) (code : string) (names : list string)
    (w : world) :
  for_each names
    (rename_files.copy_one style_dir (O ++ [name_of style_dir]) code true) () w =
  Return () (World (w_fs w)
               (w_out w ++ (flat_copy_msg true style_dir O code <$> names))).
Proof.
  revert w. induction names as [|n names IH]; intros [f out]; simpl.
  - by rewrite app_nil_r.
  - unfold bind, print at 1. simpl. rewrite IH. simpl.
    unfold flat_copy_msg at 2. by rewrite <-app_assoc, <-snoc2.
Qed.

Lemma copy_in_style_dir_dry (style_dir O : path) (code : string) (w : world) :
  rename_files.copy_in_style_dir style_dir code O true w =
  Return () (World (w_fs w)
               (w_out w ++ flat_style_log true (w_fs w) style_dir O code)).
Proof.
  destruct w as [f out].
  unfold rename_files.copy_in_style_dir, flat_style_log. unfold bind at 1, get_fs.
  simpl. fold (flat_files f style_dir).
  destruct (is_dir f style_dir); simpl; [|by rewrite app_nil_r].
  destruct (flat_files f style_dir) as [|n0 names] eqn:Hfiles.
  { by rewrite app_nil_r. }
  unfold bind at 1, ret at 1. by rewrite copy_loop_dry.
Qed.

Lemma styles_loop_flat_dry (E O : path) (code : string) (ss : list string)
    (w : world) :
  for_each ss (rename_files.style_step E code O true) () w =
  Return () (World (w_fs w)
    (w_out w ++
     concat ((λ style, flat_style_log true (w_fs w) (flat_base (w_fs w) E ++ [style]) O code)
               <$> ss))).
Proof.
  revert w. induction ss as [|s ss IH]; intros [f out]; simpl.
  - by rewrite app_nil_r.
  - unfold bind at 1, rename_files.style_step. unfold bind at 1, get_fs. simpl.
    rewrite copy_in_style_dir_dry. simpl. rewrite IH. simpl.
    rewrite <-app_assoc. do 4 f_equal.
    unfold flat_base. by destruct (is_dir f (E ++ ["Default"])).
Qed.

Section flattener_json.
Variable json_load : string → option loaded.

(** The three ways [process_emoji_dir] goes. *)
Lemma process_emoji_dir_no_meta (E O : path) (dry_run : bool) (w : world) :
  exists_ (w_fs w) (E ++ ["metadata.json"]) = false →
  rename_files.process_emoji_dir json_load E O dry_run w = Return () w.
Proof.
  intros H. unfold rename_files.process_emoji_dir. unfold bind, get_fs.
  by rewrite H.
Qed.

Lemma process_emoji_dir_warning (E O : path) (dry_run : bool) (w : world)
    (warning : msg) :
  exists_ (w_fs w) (E ++ ["metadata.json"]) = true →
  rename_files.read_code json_load (w_fs w) (E ++ ["metadata.json"]) = inr warning →
  rename_files.process_emoji_dir json_load E O dry_run w =
  Return () (World (w_fs w) (w_out w ++ [warning])).
Proof.
  intros H1 H2. unfold rename_files.process_emoji_dir. unfold bind, get_fs.
  by rewrite H1, H2.
Qed.

Lemma process_emoji_dir_code (E O : path) (dry_run : bool) (w : world)
    (code : string) :
  exists_ (w_fs w) (E ++ ["metadata.json"]) = true →
  rename_files.read_code json_load (w_fs w) (E ++ ["metadata.json"]) = inl code →
  rename_files.process_emoji_dir json_load E O dry_run w =
  for_each rename_files.STYLE_DIRS
    (rename_files.style_step E code O dry_run) () w.
Proof.
  intros H1 H2. unfold rename_files.process_emoji_dir. unfold bind, get_fs.
  by rewrite H1, H2.
Qed.

Lemma process_emoji_dir_dry (E O : path) (w : world) :
  ∃ l, rename_files.process_emoji_dir json_load E O true w =
       Return () (World (w_fs w) (w_out w ++ l)).
Proof.
  destruct (exists_ (w_fs w) (E ++ ["metadata.json"])) eqn:Hex.
  - destruct (rename_files.read_code json_load (w_fs w) (E ++ ["metadata.json"]))
      as [code|warning] eqn:Hrc.
    + rewrite (process_emoji_dir_code _ _ _ _ code) by done.
      rewrite styles_loop_flat_dry. by eexists.
    + rewrite (process_emoji_dir_warning _ _ _ _ warning) by done. by eexists.
  - rewrite process_emoji_dir_no_meta by done. exists [].
    destruct w. by rewrite app_nil_r.
Qed.

Lemma keeps_process_emoji_dir_dry (E O : path) :
  keeps_fs (rename_files.process_emoji_dir json_load E O true).
Proof. intros w. by destruct (process_emoji_dir_dry E O w) as [l ->]. Qed.

Lemma flattener_main_no_root (a : rename_files.args) (w : world) :
  exists_ (w_fs w) (rename_files.a_root a) = false →
  rename_files.main json_load a w =
  Return () (World (w_fs w) (w_out w ++ [PathNotFound (rename_files.a_root a)])).
Proof.
  intros H. unfold rename_files.main. unfold bind at 1, get_fs. by rewrite H.
Qed.

Lemma keeps_flattener_main_dry (root : path) (out : option path) :
  keeps_fs (rename_files.main json_load (rename_files.Args root out true)).
Proof.
  unfold rename_files.main. simpl.
  apply keeps_bind; [apply keeps_get_fs|]. intros f.
  destruct (negb _); [apply keeps_print|].
  apply keeps_bind; [apply keeps_ret|]. intros _.
  apply keeps_bind; [apply keeps_get_fs|]. intros f1.
  apply keeps_bind; [|intros _; apply keeps_print].
  destruct (exists_ f1 _); [apply keeps_process_emoji_dir_dry|].
  destruct (is_dir f1 _); [|apply keeps_raise].
  apply keeps_for_each. intros [] child.
  unfold rename_files.process_child.
  apply keeps_bind; [apply keeps_get_fs|]. intros f2.
  destruct (is_dir f2 _); [apply keeps_process_emoji_dir_dry|apply keeps_ret].
Qed.

End flattener_json.

(** ** The Flattener: what a run does to one path *)

Lemma flat_style_effect_Some (f0 : fs) (S O : path) (code : string) (p : path) v :
  flat_style_effect f0 S O code p = Some v →
  (v = Some Dir ∧ p `prefix_of` O ++ [name_of S]) ∨
  ∃ n, n ∈ flat_files f0 S ∧ p = O ++ [name_of S; code +:+ suffix n] ∧
       v = f0 !! (S ++ [n]).
Proof.
  unfold flat_style_effect. destruct (is_dir f0 S); [|done].
  destruct (flat_files f0 S) as [|n0 names] eqn:Hfiles; [done|].
  unfold eff_seq.
  destruct (eff_list _ p) as [v'|] eqn:Hl.
  - intros [= <-]. right.
    apply eff_list_Some_inv in Hl as (e & (n & -> & Hn)%list_elem_of_fmap & He).
    unfold flat_copy_effect in He. case_decide; [|done]. injection He as <-.
    by exists n.
  - unfold mkdir_effect. case_bool_decide; [|done]. intros [= <-]. by left.
Qed.

Lemma not_prefix_longer (O : path) (a b c : string) :
  ¬ O ++ [a; b] `prefix_of` O ++ [c].
Proof. intros Hl%prefix_length. rewrite !length_app in Hl. simpl in Hl. lia. Qed.

Lemma flat_style_effect_target (f0 : fs) (S O : path) (code n : string) :
  n ∈ flat_files f0 S → is_dir f0 S = true →
  ∃ v, flat_style_effect f0 S O code (O ++ [name_of S; code +:+ suffix n]) = Some v.
Proof.
  intros Hn Hd. unfold flat_style_effect. rewrite Hd.
  destruct (flat_files f0 S) as [|n0 names] eqn:Hfiles; [by apply elem_of_nil in Hn|].
  unfold eff_seq.
  destruct (eff_list _ _) as [v'|] eqn:Hl; [by eexists|].
  apply eff_list_None_inv with (e := flat_copy_effect f0 S O code n) in Hl.
  - unfold flat_copy_effect in Hl. by rewrite decide_True in Hl.
  - apply list_elem_of_fmap. by exists n.
Qed.

Lemma flat_emoji_effect_Some (f0 : fs) (E O : path) (code : string) (p : path) v :
  flat_emoji_effect f0 E O code p = Some v →
  (v = Some Dir ∧ ∃ style, p `prefix_of` O ++ [style]) ∨
  ∃ style n, style ∈ rename_files.STYLE_DIRS ∧
             n ∈ flat_files f0 (flat_base f0 E ++ [style]) ∧
             p = O ++ [style; code +:+ suffix n] ∧
             v = f0 !! (flat_base f0 E ++ [style; n]).
Proof.
  intros (e & (style & -> & Hs)%list_elem_of_fmap & He)%eff_list_Some_inv.
  apply flat_style_effect_Some in He as [[-> Hp]|(n & Hn & -> & ->)].
  - left. split; [done|]. exists style. by rewrite name_of_snoc in Hp.
  - right. exists style, n. by rewrite name_of_snoc, <-snoc2.
Qed.

Lemma flat_emoji_effect_target (f0 : fs) (E O : path) (code style n : string) :
  style ∈ rename_files.STYLE_DIRS →
  n ∈ flat_files f0 (flat_base f0 E ++ [style]) →
  ∃ v, flat_emoji_effect f0 E O code (O ++ [style; code +:+ suffix n]) = Some v.
Proof.
  intros Hs Hn. destruct (flat_emoji_effect _ _ _ _ _) as [v|] eqn:Hl; [by eexists|].
  apply eff_list_None_inv
    with (e := flat_style_effect f0 (flat_base f0 E ++ [style]) O code) in Hl.
  - destruct (flat_style_effect_target f0 (flat_base f0 E ++ [style]) O code n)
      as [v Hv]; [done| |].
    + unfold flat_files in Hn.
      apply list_elem_of_filter in Hn as [_ Hn%elem_of_sorted%elem_of_iterdir]. tauto.
    + rewrite name_of_snoc in Hv. congruence.
  - apply list_elem_of_fmap. by exists style.
Qed.

Lemma elem_of_flat_files (f0 : fs) (S : path) (n : string) :
  n ∈ flat_files f0 S ↔
  is_dir f0 S = true ∧ is_file f0 (S ++ [n]) = true ∧
  n ≠ ".DS_Store" ∧ Str.startswith n "." = false.
Proof.
  unfold flat_files. rewrite list_elem_of_filter, elem_of_sorted, elem_of_iterdir.
  unfold rename_files.wanted, rename_files.IGNORE_FILES.
  rewrite !andb_true_iff, !negb_true_iff, bool_decide_eq_false, list_elem_of_singleton.
  unfold is_file. destruct (f0 !! (S ++ [n])) as [[|]|]; naive_solver.
Qed.

Lemma flat_log_sources (dry_run : bool) (f0 : fs) (E O : path) (code : string) (m : msg) :
  m ∈ flat_emoji_log dry_run f0 E O code →
  ∃ style n, style ∈ rename_files.STYLE_DIRS ∧
             n ∈ flat_files f0 (flat_base f0 E ++ [style]) ∧
             m = (if dry_run then DryRunCopyOverwrite else CopyDone)
                   (flat_base f0 E ++ [style; n]) (O ++ [style; code +:+ suffix n]).
Proof.
  unfold flat_emoji_log. generalize rename_files.STYLE_DIRS as ss.
  induction ss as [|s ss IH]; simpl; [by intros ?%elem_of_nil|].
  intros [Hm|Hm]%elem_of_app.
  - unfold flat_style_log in Hm. destruct (is_dir f0 _); [|by apply elem_of_nil in Hm].
    apply list_elem_of_fmap in Hm as (n & -> & Hn).
    exists s, n. split; [left|]. split; [done|].
    unfold flat_copy_msg. by rewrite name_of_snoc, <-snoc2.
  - destruct (IH Hm) as (style & n & Hs & Hn & ->). exists style, n.
    split; [by right|done].
Qed.

Lemma flat_log_has (dry_run : bool) (f0 : fs) (E O : path) (code style n : string) :
  style ∈ rename_files.STYLE_DIRS →
  n ∈ flat_files f0 (flat_base f0 E ++ [style]) →
  (if dry_run then DryRunCopyOverwrite else CopyDone)
    (flat_base f0 E ++ [style; n]) (O ++ [style; code +:+ suffix n])
  ∈ flat_emoji_log dry_run f0 E O code.
Proof.
  intros Hs Hn. unfold flat_emoji_log.
  apply (elem_of_concat_fmap _ _ style); [done|].
  unfold flat_style_log.
  assert (is_dir f0 (flat_base f0 E ++ [style]) = true) as ->.
  { apply elem_of_flat_files in Hn. tauto. }
  apply list_elem_of_fmap. exists n. split; [|done].
  unfold flat_copy_msg. by rewrite name_of_snoc, <-snoc2.
Qed.

Section flattener_emoji.
Variable json_load : string → option loaded.

(** A real run on one emoji directory whose metadata gives [code]. *)
Lemma process_emoji_dir_real (E O : path) (code : string) (w : world) :
  flat_ready E O (w_fs w) →
  exists_ (w_fs w) (E ++ ["metadata.json"]) = true →
  rename_files.read_code json_load (w_fs w) (E ++ ["metadata.json"]) = inl code →
  ∃ f',
    rename_files.process_emoji_dir json_load E O false w =
      Return () (World f' (w_out w ++ flat_emoji_log false (w_fs w) E O code)) ∧
    applies (flat_emoji_effect (w_fs w) E O code) (w_fs w) f'.
Proof.
  intros [Hap Hinv] Hex Hrc.
  rewrite (process_emoji_dir_code json_load E O false w code Hex Hrc).
  destruct (styles_loop_flat_real E O rename_files.STYLE_DIRS (w_fs w) Hap code
              rename_files.STYLE_DIRS w) as (f' & Hrun & Happ & _); [done..|].
  by exists f'.
Qed.

Lemma process_emoji_dir_dry_code (E O : path) (code : string) (w : world) :
  exists_ (w_fs w) (E ++ ["metadata.json"]) = true →
  rename_files.read_code json_load (w_fs w) (E ++ ["metadata.json"]) = inl code →
  rename_files.process_emoji_dir json_load E O true w =
  Return () (World (w_fs w) (w_out w ++ flat_emoji_log true (w_fs w) E O code)).
Proof.
  intros Hex Hrc.
  rewrite (process_emoji_dir_code json_load E O true w code Hex Hrc).
  by rewrite styles_loop_flat_dry.
Qed.

Lemma read_code_inl (f : fs) (meta_path : path) (code : string) :
  rename_files.read_code json_load f meta_path = inl code →
  ∃ data items,
    f !! meta_path = Some (File data) ∧
    json_load data = Some (LoadDict items) ∧
    code = Str.lower (Str.strip (rename_files.py_str
             (rename_files.dict_get items "unicode" (PyStr "")))) ∧
    code ≠ "".
Proof.
  unfold rename_files.read_code.
  destruct (f !! meta_path) as [[data|]|] eqn:Hf; [|done..].
  destruct (json_load data) as [[items|]|] eqn:Hj; [|done..].
  destruct (negb _) eqn:Ht; [done|]. intros [= <-].
  exists data, items. split; [done|]. split; [done|]. split; [done|].
  intros Heq. rewrite Heq in Ht. done.
Qed.

End flattener_emoji.

(** ** The Flattener: the claims *)

(** C2.  Let the metadata of the emoji directory [E] give the code
    [code] (the [unicode] field, stripped and lowercased), a plain
    file-name stem ([code_ok]: no separator, no glob metacharacter, no
    dot), and let the run be a real one from a tree in which [E] and the
    output root are apart and the destination style directories hold
    regular files only.
    Then [process_emoji_dir] returns and, for every recognized style,
    with [S] the style directory after skin-tone resolution: for every
    copied file [n] of [S] the destination [<style>/<code><suffix n>] is
    a regular file holding a copied file of [S] with that extension;
    nothing else changes in the destination style directory, so there is
    one destination file per distinct extension; and the copied files
    are the regular files of [S] other than [.DS_Store] and dot-files. *)
Theorem flattener_one_file_per_extension (json_load : string → option loaded)
    (E O : path) (code : string) (w : world) :
  flat_ready E O (w_fs w) →
  exists_ (w_fs w) (E ++ ["metadata.json"]) = true →
  rename_files.read_code json_load (w_fs w) (E ++ ["metadata.json"]) = inl code →
  code_ok code →
  ∃ w',
    rename_files.process_emoji_dir json_load E O false w = Return () w' ∧
    (∃ data items,
       w_fs w !! (E ++ ["metadata.json"]) = Some (File data) ∧
       json_load data = Some (LoadDict items) ∧
       code = Str.lower (Str.strip (rename_files.py_str
                (rename_files.dict_get items "unicode" (PyStr ""))))) ∧
    ∀ style, style ∈ rename_files.STYLE_DIRS →
      (∀ n, n ∈ flat_files (w_fs w) (flat_base (w_fs w) E ++ [style]) →
         ∃ n' data,
           n' ∈ flat_files (w_fs w) (flat_base (w_fs w) E ++ [style]) ∧
           suffix n' = suffix n ∧
           w_fs w !! (flat_base (w_fs w) E ++ [style; n']) = Some (File data) ∧
           w_fs w' !! (O ++ [style; code +:+ suffix n]) = Some (File data)) ∧
      (∀ name,
         w_fs w' !! (O ++ [style; name]) ≠ w_fs w !! (O ++ [style; name]) →
         ∃ n, n ∈ flat_files (w_fs w) (flat_base (w_fs w) E ++ [style]) ∧
              name = code +:+ suffix n) ∧
      (∀ n, n ∈ flat_files (w_fs w) (flat_base (w_fs w) E ++ [style]) ↔
            is_dir (w_fs w) (flat_base (w_fs w) E ++ [style]) = true ∧
            is_file (w_fs w) (flat_base (w_fs w) E ++ [style; n]) = true ∧
            n ≠ ".DS_Store" ∧ Str.startswith n "." = false).
Proof.
  intros Hready Hex Hrc _.
  destruct (process_emoji_dir_real json_load E O code w Hready Hex Hrc)
    as (f' & Hrun & Happ).
  exists (World f' (w_out w ++ flat_emoji_log false (w_fs w) E O code)).
  split; [exact Hrun|]. split.
  { destruct (read_code_inl json_load _ _ _ Hrc) as (data & items & ? & ? & ? & _).
    by exists data, items. }
  intros style Hs. simpl.
  assert (∀ name v,
            flat_emoji_effect (w_fs w) E O code (O ++ [style; name]) = Some v →
            ∃ n, n ∈ flat_files (w_fs w) (flat_base (w_fs w) E ++ [style]) ∧
                 name = code +:+ suffix n ∧
                 v = w_fs w !! (flat_base (w_fs w) E ++ [style; n])) as Hat.
  { intros name v [[_ [s Hp]]|(s & n & _ & Hn & Hp & ->)]%flat_emoji_effect_Some.
    - by apply not_prefix_longer in Hp.
    - rewrite !snoc2 in Hp. apply snoc_inj in Hp as [[_ ->]%snoc_inj ->].
      by exists n. }
  split_and!.
  - intros n Hn.
    destruct (flat_emoji_effect_target (w_fs w) E O code style n Hs Hn) as [v Hv].
    destruct (Hat _ _ Hv) as (n' & Hn' & Heq & ->).
    apply str_app_inv_head in Heq.
    pose proof Hn' as Hfile. apply elem_of_flat_files in Hfile as (_ & Hfile & _).
    unfold is_file in Hfile. rewrite <-snoc2 in Hfile.
    destruct (w_fs w !! (flat_base (w_fs w) E ++ [style; n'])) as [[data|]|] eqn:Hd;
      [|done..].
    exists n', data. split_and!; [done..|].
    by rewrite (Happ _), Hv.
  - intros name Hne. rewrite (Happ _) in Hne.
    destruct (flat_emoji_effect (w_fs w) E O code (O ++ [style; name])) as [v|] eqn:He;
      [|done].
    destruct (Hat _ _ He) as (n & Hn & -> & _). by exists n.
  - intros n. by rewrite elem_of_flat_files, <-snoc2.
Qed.

Lemma flattener_one_file_per_extension_witness :
  ∃ w',
    rename_files.process_emoji_dir ex_json_load ex_potato ["repo"; "unicode"] false
      (World ex_assets []) = Return () w' ∧
    ∃ n' data,
      suffix n' = suffix "potato_color.svg" ∧
      ex_assets !! (flat_base ex_assets ex_potato ++ ["Color"; n']) = Some (File data) ∧
      w_fs w' !! (["repo"; "unicode"] ++ ["Color"; "1f954" +:+ suffix "potato_color.svg"])
        = Some (File data).
Proof.
  destruct (flattener_one_file_per_extension ex_json_load ex_potato
              ["repo"; "unicode"] "1f954" (World ex_assets []))
    as (w' & Hrun & _ & Hstyles).
  - apply flat_ready_sound. vm_compute. reflexivity.
  - vm_compute. reflexivity.
  - vm_compute. reflexivity.
  - split; [discriminate|]. repeat constructor.
  - exists w'. split; [exact Hrun|].
    destruct (Hstyles "Color") as [Hfiles _]; [left|].
    destruct (Hfiles "potato_color.svg") as (n' & data & _ & Hsuf & Hsrc & Hdst).
    + apply elem_of_flat_files. vm_compute. repeat split; congruence.
    + exists n', data. split; [exact Hsuf|]. split; [exact Hsrc|exact Hdst].
Defined.

(** C3.  When the emoji directory [E] has a [Default] subdirectory, only
    the style directories under [E/Default] are read: in a dry run or a
    real one, every copy line that [process_emoji_dir] prints names a
    source [E/Default/<style>/<file>], and every path of the file system
    that changes becomes a directory or receives the contents of such a
    file.  No file under a sibling of [Default] is ever copied. *)
Theorem flattener_default_only (json_load : string → option loaded)
    (E O : path) (dry_run : bool) (w : world) :
  is_dir (w_fs w) (E ++ ["Default"]) = true →
  dry_run = true ∨ flat_ready E O (w_fs w) →
  ∃ w' l,
    rename_files.process_emoji_dir json_load E O dry_run w = Return () w' ∧
    w_out w' = w_out w ++ l ∧
    (∀ src tgt,
       CopyDone src tgt ∈ l ∨ DryRunCopyOverwrite src tgt ∈ l →
       ∃ style n, style ∈ rename_files.STYLE_DIRS ∧
                  src = E ++ ["Default"; style; n] ∧
                  is_file (w_fs w) src = true) ∧
    (∀ src tgt v,
       CopyDone src tgt ∈ l ∨ DryRunCopyOverwrite src tgt ∈ l →
       v ≠ "Default" → ¬ E ++ [v] `prefix_of` src) ∧
    (∀ p, w_fs w' !! p = w_fs w !! p ∨
          w_fs w' !! p = Some Dir ∨
          ∃ style n, style ∈ rename_files.STYLE_DIRS ∧
                     is_file (w_fs w) (E ++ ["Default"; style; n]) = true ∧
                     w_fs w' !! p = w_fs w !! (E ++ ["Default"; style; n])).
Proof.
  intros Hdef Hmode.
  assert (flat_base (w_fs w) E = E ++ ["Default"]) as Hbase.
  { unfold flat_base. by rewrite Hdef. }
  assert (∀ style n, flat_base (w_fs w) E ++ [style; n] = E ++ ["Default"; style; n])
    as Hpath.
  { intros style n. by rewrite Hbase, <-app_assoc. }
  assert (∀ (l : list msg),
            (∀ m, m ∈ l → ∃ style n,
               style ∈ rename_files.STYLE_DIRS ∧
               n ∈ flat_files (w_fs w) (flat_base (w_fs w) E ++ [style]) ∧
               ∃ tgt, m = CopyDone (E ++ ["Default"; style; n]) tgt ∨
                      m = DryRunCopyOverwrite (E ++ ["Default"; style; n]) tgt) →
            (∀ src tgt,
               CopyDone src tgt ∈ l ∨ DryRunCopyOverwrite src tgt ∈ l →
               ∃ style n, style ∈ rename_files.STYLE_DIRS ∧
                          src = E ++ ["Default"; style; n] ∧
                          is_file (w_fs w) src = true) ∧
            (∀ src tgt v,
               CopyDone src tgt ∈ l ∨ DryRunCopyOverwrite src tgt ∈ l →
               v ≠ "Default" → ¬ E ++ [v] `prefix_of` src)) as Hlog.
  { intros l Hl.
    assert (∀ src tgt,
               CopyDone src tgt ∈ l ∨ DryRunCopyOverwrite src tgt ∈ l →
               ∃ style n, style ∈ rename_files.STYLE_DIRS ∧
                          src = E ++ ["Default"; style; n] ∧
                          is_file (w_fs w) src = true) as H1.
    { intros src tgt Hin.
      assert (∃ m, m ∈ l ∧ (m = CopyDone src tgt ∨ m = DryRunCopyOverwrite src tgt))
        as (m & Hm & Hshape) by (destruct Hin; eauto).
      destruct (Hl m Hm) as (style & n & Hs & Hn & tgt' & Hm').
      exists style, n. apply elem_of_flat_files in Hn as (_ & Hfile & _).
      rewrite <-snoc2, Hpath in Hfile.
      assert (src = E ++ ["Default"; style; n]) as -> by (destruct Hshape, Hm'; congruence).
      done. }
    split; [exact H1|].
    intros src tgt v Hin Hv [k Hk].
    destruct (H1 src tgt Hin) as (style & n & _ & -> & _).
    rewrite <-app_assoc in Hk. apply app_inv_head in Hk. simpl in Hk. congruence. }
  destruct (exists_ (w_fs w) (E ++ ["metadata.json"])) eqn:Hex.
  2:{ exists w, []. rewrite process_emoji_dir_no_meta by done.
      rewrite app_nil_r. split_and!; [done..| | |by left].
      - intros ?? [[]%elem_of_nil|[]%elem_of_nil].
      - intros ??? [[]%elem_of_nil|[]%elem_of_nil]. }
  destruct (rename_files.read_code json_load (w_fs w) (E ++ ["metadata.json"]))
    as [code|warning] eqn:Hrc.
  2:{ exists (World (w_fs w) (w_out w ++ [warning])), [warning].
      rewrite (process_emoji_dir_warning _ _ _ _ _ warning) by done.
      assert (∀ src tgt, warning ≠ CopyDone src tgt ∧
                         warning ≠ DryRunCopyOverwrite src tgt) as Hw.
      { intros src tgt. unfold rename_files.read_code in Hrc.
        destruct (w_fs w !! _) as [[data|]|]; [|by injection Hrc as <-..].
        destruct (json_load data) as [[items|]|]; [|by injection Hrc as <-..].
        destruct (negb _); [by injection Hrc as <-|done]. }
      split_and!; [done..| | |by left].
      - intros src tgt [?%list_elem_of_singleton|?%list_elem_of_singleton];
          destruct (Hw src tgt); congruence.
      - intros src tgt v [?%list_elem_of_singleton|?%list_elem_of_singleton];
          destruct (Hw src tgt); congruence. }
  assert (∀ dry m, m ∈ flat_emoji_log dry (w_fs w) E O code →
            ∃ style n,
               style ∈ rename_files.STYLE_DIRS ∧
               n ∈ flat_files (w_fs w) (flat_base (w_fs w) E ++ [style]) ∧
               ∃ tgt, m = CopyDone (E ++ ["Default"; style; n]) tgt ∨
                      m = DryRunCopyOverwrite (E ++ ["Default"; style; n]) tgt) as Hsrcs.
  { intros dry m (style & n & Hs & Hn & ->)%flat_log_sources.
    exists style, n. split; [done|]. split; [done|]. rewrite Hpath.
    eexists. destruct dry; eauto. }
  destruct dry_run.
  - exists (World (w_fs w) (w_out w ++ flat_emoji_log true (w_fs w) E O code)),
           (flat_emoji_log true (w_fs w) E O code).
    rewrite (process_emoji_dir_dry_code _ _ _ code) by done.
    destruct (Hlog _ (Hsrcs true)) as [H1 H2].
    split_and!; [done..|by left].
  - destruct Hmode as [?|Hready]; [done|].
    destruct (process_emoji_dir_real json_load E O code w Hready Hex Hrc)
      as (f' & Hrun & Happ).
    exists (World f' (w_out w ++ flat_emoji_log false (w_fs w) E O code)),
           (flat_emoji_log false (w_fs w) E O code).
    destruct (Hlog _ (Hsrcs false)) as [H1 H2].
    split_and!; [done..|]. simpl.
    intros p. rewrite (Happ p).
    destruct (flat_emoji_effect (w_fs w) E O code p) as [v|] eqn:He; [|by left].
    right. apply flat_emoji_effect_Some in He as [[-> _]|(style & n & Hs & Hn & _ & ->)].
    + by left.
    + right. exists style, n. rewrite Hpath. split; [done|]. split; [|done].
      apply elem_of_flat_files in Hn as (_ & Hfile & _).
      by rewrite <-snoc2, Hpath in Hfile.
Qed.

Lemma flattener_default_only_witness :
  ∃ w' l,
    rename_files.process_emoji_dir ex_json_load ex_potato ["repo"; "unicode"] false
      (World ex_assets []) = Return () w' ∧
    w_out w' = [] ++ l ∧
    ∀ src tgt,
      CopyDone src tgt ∈ l ∨ DryRunCopyOverwrite src tgt ∈ l →
      ¬ ex_potato ++ ["Dark"] `prefix_of` src.
Proof.
  destruct (flattener_default_only ex_json_load ex_potato ["repo"; "unicode"] false
              (World ex_assets []))
    as (w' & l & Hrun & Hout & _ & Hsib & _).
  - vm_compute. reflexivity.
  - right. apply flat_ready_sound. vm_compute. reflexivity.
  - exists w', l. split; [exact Hrun|]. split; [exact Hout|].
    intros src tgt Hin. apply (Hsib src tgt "Dark" Hin). discriminate.
Defined.

(** C8.  A subdirectory without a metadata record is skipped in
    silence: [process_emoji_dir] returns the world as it was.  When the
    record cannot be read as a JSON object, or its [unicode] field is
    missing or blank, one warning is printed, nothing is written, and
    [process_emoji_dir] returns.  In both cases the loop over the
    subdirectories goes on with the remaining ones. *)
Theorem flattener_metadata_failures (json_load : string → option loaded) :
  (∀ (E O : path) (dry_run : bool) (w : world),
     exists_ (w_fs w) (E ++ ["metadata.json"]) = false →
     rename_files.process_emoji_dir json_load E O dry_run w = Return () w) ∧
  (∀ (E O : path) (dry_run : bool) (w : world),
     exists_ (w_fs w) (E ++ ["metadata.json"]) = true →
     match w_fs w !! (E ++ ["metadata.json"]) with
     | Some (File data) =>
         json_load data = None ∨ json_load data = Some LoadOther
     | _ => True
     end →
     rename_files.process_emoji_dir json_load E O dry_run w =
     Return () (World (w_fs w) (w_out w ++ [FailedToRead (E ++ ["metadata.json"])]))) ∧
  (∀ (E O : path) (dry_run : bool) (w : world) (data : string)
     (items : list (string * pyvalue)),
     w_fs w !! (E ++ ["metadata.json"]) = Some (File data) →
     json_load data = Some (LoadDict items) →
     Str.lower (Str.strip (rename_files.py_str
        (rename_files.dict_get items "unicode" (PyStr "")))) = "" →
     rename_files.process_emoji_dir json_load E O dry_run w =
     Return () (World (w_fs w) (w_out w ++ [MissingUnicode (E ++ ["metadata.json"])]))) ∧
  (∀ (A O : path) (dry_run : bool) (child : string) (rest : list string) (w : world),
     exists_ (w_fs w) (A ++ [child; "metadata.json"]) = false →
     for_each (child :: rest) (rename_files.process_child json_load A O dry_run) () w =
     for_each rest (rename_files.process_child json_load A O dry_run) () w) ∧
  (∀ (A O : path) (dry_run : bool) (child : string) (rest : list string) (w : world)
     (warning : msg),
     is_dir (w_fs w) (A ++ [child]) = true →
     exists_ (w_fs w) (A ++ [child; "metadata.json"]) = true →
     rename_files.read_code json_load (w_fs w) (A ++ [child; "metadata.json"])
       = inr warning →
     for_each (child :: rest) (rename_files.process_child json_load A O dry_run) () w =
     for_each rest (rename_files.process_child json_load A O dry_run) ()
       (World (w_fs w) (w_out w ++ [warning]))).
Proof.
  split_and!.
  - intros. by apply process_emoji_dir_no_meta.
  - intros E O dry_run w Hex Hbad.
    apply process_emoji_dir_warning; [done|]. unfold rename_files.read_code.
    destruct (w_fs w !! (E ++ ["metadata.json"])) as [[data|]|]; [|done..].
    by destruct Hbad as [-> | ->].
  - intros E O dry_run w data items Hf Hj Hblank.
    apply process_emoji_dir_warning.
    + unfold exists_. by rewrite Hf.
    + unfold rename_files.read_code. by rewrite Hf, Hj, Hblank.
  - intros A O dry_run child rest w Hex.
    rewrite for_each_cons. unfold bind at 1, rename_files.process_child at 1.
    unfold bind at 1, get_fs.
    destruct (is_dir (w_fs w) (A ++ [child])); [|done].
    rewrite process_emoji_dir_no_meta; [done|]. by rewrite <-snoc2.
  - intros A O dry_run child rest w warning Hd Hex Hrc.
    rewrite for_each_cons. unfold bind at 1, rename_files.process_child at 1.
    unfold bind at 1, get_fs. rewrite Hd.
    rewrite (process_emoji_dir_warning _ _ _ _ _ warning); [done|by rewrite <-snoc2..].
Qed.

Lemma flattener_metadata_failures_witness :
  rename_files.process_emoji_dir ex_json_load ["repo"; "assets"; "Notes"]
    ["repo"; "unicode"] false (World ex_assets []) = Return () (World ex_assets []) ∧
  rename_files.process_emoji_dir ex_json_load ["repo"; "assets"; "Broken"]
    ["repo"; "unicode"] false (World ex_assets []) =
  Return () (World ex_assets
               ([] ++ [FailedToRead (["repo"; "assets"; "Broken"] ++ ["metadata.json"])])).
Proof.
  destruct (flattener_metadata_failures ex_json_load) as (Hnone & Hbad & _).
  split.
  - apply (Hnone ["repo"; "assets"; "Notes"] ["repo"; "unicode"] false
             (World ex_assets [])).
    vm_compute. reflexivity.
  - apply (Hbad ["repo"; "assets"; "Broken"] ["repo"; "unicode"] false
             (World ex_assets [])).
    + vm_compute. reflexivity.
    + vm_compute. left. reflexivity.
Defined.

(** C7.  With the dry-run flag either tool leaves the whole file system
    as it found it: nothing is created, changed or removed, whether
    [main] returns or exits.  The dry run prints what a real run would
    do: for the Selector a copy line for every requested code that has a
    match and a removal line for every destination file matching
    [<code>*.*]; for the Flattener a copy line for every file of a style
    directory that would be copied. *)
Theorem dry_run_writes_nothing :
  (∀ (root : path) (unicode_root out : option path) (styles codes : option string)
     (w : world),
     w_fs (final_world
             (copy_schmoji.main
                (copy_schmoji.Args root unicode_root out styles codes true) w))
     = w_fs w) ∧
  (∀ (json_load : string → option loaded) (root : path) (out : option path)
     (w : world),
     w_fs (final_world
             (rename_files.main json_load (rename_files.Args root out true) w))
     = w_fs w) ∧
  (∀ (U O : path) (styles codes : list string) (w : world) (s code pref : string),
     s ∈ styles → code ∈ codes →
     copy_schmoji.chosen (w_fs w) (U ++ [s]) code = Some pref →
     ∃ w',
       copy_schmoji.copy_matches U O styles codes true w = Return () w' ∧
       w_fs w' = w_fs w ∧
       DryRunCopy (U ++ [s; pref]) (O ++ [s; code +:+ suffix pref]) ∈ w_out w' ∧
       ∀ old, old ∈ glob (w_fs w) (O ++ [s]) (pat_any code) →
              DryRunRemove (O ++ [s; old]) ∈ w_out w') ∧
  (∀ (json_load : string → option loaded) (E O : path) (w : world)
     (code style n : string),
     exists_ (w_fs w) (E ++ ["metadata.json"]) = true →
     rename_files.read_code json_load (w_fs w) (E ++ ["metadata.json"]) = inl code →
     style ∈ rename_files.STYLE_DIRS →
     n ∈ flat_files (w_fs w) (flat_base (w_fs w) E ++ [style]) →
     ∃ w',
       rename_files.process_emoji_dir json_load E O true w = Return () w' ∧
       w_fs w' = w_fs w ∧
       DryRunCopyOverwrite (flat_base (w_fs w) E ++ [style; n])
                           (O ++ [style; code +:+ suffix n]) ∈ w_out w').
Proof.
  split_and!.
  - intros root unicode_root out styles codes w.
    set (a := copy_schmoji.Args root unicode_root out styles codes true).
    destruct (exists_ (w_fs w) (copy_schmoji.a_root a)) eqn:Hroot.
    2:{ by rewrite selector_main_no_root. }
    destruct (exists_ (w_fs w) (copy_schmoji.unicode_root_of (w_fs w) a)) eqn:Huni.
    2:{ by rewrite selector_main_no_unicode. }
    rewrite selector_main_run by done. simpl. by rewrite copy_matches_dry.
  - intros json_load root out w. apply keeps_flattener_main_dry.
  - intros U O styles codes w s code pref Hs Hc Hch.
    rewrite copy_matches_dry. eexists. split; [done|]. simpl. split; [done|].
    pose proof (chosen_exists U (w_fs w) s code pref Hch) as Hex.
    split.
    + apply elem_of_app. right.
      apply (sel_run_dry_log_code _ _ _ _ _ s code); try done.
      unfold sel_code_dry_log. rewrite Hch. apply elem_of_app. right. left.
    + intros old Hold. apply elem_of_app. right.
      apply (sel_run_dry_log_code _ _ _ _ _ s code); try done.
      unfold sel_code_dry_log. rewrite Hch. apply elem_of_app. left.
      apply list_elem_of_fmap. exists old. split; [done|]. by apply elem_of_sorted.
  - intros json_load E O w code style n Hex Hrc Hs Hn.
    rewrite (process_emoji_dir_dry_code json_load E O code w Hex Hrc).
    eexists. split; [done|]. simpl. split; [done|].
    apply elem_of_app. right.
    apply (flat_log_has true (w_fs w) E O code style n Hs Hn).
Qed.

Lemma dry_run_writes_nothing_witness :
  ∃ w',
    copy_schmoji.copy_matches ex_unicode ex_out ["Color"] ["1f954"] true
      (World ex_fs []) = Return () w' ∧
    w_fs w' = ex_fs ∧
    DryRunCopy (ex_unicode ++ ["Color"; "1f954.svg"])
               (ex_out ++ ["Color"; "1f954" +:+ suffix "1f954.svg"]) ∈ w_out w' ∧
    DryRunRemove (ex_out ++ ["Color"; "1f954.png"]) ∈ w_out w'.
Proof.
  destruct dry_run_writes_nothing as (_ & _ & Hsel & _).
  destruct (Hsel ex_unicode ex_out ["Color"] ["1f954"] (World ex_fs [])
              "Color" "1f954" "1f954.svg")
    as (w' & Hrun & Hfs & Hcopy & Hrm).
  - left.
  - left.
  - vm_compute. reflexivity.
  - exists w'. split; [exact Hrun|]. split; [exact Hfs|]. split; [exact Hcopy|].
    apply Hrm. apply elem_of_glob. vm_compute. eauto.
Defined.

(** C6: the Flattener's [main], given a root that does not exist, prints
    the error line and returns, so the process ends with status 0; the
    Selector's [main] exits with status 1 on the same input. *)
Theorem flattener_missing_root_exit_status :
  exists_ ex_assets ["nowhere"] = false ∧
  rename_files.main ex_json_load (rename_files.Args ["nowhere"] None false)
    (World ex_assets []) =
  Return () (World ex_assets [PathNotFound ["nowhere"]]) ∧
  exit_status (rename_files.main ex_json_load
                 (rename_files.Args ["nowhere"] None false) (World ex_assets []))
  = 0%Z ∧
  exit_status (copy_schmoji.main
                 (copy_schmoji.Args ["nowhere"] None None None None false)
                 (World ex_assets []))
  = 1%Z.
Proof.
  assert (exists_ ex_assets ["nowhere"] = false) as Hno by by vm_compute.
  split; [exact Hno|].
  rewrite (flattener_main_no_root ex_json_load
             (rename_files.Args ["nowhere"] None false) (World ex_assets []) Hno).
  rewrite (selector_main_no_root
             (copy_schmoji.Args ["nowhere"] None None None None false)
             (World ex_assets []) Hno).
  done.
Qed.

(** ** Beyond the claims: [strip], [lower] and the code lists *)

Lemma lower_char_idem (c : ascii) :
  Str.lower_char (Str.lower_char c) = Str.lower_char c.
Proof. by destruct c as [[] [] [] [] [] [] [] []]. Qed.

Lemma is_space_lower_char (c : ascii) :
  Str.is_space (Str.lower_char c) = Str.is_space c.
Proof. by destruct c as [[] [] [] [] [] [] [] []]. Qed.

Lemma is_upper_lower_char (c : ascii) : is_upper (Str.lower_char c) = false.
Proof. by destruct c as [[] [] [] [] [] [] [] []]. Qed.

Lemma lower_idem (s : string) : Str.lower (Str.lower s) = Str.lower s.
Proof. induction s as [|c s IH]; simpl; [done|]. by rewrite lower_char_idem, IH. Qed.

Lemma lower_lstrip (s : string) : Str.lower (Str.lstrip s) = Str.lstrip (Str.lower s).
Proof.
  induction s as [|c s IH]; simpl; [done|].
  rewrite is_space_lower_char. by destruct (Str.is_space c).
Qed.

Lemma lower_rstrip (s : string) : Str.lower (Str.rstrip s) = Str.rstrip (Str.lower s).
Proof.
  induction s as [|c s IH]; simpl; [done|].
  rewrite <-IH, is_space_lower_char.
  destruct (Str.rstrip s) as [|d r]; simpl; [|done].
  by destruct (Str.is_space c).
Qed.

Lemma lower_strip (s : string) : Str.lower (Str.strip s) = Str.strip (Str.lower s).
Proof. unfold Str.strip. by rewrite lower_rstrip, lower_lstrip. Qed.

Lemma lstrip_head_ok (s : string) : head_ok (Str.lstrip s).
Proof.
  induction s as [|c s IH]; simpl; [done|].
  destruct (Str.is_space c) eqn:Hc; [done|]. simpl. done.
Qed.

Lemma lstrip_of_head_ok (s : string) : head_ok s → Str.lstrip s = s.
Proof. destruct s as [|c s]; simpl; [done|]. by intros ->. Qed.

Lemma rstrip_head_ok (s : string) : head_ok s → head_ok (Str.rstrip s).
Proof.
  destruct s as [|c s]; simpl; [done|]. intros Hc.
  destruct (Str.rstrip s); [by rewrite Hc|done].
Qed.

Lemma rstrip_idem (s : string) : Str.rstrip (Str.rstrip s) = Str.rstrip s.
Proof.
  induction s as [|c s IH]; simpl; [done|].
  destruct (Str.rstrip s) as [|d r] eqn:Hr.
  - destruct (Str.is_space c) eqn:Hc; simpl; [done|]. by rewrite Hc.
  - change (Str.rstrip (String c (String d r))) with
      (match Str.rstrip (String d r) with
       | EmptyString => if Str.is_space c then EmptyString else String c EmptyString
       | r' => String c r'
       end).
    by rewrite IH.
Qed.

Lemma strip_idem (s : string) : Str.strip (Str.strip s) = Str.strip s.
Proof.
  unfold Str.strip.
  rewrite (lstrip_of_head_ok (Str.rstrip (Str.lstrip s)))
    by apply rstrip_head_ok, lstrip_head_ok.
  apply rstrip_idem.
Qed.

(** Stripping and lowercasing a second time changes nothing. *)
Lemma norm_idem (s : string) :
  Str.lower (Str.strip (Str.lower (Str.strip s))) = Str.lower (Str.strip s).
Proof. by rewrite <-lower_strip, lower_idem, strip_idem. Qed.

Lemma truthy_false (s : string) : negb (Str.truthy s) = true ↔ s = "".
Proof. by destruct s. Qed.

Lemma normalize_loop_spec (codes seen out : list string) :
  (∀ x, x ∈ seen ↔ x ∈ out) → NoDup out →
  NoDup (copy_schmoji.normalize_loop codes seen out) ∧
  ∀ c, c ∈ copy_schmoji.normalize_loop codes seen out ↔
       c ∈ out ∨ (c ≠ "" ∧ ∃ x, x ∈ codes ∧ c = Str.lower (Str.strip x)).
Proof.
  revert seen out. induction codes as [|x codes IH]; intros seen out Hso Hnd; simpl.
  - split; [done|]. intros c. split; [by left|].
    intros [?|(_ & y & []%elem_of_nil & _)]. done.
  - set (cc := Str.lower (Str.strip x)).
    destruct (negb (Str.truthy cc)) eqn:Ht.
    { apply truthy_false in Ht. destruct (IH seen out Hso Hnd) as [H1 H2].
      split; [done|]. intros c. rewrite H2. split.
      - intros [?|(Hc & y & Hy & ->)]; [by left|right].
        split; [done|]. exists y. split; [by right|done].
      - intros [?|(Hc & y & [->|Hy]%elem_of_cons & ->)]; [by left| |].
        + by destruct Hc.
        + right. split; [done|]. by exists y. }
    case_bool_decide as Hin.
    { destruct (IH seen out Hso Hnd) as [H1 H2].
      split; [done|]. intros c. rewrite H2. split.
      - intros [?|(Hc & y & Hy & ->)]; [by left|right].
        split; [done|]. exists y. split; [by right|done].
      - intros [?|(Hc & y & [->|Hy]%elem_of_cons & ->)]; [by left| |].
        + left. by apply Hso.
        + right. split; [done|]. by exists y. }
    destruct (IH (cc :: seen) (out ++ [cc])) as [H1 H2].
    { intros y. rewrite elem_of_cons, elem_of_app, list_elem_of_singleton, Hso. tauto. }
    { apply NoDup_app. split; [done|]. split; [|apply NoDup_singleton].
      intros y Hy ->%list_elem_of_singleton. by apply Hin, Hso. }
    split; [done|]. intros c. rewrite H2, elem_of_app, list_elem_of_singleton.
    assert (cc ≠ "") as Hne.
    { intros Heq. rewrite Heq in Ht. done. }
    split.
    + intros [[?| ->]|(Hc & y & Hy & ->)].
      * by left.
      * right. split; [done|]. exists x. split; [left|done].
      * right. split; [done|]. exists y. split; [by right|done].
    + intros [?|(Hc & y & [->|Hy]%elem_of_cons & ->)].
      * left. by left.
      * left. by right.
      * right. split; [done|]. by exists y.
Qed.

(** X1.  [normalize_codes] returns the stripped and lowercased codes
    that are not empty, each once. *)
Theorem normalize_codes_spec (codes : list string) :
  NoDup (copy_schmoji.normalize_codes codes) ∧
  ∀ c, c ∈ copy_schmoji.normalize_codes codes ↔
       c ≠ "" ∧ ∃ x, x ∈ codes ∧ c = Str.lower (Str.strip x).
Proof.
  destruct (normalize_loop_spec codes [] []) as [H1 H2]; [done|constructor|].
  split; [done|]. intros c. unfold copy_schmoji.normalize_codes. rewrite H2.
  split; [|by right]. by intros [[]%elem_of_nil|?].
Qed.

Lemma normalize_loop_fixed (l seen out : list string) :
  NoDup l →
  (∀ c, c ∈ l → c ≠ "" ∧ Str.lower (Str.strip c) = c ∧ c ∉ seen) →
  copy_schmoji.normalize_loop l seen out = out ++ l.
Proof.
  revert seen out. induction l as [|c l IH]; intros seen out Hnd Hl; simpl.
  - by rewrite app_nil_r.
  - apply NoDup_cons in Hnd as [Hc Hnd].
    destruct (Hl c) as (Hne & Hfix & Hseen); [left|]. rewrite Hfix.
    destruct (negb (Str.truthy c)) eqn:Ht; [by apply truthy_false in Ht|].
    rewrite bool_decide_false by done.
    rewrite IH; [by rewrite <-app_assoc|done|].
    intros y Hy. destruct (Hl y) as (? & ? & ?); [by right|].
    split_and!; [done..|]. intros [->|?]%elem_of_cons; done.
Qed.

(** X2.  Normalizing a normalized list of codes gives it back. *)
Theorem normalize_codes_idempotent (codes : list string) :
  copy_schmoji.normalize_codes (copy_schmoji.normalize_codes codes) =
  copy_schmoji.normalize_codes codes.
Proof.
  destruct (normalize_codes_spec codes) as [Hnd Hin].
  unfold copy_schmoji.normalize_codes at 1.
  rewrite normalize_loop_fixed; [done..|].
  intros c (Hne & x & _ & ->)%Hin. split; [done|]. split; [apply norm_idem|].
  apply not_elem_of_nil.
Qed.

(** ** Beyond the claims: styles, roots and fatal errors *)

Lemma truthy_true (s : string) : Str.truthy s = true ↔ s ≠ "".
Proof. by destruct s. Qed.

(** X3.  [parse_styles] never returns an empty list, and every style it
    returns is stripped and not empty; without the option, or when every
    comma-separated piece is blank, the styles are the default ones;
    otherwise they are the stripped non-blank pieces, in order,
    duplicates kept. *)
Theorem parse_styles_spec :
  (∀ arg, copy_schmoji.parse_styles arg ≠ []) ∧
  (∀ arg s, s ∈ copy_schmoji.parse_styles arg → s ≠ "" ∧ Str.strip s = s) ∧
  copy_schmoji.parse_styles None = copy_schmoji.DEFAULT_STYLES ∧
  (∀ a, (∀ p, p ∈ Str.split_comma a → Str.strip p = "") →
        copy_schmoji.parse_styles (Some a) = copy_schmoji.DEFAULT_STYLES) ∧
  (∀ a p, p ∈ Str.split_comma a → Str.strip p ≠ "" →
          copy_schmoji.parse_styles (Some a) =
          Str.strip <$> filter (λ p, Str.strip p ≠ "") (Str.split_comma a)).
Proof.
  assert (∀ a, filter (λ p, Str.truthy (Str.strip p) = true) (Str.split_comma a) =
               filter (λ p, Str.strip p ≠ "") (Str.split_comma a)) as Hfilter.
  { intros a. apply list_filter_iff. intros p. apply truthy_true. }
  assert (∀ a p, p ∈ Str.split_comma a → Str.strip p ≠ "" →
          copy_schmoji.parse_styles (Some a) =
          Str.strip <$> filter (λ p, Str.strip p ≠ "") (Str.split_comma a)) as Hsome.
  { intros a p Hp Hne. unfold copy_schmoji.parse_styles.
    destruct (negb (Str.truthy a)) eqn:Ha.
    { apply truthy_false in Ha as ->. simpl in Hp.
      apply list_elem_of_singleton in Hp as ->. done. }
    rewrite Hfilter.
    destruct (Str.strip <$> filter _ _) as [|s l] eqn:Hl; [|done].
    apply fmap_nil_inv in Hl.
    assert (p ∈ filter (λ p, Str.strip p ≠ "") (Str.split_comma a)) as Hin
      by by apply list_elem_of_filter.
    rewrite Hl in Hin. by apply elem_of_nil in Hin. }
  assert (∀ a, (∀ p, p ∈ Str.split_comma a → Str.strip p = "") →
        copy_schmoji.parse_styles (Some a) = copy_schmoji.DEFAULT_STYLES) as Hblank.
  { intros a Hall. unfold copy_schmoji.parse_styles.
    destruct (negb (Str.truthy a)); [done|]. rewrite Hfilter.
    destruct (filter _ _) as [|p l] eqn:Hl; [done|].
    assert (p ∈ filter (λ p, Str.strip p ≠ "") (Str.split_comma a)) as Hin
      by (rewrite Hl; left).
    apply list_elem_of_filter in Hin as [Hne Hin]. destruct Hne. by apply Hall. }
  assert (∀ arg, copy_schmoji.parse_styles arg = copy_schmoji.DEFAULT_STYLES ∨
                 ∃ a p, arg = Some a ∧ p ∈ Str.split_comma a ∧ Str.strip p ≠ "") as Hcases.
  { intros [a|]; [|by left].
    destruct (decide (Forall (λ p, Str.strip p = "") (Str.split_comma a))) as [Hall|Hex].
    - left. apply Hblank. by apply Forall_forall.
    - right. apply not_Forall_Exists in Hex; [|apply _].
      apply Exists_exists in Hex as (p & Hp & Hne). by exists a, p. }
  split_and!; [| |done|exact Hblank|exact Hsome].
  - intros arg. destruct (Hcases arg) as [->|(a & p & -> & Hp & Hne)]; [done|].
    rewrite (Hsome a p Hp Hne). intros Hnil%fmap_nil_inv.
    assert (p ∈ filter (λ p, Str.strip p ≠ "") (Str.split_comma a)) as Hin
      by by apply list_elem_of_filter.
    rewrite Hnil in Hin. by apply elem_of_nil in Hin.
  - intros arg s. destruct (Hcases arg) as [->|(a & p & -> & Hp & Hne)].
    + intros [->|[->|[]%elem_of_nil]%elem_of_cons]%elem_of_cons; by vm_compute.
    + rewrite (Hsome a p Hp Hne).
      intros (q & -> & [Hq _]%list_elem_of_filter)%list_elem_of_fmap.
      split; [done|apply strip_idem].
Qed.

(** X4.  The Selector's [main] ends with exit status 1 when the root or
    the unicode root does not exist: it prints one error line and
    writes nothing, dry run or not. *)
Theorem selector_main_fatal (a : copy_schmoji.args) (w : world) :
  exists_ (w_fs w) (copy_schmoji.a_root a) = false ∨
  exists_ (w_fs w) (copy_schmoji.unicode_root_of (w_fs w) a) = false →
  ∃ m,
    copy_schmoji.main a w =
      Raise (SystemExit 1) (World (w_fs w) (w_out w ++ [m])) ∧
    (m = PathNotFound (copy_schmoji.a_root a) ∨
     m = UnicodeRootNotFound (copy_schmoji.unicode_root_of (w_fs w) a)) ∧
    exit_status (copy_schmoji.main a w) = 1%Z.
Proof.
  intros H.
  destruct (exists_ (w_fs w) (copy_schmoji.a_root a)) eqn:Hroot.
  - destruct H as [?|Huni]; [done|].
    rewrite (selector_main_no_unicode a w Hroot Huni). eexists. eauto.
  - rewrite (selector_main_no_root a w Hroot). eexists. eauto.
Qed.

Lemma selector_main_fatal_witness :
  ∃ m,
    copy_schmoji.main (copy_schmoji.Args ["repo"] None None None None false)
      (World ex_assets []) =
      Raise (SystemExit 1) (World ex_assets ([] ++ [m])) ∧
    exit_status (copy_schmoji.main
                   (copy_schmoji.Args ["repo"] None None None None false)
                   (World ex_assets [])) = 1%Z.
Proof.
  destruct (selector_main_fatal
              (copy_schmoji.Args ["repo"] None None None None false)
              (World ex_assets [])) as (m & Hrun & _ & Hstatus).
  - right. vm_compute. reflexivity.
  - exists m. split; [exact Hrun|exact Hstatus].
Defined.

(** *** Locating the repository root *)

Lemma climb_spec (f : fs) (l : list string) :
  copy_schmoji.climb f l `prefix_of` rev l ∧
  (exists_ f (copy_schmoji.climb f l ++ ["assets"]) = true ∨
   copy_schmoji.climb f l = []) ∧
  (∀ q, q `prefix_of` rev l → exists_ f (q ++ ["assets"]) = true →
        q `prefix_of` copy_schmoji.climb f l).
Proof.
  induction l as [|x up IH]; simpl.
  - split; [done|]. split; [by right|]. by intros q ->%prefix_nil_inv.
  - destruct (exists_ f ((rev up ++ [x]) ++ ["assets"])) eqn:Hex.
    + split; [done|]. split; [by left|]. done.
    + destruct IH as (H1 & H2 & H3). split; [by apply prefix_app_r|].
      split; [done|]. intros q [Hq| ->]%prefix_snoc_inv Hqa; [by apply H3|].
      congruence.
Qed.

(** X5.  The Selector's repository root, for a root that exists, is the
    nearest ancestor of the root (the root included) that has an
    [assets] entry; when there is none it is the file system root. *)
Theorem repo_root_of_nearest (f : fs) (root : path) :
  exists_ f root = true →
  copy_schmoji.repo_root_of f root `prefix_of` root ∧
  (exists_ f (copy_schmoji.repo_root_of f root ++ ["assets"]) = true ∨
   copy_schmoji.repo_root_of f root = []) ∧
  (∀ q, q `prefix_of` root → exists_ f (q ++ ["assets"]) = true →
        q `prefix_of` copy_schmoji.repo_root_of f root).
Proof.
  intros Hroot. unfold copy_schmoji.repo_root_of.
  destruct (exists_ f (root ++ ["assets"])) eqn:Hex.
  { split; [done|]. split; [by left|]. done. }
  destruct (bool_decide (name_of root = "assets") && exists_ f (parent root)) eqn:Hcase.
  - apply andb_true_iff in Hcase as [Hname%bool_decide_eq_true _].
    assert (root ≠ []) as Hne by (by intros ->).
    pose proof (app_removelast_last "" Hne) as Hsplit.
    fold (parent root) in Hsplit. fold (name_of root) in Hsplit. rewrite Hname in Hsplit.
    split; [by exists ["assets"]|]. split; [left; by rewrite <-Hsplit|].
    intros q Hq Hqa. rewrite Hsplit in Hq.
    apply prefix_snoc_inv in Hq as [Hq|Hq]; [done|]. rewrite <-Hsplit in Hq.
    subst q. congruence.
  - pose proof (climb_spec f (rev root)) as Hc. by rewrite rev_involutive in Hc.
Qed.

Lemma repo_root_of_nearest_witness :
  copy_schmoji.repo_root_of ex_assets ["repo"; "assets"; "Potato"] `prefix_of`
    ["repo"; "assets"; "Potato"] ∧
  (exists_ ex_assets
     (copy_schmoji.repo_root_of ex_assets ["repo"; "assets"; "Potato"] ++ ["assets"])
   = true ∨
   copy_schmoji.repo_root_of ex_assets ["repo"; "assets"; "Potato"] = []).
Proof.
  destruct (repo_root_of_nearest ex_assets ["repo"; "assets"; "Potato"])
    as (H1 & H2 & _).
  - vm_compute. reflexivity.
  - split; [exact H1|exact H2].
Defined.

Lemma find_up_spec (f : fs) (start : path) (l : list string) :
  (is_dir f (rename_files.find_up f start l ++ ["assets"]) = true ∧
   rename_files.find_up f start l `prefix_of` rev l ∧
   ∀ q, q `prefix_of` rev l → is_dir f (q ++ ["assets"]) = true →
        q `prefix_of` rename_files.find_up f start l) ∨
  (rename_files.find_up f start l = start ∧
   ∀ q, q `prefix_of` rev l → is_dir f (q ++ ["assets"]) = false).
Proof.
  induction l as [|x up IH].
  - simpl. destruct (is_dir f ["assets"]) eqn:Hd.
    + left. split; [done|]. split; [done|]. by intros q ->%prefix_nil_inv.
    + right. split; [done|]. by intros q ->%prefix_nil_inv.
  - change (rename_files.find_up f start (x :: up)) with
      (if is_dir f (rev (x :: up) ++ ["assets"]) then rev (x :: up)
       else rename_files.find_up f start up).
    destruct (is_dir f (rev (x :: up) ++ ["assets"])) eqn:Hd.
    + left. split; [done|]. split; [done|]. done.
    + simpl rev in *. destruct IH as [(H1 & H2 & H3)|[H1 H2]].
      * left. split; [done|]. split; [by apply prefix_app_r|].
        intros q [Hq| ->]%prefix_snoc_inv Hqa; [by apply H3|congruence].
      * right. split; [done|].
        intros q [Hq| ->]%prefix_snoc_inv; [by apply H2|done].
Qed.

(** X6.  [find_repo_root] returns the nearest ancestor of [start] (itself
    included) that contains an [assets] directory, and [start] when
    there is none. *)
Theorem find_repo_root_spec (f : fs) (start : path) :
  (is_dir f (rename_files.find_repo_root f start ++ ["assets"]) = true ∧
   rename_files.find_repo_root f start `prefix_of` start ∧
   ∀ q, q `prefix_of` start → is_dir f (q ++ ["assets"]) = true →
        q `prefix_of` rename_files.find_repo_root f start) ∨
  (rename_files.find_repo_root f start = start ∧
   ∀ q, q `prefix_of` start → is_dir f (q ++ ["assets"]) = false).
Proof.
  unfold rename_files.find_repo_root.
  pose proof (find_up_spec f start (rev start)) as H.
  by rewrite rev_involutive in H.
Qed.

(** X7.  The two tools meet: run on the same root, with no [--out] and
    no [--unicode-root], the Flattener writes where the Selector reads,
    provided the root exists and is not itself an emoji folder, some
    ancestor of the root (the root included) has an [assets] entry, and
    every such entry is a directory. *)
Theorem default_roots_agree (f : fs) (root : path) (out : option path)
    (styles codes : option string) (dry_run : bool) (q0 : path) :
  exists_ f root = true →
  exists_ f (root ++ ["metadata.json"]) = false →
  q0 `prefix_of` root → exists_ f (q0 ++ ["assets"]) = true →
  (∀ q, q `prefix_of` root → exists_ f (q ++ ["assets"]) = true →
        is_dir f (q ++ ["assets"]) = true) →
  rename_files.resolve_out_root f root None =
  copy_schmoji.unicode_root_of f
    (copy_schmoji.Args root None out styles codes dry_run).
Proof.
  intros Hroot Hmeta Hq0 Hq0a Hdirs.
  unfold rename_files.resolve_out_root, copy_schmoji.unicode_root_of. simpl.
  rewrite Hmeta. f_equal.
  destruct (repo_root_of_nearest f root Hroot) as (Hs1 & Hs2 & Hs3).
  destruct (find_repo_root_spec f root) as [(Hf1 & Hf2 & Hf3)|[_ Hnone]].
  2:{ specialize (Hdirs q0 Hq0 Hq0a). by rewrite (Hnone q0 Hq0) in Hdirs. }
  apply (anti_symm prefix).
  - apply Hs3; [done|]. unfold is_dir in Hf1. unfold exists_.
    by destruct (f !! _).
  - destruct Hs2 as [Hs2| ->]; [|apply prefix_nil].
    apply Hf3; [done|]. by apply Hdirs.
Qed.

Lemma default_roots_agree_witness :
  rename_files.resolve_out_root ex_assets ["repo"] None =
  copy_schmoji.unicode_root_of ex_assets
    (copy_schmoji.Args ["repo"] None None None None false).
Proof.
  apply (default_roots_agree ex_assets ["repo"] None None None false ["repo"]).
  - vm_compute. reflexivity.
  - vm_compute. reflexivity.
  - reflexivity.
  - vm_compute. reflexivity.
  - intros q Hq Hex. destruct Hq as [k Hk].
    destruct q as [|x [|y q]]; simpl in Hk.
    + vm_compute in Hex. discriminate.
    + injection Hk as <- _. vm_compute. reflexivity.
    + injection Hk as _ Hk. destruct q; discriminate.
Defined.

(** ** Beyond the claims: the Selector's output and frame *)

Lemma omap_realize_removes (d : path) (s : string) (olds : list string) :
  omap realize ((λ old, DryRunRemove (d ++ [s; old])) <$> olds) = [].
Proof. by induction olds. Qed.

Lemma realize_code_log (f : fs) (U O : path) (s code : string) :
  omap realize (sel_code_dry_log f U O s code) = [sel_code_msg f U O s code].
Proof.
  unfold sel_code_dry_log, sel_code_msg.
  destruct (copy_schmoji.chosen f (U ++ [s]) code) as [pref|]; [|done].
  by rewrite omap_app, omap_realize_removes.
Qed.

Lemma realize_style_log (f : fs) (U O : path) (codes : list string) (s : string) :
  omap realize (sel_style_dry_log f U O codes s) = sel_style_log f U O codes s.
Proof.
  unfold sel_style_dry_log, sel_style_log.
  destruct (exists_ f (U ++ [s])); [|done].
  induction codes as [|code codes IH]; [done|].
  by rewrite !fmap_cons, concat_cons, omap_app, realize_code_log, IH.
Qed.

Lemma realize_run_log (f : fs) (U O : path) (styles codes : list string) :
  omap realize (sel_run_dry_log f U O styles codes) = sel_run_log f U O styles codes.
Proof.
  unfold sel_run_dry_log, sel_run_log. rewrite omap_app. f_equal.
  - induction styles as [|s styles IH]; [done|].
    by rewrite !fmap_cons, !concat_cons, omap_app, realize_style_log, IH.
  - by destruct (existsb _ _).
Qed.

(** X8.  A dry run of the Selector is faithful: from a tree a real run
    can start from, the lines of the real run are the lines of the dry
    run with every planned copy turned into a copy and the planned
    removals left out: the same warnings, and the same copies with the
    same sources and destinations, in the same order.  The codes are
    plain file-name stems ([code_ok]). *)
Theorem selector_dry_run_faithful (U O : path) (styles codes : list string)
    (w : world) :
  sel_ready U O styles (w_fs w) →
  Forall code_ok codes →
  ∃ wd wr ld lr,
    copy_schmoji.copy_matches U O styles codes true w = Return () wd ∧
    copy_schmoji.copy_matches U O styles codes false w = Return () wr ∧
    w_out wd = w_out w ++ ld ∧ w_out wr = w_out w ++ lr ∧
    omap realize ld = lr.
Proof.
  intros [Hpre Hinv] _.
  destruct (copy_matches_real U O styles (w_fs w) Hpre codes w Hinv)
    as (f' & Hrun & _).
  rewrite copy_matches_dry, Hrun.
  eexists _, _, _, _. split_and!; [done..|]. apply realize_run_log.
Qed.

Lemma selector_dry_run_faithful_witness :
  ∃ wd wr ld lr,
    copy_schmoji.copy_matches ex_unicode ex_out ["Color"; "3D"] ["1f954"; "ffffff"]
      true (World ex_fs []) = Return () wd ∧
    copy_schmoji.copy_matches ex_unicode ex_out ["Color"; "3D"] ["1f954"; "ffffff"]
      false (World ex_fs []) = Return () wr ∧
    w_out wd = [] ++ ld ∧ w_out wr = [] ++ lr ∧
    omap realize ld = lr.
Proof.
  apply (selector_dry_run_faithful ex_unicode ex_out ["Color"; "3D"]
           ["1f954"; "ffffff"] (World ex_fs [])).
  - apply sel_ready_sound. vm_compute. reflexivity.
  - repeat first [done | constructor].
Defined.

Lemma sel_style_log_no_summary (f : fs) (U O : path) (codes : list string)
    (s : string) (m : msg) :
  m ∈ sel_style_log f U O codes s →
  (m = MissingStyleFolder (U ++ [s]) ∧ exists_ f (U ++ [s]) = false) ∨
  (∃ code, code ∈ codes ∧ m = NotFound (U ++ [s]) code ∧
           copy_schmoji.chosen f (U ++ [s]) code = None) ∨
  (∃ src dst, m = Copied src dst).
Proof.
  unfold sel_style_log. destruct (exists_ f (U ++ [s])).
  - intros (code & -> & Hc)%list_elem_of_fmap. right. unfold sel_code_msg.
    destruct (copy_schmoji.chosen f (U ++ [s]) code) eqn:Hch; [right; eauto|].
    left. by exists code.
  - intros ->%list_elem_of_singleton. by left.
Qed.

Lemma elem_of_concat_fmap_inv {A B} (g : A → list B) (l : list A) (y : B) :
  y ∈ concat (g <$> l) → ∃ x, x ∈ l ∧ y ∈ g x.
Proof.
  induction l as [|a l IH]; simpl; [by intros ?%elem_of_nil|].
  intros [?|(x & ? & ?)%IH]%elem_of_app.
  - exists a. split; [left|done].
  - exists x. split; [by right|done].
Qed.

(** X9.  In a real run the summary warning is printed exactly when a
    requested style folder is missing or a requested code has no match
    in a style folder; and every line of a run in which nothing is
    missing is a copy line.  The codes are plain file-name stems
    ([code_ok]). *)
Theorem selector_summary_iff (U O : path) (styles codes : list string) (w : world) :
  sel_ready U O styles (w_fs w) →
  Forall code_ok codes →
  ∃ w' l,
    copy_schmoji.copy_matches U O styles codes false w = Return () w' ∧
    w_out w' = w_out w ++ l ∧
    (SomeAssetsMissing ∈ l ↔
     ∃ s, s ∈ styles ∧
          (exists_ (w_fs w) (U ++ [s]) = false ∨
           ∃ code, code ∈ codes ∧
                   copy_schmoji.chosen (w_fs w) (U ++ [s]) code = None)) ∧
    (SomeAssetsMissing ∉ l → ∀ m, m ∈ l → ∃ src dst, m = Copied src dst).
Proof.
  intros [Hpre Hinv] _.
  destruct (copy_matches_real U O styles (w_fs w) Hpre codes w Hinv)
    as (f' & Hrun & _).
  rewrite Hrun. eexists _, _. split; [done|]. split; [done|]. simpl.
  assert (existsb (sel_style_missing (w_fs w) U codes) styles = true ↔
          ∃ s, s ∈ styles ∧
               (exists_ (w_fs w) (U ++ [s]) = false ∨
                ∃ code, code ∈ codes ∧
                        copy_schmoji.chosen (w_fs w) (U ++ [s]) code = None)) as Hex.
  { rewrite existsb_exists. split.
    - intros (s & Hs%list_elem_of_In & Hm). exists s. split; [done|].
      unfold sel_style_missing in Hm. apply orb_true_iff in Hm as [Hm|Hm].
      + left. by apply negb_true_iff.
      + right. apply existsb_exists in Hm as (code & Hc%list_elem_of_In & Hm).
        exists code. split; [done|]. unfold sel_code_missing in Hm.
        by destruct (copy_schmoji.chosen _ _ _).
    - intros (s & Hs & Hm). exists s. split; [by apply list_elem_of_In|].
      destruct Hm as [Hm|(code & Hc & Hm)].
      + unfold sel_style_missing. by rewrite Hm.
      + by eapply style_missing_code. }
  assert (∀ m, m ∈ concat (sel_style_log (w_fs w) U O codes <$> styles) →
            m ≠ SomeAssetsMissing ∧
            (existsb (sel_style_missing (w_fs w) U codes) styles = false →
             ∃ src dst, m = Copied src dst)) as Hbody.
  { intros m (s & Hs & Hm)%elem_of_concat_fmap_inv.
    apply sel_style_log_no_summary in Hm
      as [[-> Hno]|[(code & Hc & -> & Hch)|(src & dst & ->)]].
    - split; [done|]. intros Hnone.
      assert (existsb (sel_style_missing (w_fs w) U codes) styles = true) as Ht.
      { apply Hex. exists s. auto. }
      congruence.
    - split; [done|]. intros Hnone.
      assert (existsb (sel_style_missing (w_fs w) U codes) styles = true) as Ht.
      { apply Hex. exists s. split; [done|]. right. by exists code. }
      congruence.
    - split; [done|]. intros _. by exists src, dst. }
  unfold sel_run_log. split.
  - rewrite <-Hex. rewrite elem_of_app.
    destruct (existsb _ _); split; try done.
    + intros _. right. left.
    + intros [Hm|[]%elem_of_nil]. by destruct (Hbody _ Hm).
  - intros Hnot m Hm. rewrite elem_of_app in Hnot, Hm.
    destruct (existsb _ _) eqn:Hb.
    + destruct Hnot. right. left.
    + destruct Hm as [Hm|[]%elem_of_nil]. by apply (Hbody m Hm).
Qed.

Lemma selector_summary_iff_witness :
  ∃ w' l,
    copy_schmoji.copy_matches ex_unicode ex_out ["Color"] ["1f954"; "26f8"] false
      (World ex_fs []) = Return () w' ∧
    w_out w' = [] ++ l ∧
    (SomeAssetsMissing ∉ l → ∀ m, m ∈ l → ∃ src dst, m = Copied src dst).
Proof.
  destruct (selector_summary_iff ex_unicode ex_out ["Color"] ["1f954"; "26f8"]
              (World ex_fs [])) as (w' & l & Hrun & Hout & _ & Hclean).
  - apply sel_ready_sound. vm_compute. reflexivity.
  - repeat first [done | constructor].
  - exists w', l. split; [exact Hrun|]. split; [exact Hout|exact Hclean].
Defined.

(** Where the effect of a run lies. *)
Lemma sel_style_effect_shape (f : fs) (U O : path) (codes : list string)
    (s : string) (p : path) v :
  sel_style_effect f U O codes s p = Some v →
  (v = Some Dir ∧ p `prefix_of` O ++ [s]) ∨ ∃ n, p = O ++ [s; n].
Proof.
  unfold sel_style_effect. destruct (exists_ f (U ++ [s])); [|done].
  unfold eff_seq. destruct (sel_codes_effect f U O s codes p) as [v'|] eqn:Hc.
  - intros _. right.
    apply eff_list_Some_inv in Hc as (e & (code & -> & _)%list_elem_of_fmap & He).
    unfold sel_code_effect in He.
    destruct (copy_schmoji.chosen f (U ++ [s]) code) as [pref|]; [|done].
    case_decide as Hp; [by eexists|].
    destruct (child_name (O ++ [s]) p) as [n|] eqn:Hn; [|done].
    apply child_name_Some in Hn. exists n. by rewrite snoc2.
  - unfold mkdir_effect. case_bool_decide; [|done]. intros [= <-]. by left.
Qed.

Lemma sel_run_effect_shape (f : fs) (U O : path) (styles codes : list string)
    (p : path) v :
  sel_run_effect f U O styles codes p = Some v →
  ∃ s, s ∈ styles ∧
       ((v = Some Dir ∧ p `prefix_of` O ++ [s]) ∨ ∃ n, p = O ++ [s; n]).
Proof.
  intros (e & (s & -> & Hs)%list_elem_of_fmap & He)%eff_list_Some_inv.
  exists s. split; [done|]. by eapply sel_style_effect_shape.
Qed.

(** X10.  A real run of the Selector reads the source tree and leaves it
    as it is; what it changes lies in the destination: a path that
    changes is an entry of a requested style's destination directory,
    or that directory or one of its ancestors, newly made.  The codes
    are plain file-name stems ([code_ok]). *)
Theorem selector_frame (U O : path) (styles codes : list string) (w : world) :
  sel_ready U O styles (w_fs w) →
  Forall code_ok codes →
  ∃ w',
    copy_schmoji.copy_matches U O styles codes false w = Return () w' ∧
    (∀ p, U `prefix_of` p → w_fs w' !! p = w_fs w !! p) ∧
    (∀ p, w_fs w' !! p ≠ w_fs w !! p →
          ∃ s, s ∈ styles ∧
               ((w_fs w' !! p = Some Dir ∧ p `prefix_of` O ++ [s]) ∨
                ∃ n, p = O ++ [s; n])).
Proof.
  intros [Hpre Hinv] _.
  destruct (copy_matches_real U O styles (w_fs w) Hpre codes w Hinv)
    as (f' & Hrun & Happ & Hinv').
  rewrite Hrun. eexists. split; [done|]. simpl. split.
  - apply (inv_src _ _ _ _ _ Hinv').
  - intros p Hne. rewrite (Happ p) in Hne |- *.
    destruct (sel_run_effect (w_fs w) U O styles codes p) as [v|] eqn:He; [|done].
    destruct (sel_run_effect_shape _ _ _ _ _ _ _ He) as (s & Hs & [[-> Hp]|Hn]).
    + exists s. split; [done|]. by left.
    + exists s. split; [done|]. by right.
Qed.

Lemma selector_frame_witness :
  ∃ w',
    copy_schmoji.copy_matches ex_unicode ex_out ["Color"] ["1f954"; "26f8"] false
      (World ex_fs []) = Return () w' ∧
    (∀ p, ex_unicode `prefix_of` p → w_fs w' !! p = ex_fs !! p).
Proof.
  destruct (selector_frame ex_unicode ex_out ["Color"] ["1f954"; "26f8"]
              (World ex_fs [])) as (w' & Hrun & Hsrc & _).
  - apply sel_ready_sound. vm_compute. reflexivity.
  - repeat first [done | constructor].
  - exists w'. split; [exact Hrun|exact Hsrc].
Defined.

(** X11.  After a real run every requested style whose source folder
    exists has its destination directory, whether or not a requested
    code matched in it.  The codes are plain file-name stems
    ([code_ok]). *)
Theorem selector_makes_style_dirs (U O : path) (styles codes : list string)
    (s : string) (w : world) :
  sel_ready U O styles (w_fs w) →
  Forall code_ok codes →
  s ∈ styles → exists_ (w_fs w) (U ++ [s]) = true →
  ∃ w',
    copy_schmoji.copy_matches U O styles codes false w = Return () w' ∧
    is_dir (w_fs w') (O ++ [s]) = true.
Proof.
  intros [Hpre Hinv] _ Hs Hex.
  destruct (copy_matches_real U O styles (w_fs w) Hpre codes w Hinv)
    as (f' & Hrun & Happ & _).
  rewrite Hrun. eexists. split; [done|]. simpl.
  unfold is_dir. rewrite (Happ (O ++ [s])).
  assert (∀ s', sel_codes_effect (w_fs w) U O s' codes (O ++ [s]) = None) as Hcodes.
  { intros s'. apply eff_list_none. intros e (code & -> & _)%list_elem_of_fmap.
    destruct (sel_code_effect (w_fs w) U O s' code (O ++ [s])) as [v|] eqn:He; [|done].
    apply sel_code_effect_shape in He as (n & _ & Heq%(f_equal length) & _).
    rewrite !length_app in Heq. simpl in Heq. lia. }
  unfold sel_run_effect.
  rewrite (eff_list_last _ _ (Some Dir)); [done| |].
  - intros e (s' & -> & _)%list_elem_of_fmap. unfold sel_style_effect.
    destruct (exists_ (w_fs w) (U ++ [s'])); [|by left].
    unfold eff_seq. rewrite Hcodes. unfold mkdir_effect.
    case_bool_decide; auto.
  - exists (sel_style_effect (w_fs w) U O codes s). split.
    + apply list_elem_of_fmap. by exists s.
    + unfold sel_style_effect. rewrite Hex. unfold eff_seq. rewrite Hcodes.
      unfold mkdir_effect. by rewrite bool_decide_true.
Qed.

Lemma selector_makes_style_dirs_witness :
  ∃ w',
    copy_schmoji.copy_matches ex_unicode ex_out ["Color"] ["ffffff"] false
      (World ex_fs []) = Return () w' ∧
    is_dir (w_fs w') (ex_out ++ ["Color"]) = true.
Proof.
  apply (selector_makes_style_dirs ex_unicode ex_out ["Color"] ["ffffff"] "Color"
           (World ex_fs [])).
  - apply sel_ready_sound. vm_compute. reflexivity.
  - repeat first [done | constructor].
  - left.
  - vm_compute. reflexivity.
Defined.

(** ** Beyond the claims: the Flattener never removes *)

Lemma grows_refl (f : fs) : grows f f.
Proof. by intros p. Qed.

Lemma grows_trans (f g h : fs) : grows f g → grows g h → grows f h.
Proof. intros H1 H2 p. destruct (H1 p), (H2 p). auto. Qed.

Lemma grows_insert_dir (f : fs) (p : path) :
  is_file f p = false → grows f (<[p := Dir]> f).
Proof.
  intros Hp q. unfold is_dir, is_file in *.
  destruct (decide (p = q)) as [->|Hne].
  - rewrite lookup_insert_eq. split; [done|]. by rewrite Hp.
  - by rewrite lookup_insert_ne.
Qed.

Lemma grows_insert_file (f : fs) (p : path) (data : string) :
  is_dir f p = false → grows f (<[p := File data]> f).
Proof.
  intros Hp q. unfold is_dir, is_file in *.
  destruct (decide (p = q)) as [->|Hne].
  - rewrite lookup_insert_eq. split; [|done]. by rewrite Hp.
  - by rewrite lookup_insert_ne.
Qed.

Lemma mkdir_from_grows (rest : list string) (pre : path) (f f' : fs) :
  mkdir_from pre rest f = Some f' →
  grows f f' ∧ is_dir f' (pre ++ rest) = true.
Proof.
  revert pre f. induction rest as [|n rest IH]; intros pre f; simpl.
  - destruct (f !! pre) as [[data|]|] eqn:Hp; [done|..]; intros [= <-].
    all: rewrite app_nil_r; split;
      [apply grows_insert_dir; unfold is_file; by rewrite Hp
      |unfold is_dir; by rewrite lookup_insert_eq].
  - destruct (f !! pre) as [[data|]|] eqn:Hp; [done|..]; intros Hmk.
    all: apply IH in Hmk as [Hg Hd]; rewrite <-app_assoc in Hd; split; [|done].
    all: eapply grows_trans; [|exact Hg].
    all: apply grows_insert_dir; unfold is_file; by rewrite Hp.
Qed.

Lemma mkdir_Return (p : path) (w w' : world) :
  mkdir p w = Return () w' →
  grows (w_fs w) (w_fs w') ∧ is_dir (w_fs w') p = true.
Proof.
  unfold mkdir, fs_op, mkdir_parents.
  destruct (mkdir_from [] p (w_fs w)) as [f'|] eqn:Hmk; [|done].
  intros [= <-]. simpl. by apply mkdir_from_grows in Hmk.
Qed.

Lemma only_grows_keeps {A} (m : M A) : keeps_fs m → only_grows m.
Proof. intros H w. rewrite (H w). apply grows_refl. Qed.

Lemma only_grows_mkdir (p : path) : only_grows (mkdir p).
Proof.
  intros w. destruct (mkdir p w) as [[] w'|e w'] eqn:Hm.
  - by apply mkdir_Return in Hm as [? _].
  - unfold mkdir, fs_op in Hm. destruct (mkdir_parents _ _); [done|].
    injection Hm as _ <-. apply grows_refl.
Qed.

Lemma only_grows_copy2 (src dst : path) : only_grows (copy2 src dst).
Proof.
  intros w. unfold copy2, fs_op, copy2_fs.
  destruct (w_fs w !! src) as [[data|]|]; try apply grows_refl.
  case_decide; [apply grows_refl|].
  destruct (is_dir (w_fs w) (copy2_target (w_fs w) src dst)) eqn:Hd;
    [apply grows_refl|].
  destruct (is_dir (w_fs w) (parent _)); [|apply grows_refl].
  simpl. by apply grows_insert_file.
Qed.

Lemma only_grows_bind {A B} (m : M A) (k : A → M B) :
  only_grows m → (∀ a, only_grows (k a)) → only_grows (bind m k).
Proof.
  intros Hm Hk w. unfold bind. specialize (Hm w).
  destruct (m w) as [a w'|e w']; simpl in *; [|done].
  eapply grows_trans; [exact Hm|apply Hk].
Qed.

Lemma only_grows_for_each {A S} (l : list A) (body : S → A → M S) (acc : S) :
  (∀ acc x, only_grows (body acc x)) → only_grows (for_each l body acc).
Proof.
  intros Hbody. revert acc. induction l as [|x l IH]; intros acc; simpl.
  - apply only_grows_keeps, keeps_ret.
  - apply only_grows_bind; [apply Hbody|apply IH].
Qed.

Lemma only_grows_copy_in_style_dir (style_dir : path) (code : string) (O : path)
    (dry_run : bool) :
  only_grows (rename_files.copy_in_style_dir style_dir code O dry_run).
Proof.
  unfold rename_files.copy_in_style_dir.
  apply only_grows_bind; [apply only_grows_keeps, keeps_get_fs|]. intros f.
  destruct (negb _); [apply only_grows_keeps, keeps_ret|].
  destruct (filter _ _); [apply only_grows_keeps, keeps_ret|].
  apply only_grows_bind.
  { destruct (negb dry_run); [apply only_grows_mkdir|apply only_grows_keeps, keeps_ret]. }
  intros _. apply only_grows_for_each. intros [] name.
  unfold rename_files.copy_one. destruct dry_run.
  - apply only_grows_keeps, keeps_print.
  - apply only_grows_bind; [apply only_grows_copy2|].
    intros _. apply only_grows_keeps, keeps_print.
Qed.

Section never_removes.
Variable json_load : string → option loaded.

Lemma only_grows_process_emoji_dir (E O : path) (dry_run : bool) :
  only_grows (rename_files.process_emoji_dir json_load E O dry_run).
Proof.
  unfold rename_files.process_emoji_dir.
  apply only_grows_bind; [apply only_grows_keeps, keeps_get_fs|]. intros f.
  destruct (negb _); [apply only_grows_keeps, keeps_ret|].
  destruct (rename_files.read_code _ _ _); [|apply only_grows_keeps, keeps_print].
  apply only_grows_for_each. intros [] style. unfold rename_files.style_step.
  apply only_grows_bind; [apply only_grows_keeps, keeps_get_fs|]. intros f'.
  apply only_grows_copy_in_style_dir.
Qed.

(** What [main] does after the output directories are made. *)
Lemma only_grows_walk (assets_root out_root : path) (dry_run : bool) :
  only_grows
    (bind get_fs (λ f1,
       bind (if exists_ f1 (assets_root ++ ["metadata.json"])
             then rename_files.process_emoji_dir json_load assets_root out_root dry_run
             else if is_dir f1 assets_root
                  then for_each (sorted (iterdir f1 assets_root))
                         (rename_files.process_child json_load assets_root out_root
                            dry_run) ()
                  else raise OSError)
            (λ _, if dry_run then print (WouldWriteUnder out_root)
                  else print (WroteUnder out_root)))).
Proof.
  apply only_grows_bind; [apply only_grows_keeps, keeps_get_fs|]. intros f1.
  apply only_grows_bind.
  2:{ intros _. destruct dry_run; apply only_grows_keeps, keeps_print. }
  destruct (exists_ f1 _); [apply only_grows_process_emoji_dir|].
  destruct (is_dir f1 _); [|apply only_grows_keeps, keeps_raise].
  apply only_grows_for_each. intros [] child. unfold rename_files.process_child.
  apply only_grows_bind; [apply only_grows_keeps, keeps_get_fs|]. intros f2.
  destruct (is_dir f2 _);
    [apply only_grows_process_emoji_dir|apply only_grows_keeps, keeps_ret].
Qed.

Lemma only_grows_make_dirs (out_root : path) (dry_run : bool) :
  only_grows
    (if negb dry_run
     then bind (mkdir out_root)
            (λ _, for_each rename_files.STYLE_DIRS
                    (λ _ _style, mkdir (out_root ++ [_style])) ())
     else ret ()).
Proof.
  destruct (negb dry_run); [|apply only_grows_keeps, keeps_ret].
  apply only_grows_bind; [apply only_grows_mkdir|]. intros _.
  apply only_grows_for_each. intros [] s. apply only_grows_mkdir.
Qed.

(** X12.  The Flattener only adds: whatever the arguments and the tree,
    and whether [main] returns or stops on an error, every directory
    that existed is still a directory afterwards and every regular file
    still a regular file; nothing is removed. *)
Theorem flattener_never_removes (a : rename_files.args) (w : world) :
  grows (w_fs w) (w_fs (final_world (rename_files.main json_load a w))).
Proof.
  revert w. change (only_grows (rename_files.main json_load a)).
  unfold rename_files.main.
  apply only_grows_bind; [apply only_grows_keeps, keeps_get_fs|]. intros f.
  destruct (negb _); [apply only_grows_keeps, keeps_print|].
  apply only_grows_bind; [apply only_grows_make_dirs|]. intros _.
  apply only_grows_walk.
Qed.

Lemma bind_Return_inv {A B} (m : M A) (k : A → M B) (w w' : world) (b : B) :
  bind m k w = Return b w' → ∃ a w1, m w = Return a w1 ∧ k a w1 = Return b w'.
Proof.
  unfold bind. destruct (m w) as [a w1|e w1]; [|done]. intros H. by exists a, w1.
Qed.

Lemma make_style_dirs_Return (out_root : path) (ss : list string) (w w' : world) :
  for_each ss (λ _ _style, mkdir (out_root ++ [_style])) () w = Return () w' →
  grows (w_fs w) (w_fs w') ∧ ∀ s, s ∈ ss → is_dir (w_fs w') (out_root ++ [s]) = true.
Proof.
  revert w. induction ss as [|s ss IH]; intros w; simpl.
  - intros [= <-]. split; [apply grows_refl|]. by intros s ?%elem_of_nil.
  - intros ([] & w1 & Hmk & Hrest)%bind_Return_inv.
    apply mkdir_Return in Hmk as [Hg1 Hd1]. apply IH in Hrest as [Hg2 Hd2].
    split; [by eapply grows_trans|].
    intros s' [->|Hs']%elem_of_cons; [by apply Hg2|by apply Hd2].
Qed.

(** X13.  When a real run of the Flattener's [main] returns, the output
    root and its four style subdirectories are directories, whether or
    not any file was copied. *)
Theorem flattener_makes_out_dirs (a : rename_files.args) (w w' : world) :
  rename_files.main json_load a w = Return () w' →
  rename_files.a_dry_run a = false →
  exists_ (w_fs w) (rename_files.a_root a) = true →
  is_dir (w_fs w')
    (rename_files.resolve_out_root (w_fs w) (rename_files.a_root a)
       (rename_files.a_out a)) = true ∧
  ∀ s, s ∈ rename_files.STYLE_DIRS →
       is_dir (w_fs w')
         (rename_files.resolve_out_root (w_fs w) (rename_files.a_root a)
            (rename_files.a_out a) ++ [s]) = true.
Proof.
  intros Hrun Hdry Hroot. unfold rename_files.main in Hrun.
  unfold bind at 1, get_fs in Hrun. rewrite Hroot, Hdry in Hrun. cbn [negb] in Hrun.
  set (O := rename_files.resolve_out_root _ _ _) in *.
  apply bind_Return_inv in Hrun as ([] & w1 & Hmk & Hrest).
  apply bind_Return_inv in Hmk as ([] & w0 & Hmk0 & Hmk1).
  apply mkdir_Return in Hmk0 as [_ Hd0].
  apply make_style_dirs_Return in Hmk1 as [Hg1 Hd1].
  assert (grows (w_fs w1) (w_fs w')) as Hg.
  { change (w_fs w') with (w_fs (final_world (Return () w'))). rewrite <-Hrest.
    apply (only_grows_walk _ O false w1). }
  split.
  - by apply Hg, Hg1.
  - intros s Hs. by apply Hg, Hd1.
Qed.

End never_removes.

Lemma flattener_makes_out_dirs_witness :
  ∃ w',
    rename_files.main ex_json_load (rename_files.Args ["repo"] None false)
      (World ex_assets []) = Return () w' ∧
    is_dir (w_fs w') ["repo"; "unicode"] = true ∧
    is_dir (w_fs w') ["repo"; "unicode"; "High Contrast"] = true.
Proof.
  destruct (rename_files.main ex_json_load (rename_files.Args ["repo"] None false)
              (World ex_assets [])) as [[] w'|e w'] eqn:Hrun.
  - exists w'. split; [reflexivity|].
    destruct (flattener_makes_out_dirs ex_json_load
                (rename_files.Args ["repo"] None false) (World ex_assets []) w' Hrun)
      as [Hout Hstyles].
    + reflexivity.
    + vm_compute. reflexivity.
    + split; [exact Hout|]. apply (Hstyles "High Contrast").
      right. right. left.
  - vm_compute in Hrun. discriminate.
Defined.

(** ** Beyond the claims: the Flattener's copies and the pipeline *)

Lemma realize_flat_log (f : fs) (E O : path) (code : string) :
  omap realize (flat_emoji_log true f E O code) = flat_emoji_log false f E O code.
Proof.
  unfold flat_emoji_log. induction rename_files.STYLE_DIRS as [|s ss IH]; [done|].
  rewrite !fmap_cons, !concat_cons, omap_app, IH. f_equal.
  unfold flat_style_log. destruct (is_dir f _); [|done].
  induction (flat_files f (flat_base f E ++ [s])) as [|n l IHl]; [done|].
  rewrite !fmap_cons. rewrite <-IHl. reflexivity.
Qed.

(** X14.  A dry run of the Flattener on an emoji directory is faithful:
    a real run from the same tree prints the same warnings and, for
    every planned copy, the copy with the same source and target, in
    the same order.  The code of the metadata, when there is one, is
    taken to be a plain file-name stem ([code_ok]). *)
Theorem flattener_dry_run_faithful (json_load : string → option loaded)
    (E O : path) (w : world) :
  flat_ready E O (w_fs w) →
  (∀ code, rename_files.read_code json_load (w_fs w) (E ++ ["metadata.json"])
           = inl code → code_ok code) →
  ∃ wd wr ld lr,
    rename_files.process_emoji_dir json_load E O true w = Return () wd ∧
    rename_files.process_emoji_dir json_load E O false w = Return () wr ∧
    w_out wd = w_out w ++ ld ∧ w_out wr = w_out w ++ lr ∧
    omap realize ld = lr.
Proof.
  intros Hready _.
  destruct (exists_ (w_fs w) (E ++ ["metadata.json"])) eqn:Hex.
  2:{ rewrite !process_emoji_dir_no_meta by done.
      exists w, w, [], []. by rewrite app_nil_r. }
  destruct (rename_files.read_code json_load (w_fs w) (E ++ ["metadata.json"]))
    as [code|warning] eqn:Hrc.
  - destruct (process_emoji_dir_real json_load E O code w Hready Hex Hrc)
      as (f' & Hrun & _).
    rewrite Hrun, (process_emoji_dir_dry_code json_load E O code w Hex Hrc).
    eexists _, _, _, _. split_and!; [done..|]. apply realize_flat_log.
  - rewrite !(process_emoji_dir_warning json_load E O _ w warning) by done.
    eexists _, _, [warning], [warning]. split_and!; [done..|].
    unfold rename_files.read_code in Hrc.
    destruct (w_fs w !! _) as [[data|]|]; [|by injection Hrc as <-..].
    destruct (json_load data) as [[items|]|]; [|by injection Hrc as <-..].
    destruct (negb _); [by injection Hrc as <-|done].
Qed.

Lemma flattener_dry_run_faithful_witness :
  ∃ wd wr ld lr,
    rename_files.process_emoji_dir ex_json_load ex_potato ["repo"; "unicode"] true
      (World ex_assets []) = Return () wd ∧
    rename_files.process_emoji_dir ex_json_load ex_potato ["repo"; "unicode"] false
      (World ex_assets []) = Return () wr ∧
    w_out wd = [] ++ ld ∧ w_out wr = [] ++ lr ∧
    omap realize ld = lr.
Proof.
  apply (flattener_dry_run_faithful ex_json_load ex_potato ["repo"; "unicode"]
           (World ex_assets [])).
  - apply flat_ready_sound. vm_compute. reflexivity.
  - intros code Hrc. vm_compute in Hrc. injection Hrc as <-.
    split; [discriminate|]. repeat constructor.
Defined.

(** *** The file that wins a collision *)

Lemma StronglySorted_filter_str (P : string → Prop) `{∀ x, Decision (P x)}
    (l : list string) :
  StronglySorted String.le l → StronglySorted String.le (filter P l).
Proof.
  induction 1 as [|x l Hl IH Hall]; [constructor|].
  rewrite filter_cons. case_decide; [|done].
  constructor; [done|]. apply Forall_forall. intros y [_ Hy]%list_elem_of_filter.
  by eapply Forall_forall in Hall.
Qed.

Lemma flat_files_sorted (f : fs) (S : path) :
  StronglySorted String.le (flat_files f S) ∧ NoDup (flat_files f S).
Proof.
  unfold flat_files. split.
  - apply StronglySorted_filter_str, (Sorted_StronglySorted String.le), sorted_Sorted.
  - apply NoDup_filter, NoDup_sorted, NoDup_iterdir.
Qed.

Lemma flat_copies_last (f0 : fs) (S O : path) (code : string)
    (files : list string) (n : string) :
  StronglySorted String.le files → NoDup files → n ∈ files →
  (∀ m, m ∈ files → suffix m = suffix n → String.le m n) →
  eff_list (flat_copy_effect f0 S O code <$> files)
           (O ++ [name_of S; code +:+ suffix n]) = Some (f0 !! (S ++ [n])).
Proof.
  intros Hsorted Hnd Hn Hmax.
  apply list_elem_of_split in Hn as (l1 & l2 & ->).
  rewrite fmap_app, fmap_cons, eff_list_app. simpl. unfold eff_seq.
  assert (eff_list (flat_copy_effect f0 S O code <$> l2)
            (O ++ [name_of S; code +:+ suffix n]) = None) as ->.
  { apply eff_list_none. intros e (m & -> & Hm)%list_elem_of_fmap.
    unfold flat_copy_effect. case_decide as Heq; [|done]. exfalso.
    rewrite !snoc2 in Heq. apply snoc_inj in Heq as [_ Heq].
    apply str_app_inv_head in Heq.
    assert (String.le m n) as Hmn.
    { apply Hmax; [|done]. apply elem_of_app. right. by right. }
    assert (String.le n m) as Hnm.
    { apply StronglySorted_app in Hsorted as (_ & _ & Hs2).
      apply StronglySorted_inv in Hs2 as [_ Hall].
      by eapply Forall_forall in Hall. }
    assert (m = n) as -> by by apply (anti_symm String.le).
    apply NoDup_app in Hnd as (_ & _ & Hnd). apply NoDup_cons in Hnd as [Hnot _].
    done. }
  unfold flat_copy_effect. by rewrite decide_True.
Qed.

(** X15.  When several files of a style directory have the same
    extension, they collide on one destination name and the file whose
    name sorts last wins: after a real run the destination holds its
    contents.  The code is a plain file-name stem ([code_ok]). *)
Theorem flattener_last_file_wins (json_load : string → option loaded)
    (E O : path) (code style n : string) (w : world) :
  flat_ready E O (w_fs w) →
  exists_ (w_fs w) (E ++ ["metadata.json"]) = true →
  rename_files.read_code json_load (w_fs w) (E ++ ["metadata.json"]) = inl code →
  code_ok code →
  style ∈ rename_files.STYLE_DIRS →
  n ∈ flat_files (w_fs w) (flat_base (w_fs w) E ++ [style]) →
  (∀ m, m ∈ flat_files (w_fs w) (flat_base (w_fs w) E ++ [style]) →
        suffix m = suffix n → String.le m n) →
  ∃ w',
    rename_files.process_emoji_dir json_load E O false w = Return () w' ∧
    w_fs w' !! (O ++ [style; code +:+ suffix n]) =
    w_fs w !! (flat_base (w_fs w) E ++ [style; n]).
Proof.
  intros Hready Hex Hrc _ Hs Hn Hmax.
  destruct (process_emoji_dir_real json_load E O code w Hready Hex Hrc)
    as (f' & Hrun & Happ).
  rewrite Hrun. eexists. split; [done|]. simpl. rewrite (Happ _).
  set (S := flat_base (w_fs w) E ++ [style]) in *.
  assert (flat_style_effect (w_fs w) S O code (O ++ [style; code +:+ suffix n]) =
          Some (w_fs w !! (flat_base (w_fs w) E ++ [style; n]))) as Hstyle.
  { unfold flat_style_effect.
    pose proof Hn as Hd. apply elem_of_flat_files in Hd as [Hd _].
    rewrite Hd.
    destruct (flat_files_sorted (w_fs w) S) as [Hsorted Hnd].
    pose proof (flat_copies_last (w_fs w) S O code _ n Hsorted Hnd Hn Hmax) as Hlast.
    unfold S in Hlast at 3. rewrite name_of_snoc in Hlast.
    destruct (flat_files (w_fs w) S) as [|n0 names] eqn:Hfiles;
      [by apply elem_of_nil in Hn|].
    unfold eff_seq. fold S. rewrite Hlast. unfold S. by rewrite <-snoc2. }
  unfold flat_emoji_effect.
  rewrite (eff_list_last _ _ (w_fs w !! (flat_base (w_fs w) E ++ [style; n])));
    [done| |].
  - intros e (s' & -> & Hs')%list_elem_of_fmap.
    destruct (flat_style_effect (w_fs w) (flat_base (w_fs w) E ++ [s']) O code
                (O ++ [style; code +:+ suffix n])) as [v|] eqn:He; [|by left].
    right. pose proof He as He'.
    apply flat_style_effect_Some in He' as [[_ Hp]|(m & _ & Hp & _)].
    + by apply not_prefix_longer in Hp.
    + rewrite name_of_snoc, !snoc2 in Hp.
      apply snoc_inj in Hp as [[_ ->]%snoc_inj _]. fold S in He. congruence.
  - exists (flat_style_effect (w_fs w) S O code). split; [|done].
    apply list_elem_of_fmap. by exists style.
Qed.

Lemma flattener_last_file_wins_witness :
  ∃ w',
    rename_files.process_emoji_dir ex_json_load ex_potato ["repo"; "unicode"] false
      (World ex_assets []) = Return () w' ∧
    w_fs w' !! (["repo"; "unicode"] ++ ["Color"; "1f954" +:+ suffix "potato_old.png"])
    = ex_assets !! (flat_base ex_assets ex_potato ++ ["Color"; "potato_old.png"]).
Proof.
  apply (flattener_last_file_wins ex_json_load ex_potato ["repo"; "unicode"]
           "1f954" "Color" "potato_old.png" (World ex_assets [])).
  - apply flat_ready_sound. vm_compute. reflexivity.
  - vm_compute. reflexivity.
  - vm_compute. reflexivity.
  - split; [discriminate|]. repeat constructor.
  - left.
  - apply elem_of_flat_files. vm_compute. repeat split; congruence.
  - intros m Hm _. revert Hm.
    change (flat_files (w_fs (World ex_assets []))
              (flat_base (w_fs (World ex_assets [])) ex_potato ++ ["Color"]))
      with (flat_files ex_assets (flat_base ex_assets ex_potato ++ ["Color"])).
    replace (flat_files ex_assets (flat_base ex_assets ex_potato ++ ["Color"]))
      with ["potato_color.png"; "potato_color.svg"; "potato_old.png"]
      by (vm_compute; reflexivity).
    intros [->|[->|[->|[]%elem_of_nil]%elem_of_cons]%elem_of_cons]%elem_of_cons;
      vm_compute; exact I.
Defined.

(** *** From the Flattener to the Selector *)

Lemma flat_emoji_effect_dir (f0 : fs) (E O : path) (code style n : string) :
  style ∈ rename_files.STYLE_DIRS →
  n ∈ flat_files f0 (flat_base f0 E ++ [style]) →
  flat_emoji_effect f0 E O code (O ++ [style]) = Some (Some Dir).
Proof.
  intros Hs Hn. unfold flat_emoji_effect. apply eff_list_last.
  - intros e (s' & -> & _)%list_elem_of_fmap.
    destruct (flat_style_effect f0 (flat_base f0 E ++ [s']) O code (O ++ [style]))
      as [v|] eqn:He; [|by left].
    right. apply flat_style_effect_Some in He as [[-> _]|(m & _ & Hp & _)]; [done|].
    apply (f_equal length) in Hp. rewrite !length_app in Hp. simpl in Hp. lia.
  - exists (flat_style_effect f0 (flat_base f0 E ++ [style]) O code). split.
    { apply list_elem_of_fmap. by exists style. }
    unfold flat_style_effect.
    pose proof Hn as [Hd _]%elem_of_flat_files. rewrite Hd.
    destruct (flat_files f0 (flat_base f0 E ++ [style])) as [|n0 names] eqn:Hfiles;
      [by apply elem_of_nil in Hn|].
    unfold eff_seq. rewrite eff_list_none.
    + unfold mkdir_effect. by rewrite name_of_snoc, bool_decide_true.
    + intros e (m & -> & _)%list_elem_of_fmap. unfold flat_copy_effect.
      case_decide as Hp; [|done].
      apply (f_equal length) in Hp. rewrite !length_app in Hp. simpl in Hp. lia.
Qed.

Lemma chosen_exact (f : fs) (d : path) (code n : string) :
  n ∈ glob f d (pat_exact code) →
  ∃ pref, copy_schmoji.chosen f d code = Some pref ∧
          pref ∈ glob f d (pat_exact code).
Proof.
  intros Hn. pose proof (chosen_cases f d code) as Hc.
  destruct (copy_schmoji.chosen f d code) as [pref|].
  - exists pref. split; [done|].
    destruct (sorted (glob f d (pat_exact code))) as [|x rest] eqn:Hsorted.
    + rewrite sorted_glob_nil in Hsorted. by destruct (Hsorted n).
    + subst pref. by apply sorted_head in Hsorted as [? _].
  - destruct (Hc n). by apply glob_exact_any.
Qed.

(** X16.  The Flattener writes what the Selector prefers.  After a real
    run of [process_emoji_dir] on an emoji directory with code [code],
    for every style directory from which a file with an extension was
    copied, the Selector pointed at the output root finds the code in
    that style and picks an exact match [<code>.<ext>]; and the code
    passes the Selector's normalisation unchanged.  The code is a plain
    file-name stem ([code_ok]). *)
Theorem flattener_feeds_selector (json_load : string → option loaded)
    (E O : path) (code style n : string) (w : world) :
  flat_ready E O (w_fs w) →
  exists_ (w_fs w) (E ++ ["metadata.json"]) = true →
  rename_files.read_code json_load (w_fs w) (E ++ ["metadata.json"]) = inl code →
  code_ok code →
  style ∈ rename_files.STYLE_DIRS →
  n ∈ flat_files (w_fs w) (flat_base (w_fs w) E ++ [style]) →
  suffix n ≠ "" →
  ∃ w' pref,
    rename_files.process_emoji_dir json_load E O false w = Return () w' ∧
    copy_schmoji.normalize_codes [code] = [code] ∧
    copy_schmoji.chosen (w_fs w') (O ++ [style]) code = Some pref ∧
    pref ∈ glob (w_fs w') (O ++ [style]) (pat_exact code).
Proof.
  intros Hready Hex Hrc _ Hs Hn Hsuf.
  destruct (process_emoji_dir_real json_load E O code w Hready Hex Hrc)
    as (f' & Hrun & Happ).
  assert (code +:+ suffix n ∈ glob f' (O ++ [style]) (pat_exact code)) as Hglob.
  { apply elem_of_glob. split_and!.
    - unfold is_dir. rewrite (Happ _).
      by rewrite (flat_emoji_effect_dir _ _ _ _ style n).
    - rewrite <-snoc2, (Happ _).
      destruct (flat_emoji_effect_target (w_fs w) E O code style n Hs Hn) as [v Hv].
      rewrite Hv.
      apply flat_emoji_effect_Some in Hv as [[_ [s' Hp]]|(s' & n' & _ & Hn' & _ & ->)].
      + by apply not_prefix_longer in Hp.
      + apply elem_of_flat_files in Hn' as (_ & Hfile & _).
        unfold is_file in Hfile. rewrite <-snoc2 in Hfile.
        by destruct (w_fs w !! _) as [[|]|].
    - apply fnmatch_pat_exact.
      destruct (suffix_dotinit n) as [?|[r Hr]]; [done|].
      exists r. by rewrite Hr. }
  destruct (chosen_exact f' (O ++ [style]) code _ Hglob) as (pref & Hch & Hpref).
  exists (World f' (w_out w ++ flat_emoji_log false (w_fs w) E O code)), pref.
  split_and!; [done| |done..].
  apply read_code_inl in Hrc as (data & items & _ & _ & Hcode & Hne).
  unfold copy_schmoji.normalize_codes. simpl.
  assert (Str.lower (Str.strip code) = code) as ->.
  { rewrite Hcode. apply norm_idem. }
  apply truthy_true in Hne. by rewrite Hne.
Qed.

Lemma flattener_feeds_selector_witness :
  ∃ w' pref,
    rename_files.process_emoji_dir ex_json_load ex_potato ["repo"; "unicode"] false
      (World ex_assets []) = Return () w' ∧
    copy_schmoji.normalize_codes ["1f954"] = ["1f954"] ∧
    copy_schmoji.chosen (w_fs w') (["repo"; "unicode"] ++ ["Color"]) "1f954"
      = Some pref ∧
    pref ∈ glob (w_fs w') (["repo"; "unicode"] ++ ["Color"]) (pat_exact "1f954").
Proof.
  apply (flattener_feeds_selector ex_json_load ex_potato ["repo"; "unicode"]
           "1f954" "Color" "potato_color.svg" (World ex_assets [])).
  - apply flat_ready_sound. vm_compute. reflexivity.
  - vm_compute. reflexivity.
  - vm_compute. reflexivity.
  - split; [discriminate|]. repeat constructor.
  - left.
  - apply elem_of_flat_files. vm_compute. repeat split; congruence.
  - vm_compute. discriminate.
Defined.
